(** * Thread plan stack of lldb: a shallow embedding of source/Target/Thread.cpp

    The development follows [Thread.cpp]: the three plan vectors of a thread
    ([m_plan_stack], [m_completed_plan_stack], [m_discarded_plan_stack]), the
    operations that move plans between them, and the decision procedures
    [WillResume], [ShouldStop], [ShouldReportStop], [ShouldReportRun] and
    [GetStopInfo].

    Modelling conventions.
    - A [std::vector] is a list whose index 0 comes first; [back()] is
      [last], [push_back] appends at the end, [pop_back] is [removelast].
    - A plan pointer is the plan object it points to, or [None] for NULL;
      pointers are compared through the address of the object.
    - The virtual queries of a plan ([PlanExplainsStop], [ShouldStop],
      [MischiefManaged], ...) are implemented by subclasses outside
      [Thread.cpp]; a plan object carries the answers it gives at the stop
      that is being processed.  Virtual hooks whose result is not used
      ([WillStop], [WillPop], [DidPush], [DoTraceLog], the [WillResume] of the
      plans and of the stop info) are recorded in the call log of the thread.
    - The pure virtual [GetPrivateStopReason] of the thread is likewise the
      answer that the subclass gives at this stop.
    - A loop whose exit depends on the data ([while (1)], a walk along
      [GetPreviousPlan]) takes fuel; [OutOfFuel] is distinct from [Fault],
      the outcome of a failed [assert] or of a NULL dereference.
    - The [int] counters of the loops range over vector sizes; they are
      natural numbers, or integers where the code lets them reach -1. *)

From Stdlib Require Import ZArith Bool List Lia.
From stdpp Require Import base list.
Import ListNotations.

Open Scope nat_scope.

(** ** Enumerations used by Thread.cpp *)

(** Modelled from the spec: lldb-enumerations.h is not among the sources at
    hand.  The states are those of the [switch] in
    [DynamicLoaderDarwinKernel::PrivateProcessStateChanged]; a vote is yes, no
    or no opinion. *)

Inductive StateType : Type :=
| eStateInvalid | eStateUnloaded | eStateConnected | eStateAttaching
| eStateLaunching | eStateStopped | eStateRunning | eStateStepping
| eStateCrashed | eStateDetached | eStateExited | eStateSuspended.

Inductive Vote : Type := eVoteNo | eVoteNoOpinion | eVoteYes.

#[global] Instance StateType_eq_dec : EqDecision StateType.
Proof. solve_decision. Defined.

#[global] Instance Vote_eq_dec : EqDecision Vote.
Proof. solve_decision. Defined.

(** ** Outcome of a member function *)

Inductive Res (A : Type) : Type :=
| Ret (a : A)
| Fault
| OutOfFuel.
Arguments Ret {A} a.
Arguments Fault {A}.
Arguments OutOfFuel {A}.

Definition bind {A B : Type} (m : Res A) (k : A -> Res B) : Res B :=
  match m with
  | Ret a => k a
  | Fault => Fault
  | OutOfFuel => OutOfFuel
  end.

Declare Scope res_scope.
Delimit Scope res_scope with res.
Notation "'do' x <- m ; k" := (bind m (fun x => k))
  (at level 10, x name, m at level 100, k at level 200, only parsing)
  : res_scope.
Notation "'do' ' pat <- m ; k" :=
  (bind m (fun x => match x with pat => k end))
  (at level 10, pat pattern, m at level 100, k at level 200, only parsing)
  : res_scope.
Open Scope res_scope.

(** ** Thread plans *)

Module ThreadPlan.

(** A plan object.  ThreadPlan.h is not among the sources at hand: the
    fields are the member functions of a plan that Thread.cpp calls.  [addr]
    is the address of the object, the identity that pointer comparisons see;
    the other fields are the answers of its virtual member functions. *)
Record t : Type := mk {
  addr : nat;
  IsBasePlan : bool;
  IsMasterPlan : bool;
  OkayToDiscard : bool;
  GetPrivate : bool;
  ValidatePlan : bool;
  PlanExplainsStop : bool;
  TracerExplainsStop : bool;
  ShouldStop : bool;
  ShouldAutoContinue : bool;
  MischiefManaged : bool;
  IsPlanStale : bool;
  PlanSucceeded : bool;
  GetReturnValueObject : option nat;
  ShouldReportStop : Vote;
  ShouldReportRun : Vote;
  WillResume : StateType -> bool -> bool;
  GetThreadPlanTracer : option nat
}.

Definition SetThreadPlanTracer (p : t) (tracer : option nat) : t :=
  mk (addr p) (IsBasePlan p) (IsMasterPlan p) (OkayToDiscard p)
     (GetPrivate p) (ValidatePlan p) (PlanExplainsStop p)
     (TracerExplainsStop p) (ShouldStop p) (ShouldAutoContinue p)
     (MischiefManaged p) (IsPlanStale p) (PlanSucceeded p)
     (GetReturnValueObject p) (ShouldReportStop p) (ShouldReportRun p)
     (WillResume p) tracer.

(** [p.get() == q.get()] *)
Definition same (p q : t) : bool := Nat.eqb (addr p) (addr q).

(** [p == q] for two raw pointers, either of which may be NULL. *)
Definition same_ptr (p q : option t) : bool :=
  match p, q with
  | Some a, Some b => same a b
  | None, None => true
  | _, _ => false
  end.

End ThreadPlan.

(** ** Stop information and the process *)

Inductive StopReason : Type :=
| StopReasonOther (id : nat)
| StopReasonPlanComplete (plan : nat) (return_valobj : option nat).

Record StopInfo : Type := mkStopInfo {
  GetStopReason : StopReason;
  IsValid : bool;
  ShouldStopSynchronous : bool
}.

(** Modelled from the spec: [StopInfo::CreateStopReasonWithPlan] is defined in
    StopInfo.cpp, which is not part of the sources at hand; it synthesises a
    plan-complete stop info that carries the plan and the return value
    object it is given. *)
Definition CreateStopReasonWithPlan (plan : ThreadPlan.t)
    (return_valobj : option nat) : StopInfo :=
  mkStopInfo (StopReasonPlanComplete (ThreadPlan.addr plan) return_valobj)
             true true.

Record Process : Type := mkProcess { GetStopID : N }.

(** Calls of virtual hooks, in the order in which the thread makes them. *)
Inductive Call : Type :=
| CallDidPush (plan : nat)
| CallWillPop (plan : nat)
| CallWillStop (plan : nat)
| CallDoTraceLog (plan : nat)
| CallWillResume (plan : nat) (resume_state : StateType) (current_plan : bool)
| CallStopInfoWillResume (resume_state : StateType).

(** ** The thread *)

Module Thread.

Record t : Type := mk {
  m_process_wp : option Process;
  m_actual_stop_info_sp : option StopInfo;
  m_thread_stop_reason_stop_id : N;
  m_plan_stack : list ThreadPlan.t;
  m_completed_plan_stack : list ThreadPlan.t;
  m_discarded_plan_stack : list ThreadPlan.t;
  m_resume_state : StateType;
  m_temporary_resume_state : StateType;
  (** the answer of the pure virtual [GetPrivateStopReason] *)
  GetPrivateStopReason : option StopInfo;
  calls : list Call
}.

Definition set_plan_stack (v : list ThreadPlan.t) (th : t) : t :=
  mk (m_process_wp th) (m_actual_stop_info_sp th)
     (m_thread_stop_reason_stop_id th) v (m_completed_plan_stack th)
     (m_discarded_plan_stack th) (m_resume_state th)
     (m_temporary_resume_state th) (GetPrivateStopReason th) (calls th).

Definition set_completed_plan_stack (v : list ThreadPlan.t) (th : t) : t :=
  mk (m_process_wp th) (m_actual_stop_info_sp th)
     (m_thread_stop_reason_stop_id th) (m_plan_stack th) v
     (m_discarded_plan_stack th) (m_resume_state th)
     (m_temporary_resume_state th) (GetPrivateStopReason th) (calls th).

Definition set_discarded_plan_stack (v : list ThreadPlan.t) (th : t) : t :=
  mk (m_process_wp th) (m_actual_stop_info_sp th)
     (m_thread_stop_reason_stop_id th) (m_plan_stack th)
     (m_completed_plan_stack th) v (m_resume_state th)
     (m_temporary_resume_state th) (GetPrivateStopReason th) (calls th).

Definition set_actual_stop_info (si : option StopInfo) (th : t) : t :=
  mk (m_process_wp th) si
     (m_thread_stop_reason_stop_id th) (m_plan_stack th)
     (m_completed_plan_stack th) (m_discarded_plan_stack th)
     (m_resume_state th) (m_temporary_resume_state th)
     (GetPrivateStopReason th) (calls th).

Definition SetTemporaryResumeState (st : StateType) (th : t) : t :=
  mk (m_process_wp th) (m_actual_stop_info_sp th)
     (m_thread_stop_reason_stop_id th) (m_plan_stack th)
     (m_completed_plan_stack th) (m_discarded_plan_stack th)
     (m_resume_state th) st (GetPrivateStopReason th) (calls th).

(** Append one call to the log. *)
Definition call (c : Call) (th : t) : t :=
  mk (m_process_wp th) (m_actual_stop_info_sp th)
     (m_thread_stop_reason_stop_id th) (m_plan_stack th)
     (m_completed_plan_stack th) (m_discarded_plan_stack th)
     (m_resume_state th) (m_temporary_resume_state th)
     (GetPrivateStopReason th) (calls th ++ [c]).

Definition GetResumeState (th : t) : StateType := m_resume_state th.
Definition GetTemporaryResumeState (th : t) : StateType :=
  m_temporary_resume_state th.
Definition GetProcess (th : t) : option Process := m_process_wp th.

(** [(bool) GetPrivateStopReason ()] *)
Definition ThreadStoppedForAReason (th : t) : bool :=
  match GetPrivateStopReason th with Some _ => true | None => false end.

(** *** Plan stack primitives *)

(** [assert (!m_plan_stack.empty()); return m_plan_stack.back().get();] *)
Definition GetCurrentPlan (th : t) : Res ThreadPlan.t :=
  match last (m_plan_stack th) with
  | Some p => Ret p
  | None => Fault
  end.

(** [PushPlan]: a plan without tracer inherits the tracer of the plan on
    top; [back()] of an empty vector is undefined, hence [Fault]. *)
Definition PushPlan (th : t) (plan_sp : option ThreadPlan.t) : Res t :=
  match plan_sp with
  | None => Ret th
  | Some p =>
      do p' <- match ThreadPlan.GetThreadPlanTracer p with
            | Some _ => Ret p
            | None =>
                match last (m_plan_stack th) with
                | Some top =>
                    Ret (ThreadPlan.SetThreadPlanTracer p
                           (ThreadPlan.GetThreadPlanTracer top))
                | None => Fault
                end
            end ;
      Ret (call (CallDidPush (ThreadPlan.addr p'))
             (set_plan_stack (m_plan_stack th ++ [p']) th))
  end.

Definition PopPlan (th : t) : t :=
  if length (m_plan_stack th) <=? 1 then th
  else
    match last (m_plan_stack th) with
    | Some plan =>
        set_plan_stack (removelast (m_plan_stack th))
          (call (CallWillPop (ThreadPlan.addr plan))
             (set_completed_plan_stack
                (m_completed_plan_stack th ++ [plan]) th))
    | None => th
    end.

Definition DiscardPlan (th : t) : t :=
  if 1 <? length (m_plan_stack th) then
    match last (m_plan_stack th) with
    | Some plan =>
        set_plan_stack (removelast (m_plan_stack th))
          (call (CallWillPop (ThreadPlan.addr plan))
             (set_discarded_plan_stack
                (m_discarded_plan_stack th ++ [plan]) th))
    | None => th
    end
  else th.

(** [for (int i = stack_size - 1; i > 0; i--) DiscardPlan();] with [i]
    the loop counter. *)
Fixpoint discard_loop (i : nat) (th : t) : t :=
  match i with
  | 0 => th
  | S j => discard_loop j (DiscardPlan th)
  end.

(** *** History lookups *)

(** The loop of [GetCompletedPlan]; [n] is [i + 1]. *)
Fixpoint GetCompletedPlan_from (v : list ThreadPlan.t) (n : nat)
    : option ThreadPlan.t :=
  match n with
  | 0 => None
  | S i =>
      match v !! i with
      | Some completed_plan_sp =>
          if negb (ThreadPlan.GetPrivate completed_plan_sp)
          then Some completed_plan_sp
          else GetCompletedPlan_from v i
      | None => None
      end
  end.

Definition GetCompletedPlan (th : t) : option ThreadPlan.t :=
  GetCompletedPlan_from (m_completed_plan_stack th)
    (length (m_completed_plan_stack th)).

(** The loop of [GetReturnValueObject]; [n] is [i + 1]. *)
Fixpoint GetReturnValueObject_from (v : list ThreadPlan.t) (n : nat)
    : option nat :=
  match n with
  | 0 => None
  | S i =>
      match v !! i with
      | Some plan =>
          match ThreadPlan.GetReturnValueObject plan with
          | Some return_valobj => Some return_valobj
          | None => GetReturnValueObject_from v i
          end
      | None => None
      end
  end.

Definition GetReturnValueObject (th : t) : option nat :=
  GetReturnValueObject_from (m_completed_plan_stack th)
    (length (m_completed_plan_stack th)).

(** [for (int i = stack_size - 1; i > 0; i--)
       if (current_plan == v[i].get()) return v[i-1].get();] *)
Fixpoint previous_in (v : list ThreadPlan.t) (current_plan : ThreadPlan.t)
    (i : nat) : option ThreadPlan.t :=
  match i with
  | 0 => None
  | S j =>
      match v !! i with
      | Some p =>
          if ThreadPlan.same current_plan p then v !! j
          else previous_in v current_plan j
      | None => previous_in v current_plan j
      end
  end.

Definition GetPreviousPlan (th : t) (current_plan : option ThreadPlan.t)
    : option ThreadPlan.t :=
  match current_plan with
  | None => None
  | Some cur =>
      let completed := m_completed_plan_stack th in
      match previous_in completed cur (length completed - 1) with
      | Some p => Some p
      | None =>
          if match completed !! 0 with
             | Some p => ThreadPlan.same p cur
             | None => false
             end
          then last (m_plan_stack th)
          else previous_in (m_plan_stack th) cur
                 (length (m_plan_stack th) - 1)
      end
  end.

Definition PlanIsBasePlan (th : t) (plan_ptr : ThreadPlan.t) : bool :=
  if ThreadPlan.IsBasePlan plan_ptr then true
  else
    match m_plan_stack th !! 0 with
    | None => false
    | Some base => ThreadPlan.same base plan_ptr
    end.

(** *** The discard family *)

(** First loop of [DiscardThreadPlansUpToPlan]: is the plan on the stack,
    above index 0? *)
Fixpoint find_up_to (v : list ThreadPlan.t) (up_to_plan_ptr : ThreadPlan.t)
    (i : nat) (found_it : bool) : bool :=
  match i with
  | 0 => found_it
  | S j =>
      find_up_to v up_to_plan_ptr j
        match v !! i with
        | Some p => if ThreadPlan.same p up_to_plan_ptr then true
                    else found_it
        | None => found_it
        end
  end.

(** Second loop: [for (i = stack_size - 1; i > 0 && !last_one; i--)]. *)
Fixpoint discard_up_to (i : nat) (last_one : bool)
    (up_to_plan_ptr : ThreadPlan.t) (th : t) : Res t :=
  match i with
  | 0 => Ret th
  | S j =>
      if last_one then Ret th
      else
        do cur <- GetCurrentPlan th ;
        discard_up_to j
          (if ThreadPlan.same cur up_to_plan_ptr then true else last_one)
          up_to_plan_ptr (DiscardPlan th)
  end.

Definition DiscardThreadPlansUpToPlan (th : t)
    (up_to_plan_ptr : option ThreadPlan.t) : Res t :=
  let stack_size := length (m_plan_stack th) in
  match up_to_plan_ptr with
  | None => Ret (discard_loop (stack_size - 1) th)
  | Some up_to =>
      if find_up_to (m_plan_stack th) up_to (stack_size - 1) false
      then discard_up_to (stack_size - 1) false up_to th
      else Ret th
  end.

(** The scan for the first master plan from the top; [n] is
    [master_plan_idx + 1].  The result is the final [master_plan_idx] and the
    value assigned to [discard], if the loop assigned one. *)
Fixpoint find_master_plan (v : list ThreadPlan.t) (n : nat)
    : Z * option bool :=
  match n with
  | 0 => ((-1)%Z, None)
  | S i =>
      match v !! i with
      | Some p =>
          if ThreadPlan.IsMasterPlan p
          then (Z.of_nat i, Some (ThreadPlan.OkayToDiscard p))
          else find_master_plan v i
      | None => find_master_plan v i
      end
  end.

(** One round of the [while (1)] of [DiscardThreadPlans]; [None] is the
    [break].  [bool discard;] is declared without initialiser: when the scan
    finds no master plan the test reads whatever the variable holds, the
    parameter [uninit]. *)
Definition discard_round (uninit : bool) (th : t) : option t :=
  let '(master_plan_idx, assigned) :=
    find_master_plan (m_plan_stack th) (length (m_plan_stack th)) in
  let discard := match assigned with Some b => b | None => uninit end in
  if discard then
    let th1 :=
      discard_loop
        (Z.to_nat (Z.of_nat (length (m_plan_stack th)) - 1 - master_plan_idx))
        th in
    Some (if (0 <? master_plan_idx)%Z then DiscardPlan th1 else th1)
  else None.

Fixpoint discard_rounds (fuel : nat) (uninit : bool) (th : t) : Res t :=
  match fuel with
  | 0 => OutOfFuel
  | S f =>
      match discard_round uninit th with
      | Some th' => discard_rounds f uninit th'
      | None => Ret th
      end
  end.

Definition DiscardThreadPlans (fuel : nat) (uninit : bool) (th : t)
    (force : bool) : Res t :=
  if force then Ret (discard_loop (length (m_plan_stack th) - 1) th)
  else discard_rounds fuel uninit th.

(** *** Queueing *)

(** [DiscardThreadPlans(true)] runs no data-dependent loop and declares no
    [discard]: fuel and [uninit] are immaterial there. *)
Definition QueueThreadPlan (th : t) (thread_plan_sp : option ThreadPlan.t)
    (abort_other_plans : bool) : Res t :=
  do th1 <- (if abort_other_plans then DiscardThreadPlans 0 false th true
             else Ret th) ;
  PushPlan th1 thread_plan_sp.

(** [new_plan] is the [ThreadPlanStepOut] object that the function
    constructs from its arguments.  The result pairs the thread with the
    returned pointer, the object as it sits on the stack. *)
Definition QueueThreadPlanForStepOut (th : t) (abort_other_plans : bool)
    (new_plan : ThreadPlan.t) : Res (t * option ThreadPlan.t) :=
  if ThreadPlan.ValidatePlan new_plan then
    do th' <- QueueThreadPlan th (Some new_plan) abort_other_plans ;
    Ret (th', last (m_plan_stack th'))
  else Ret (th, None).

(** [new_plan] is the result of [new ThreadPlanStepThrough (...)], tested
    against NULL by the function. *)
Definition QueueThreadPlanForStepThrough (th : t)
    (abort_other_plans : bool) (new_plan : option ThreadPlan.t)
    : Res (t * option ThreadPlan.t) :=
  match new_plan with
  | None => Ret (th, None)
  | Some p =>
      if negb (ThreadPlan.ValidatePlan p) then Ret (th, None)
      else
        do th' <- QueueThreadPlan th (Some p) abort_other_plans ;
        Ret (th', last (m_plan_stack th'))
  end.

(** *** GetStopInfo *)

(** The [else] branch of [GetStopInfo]. *)
Definition actual_or_private_stop_info (th : t) : option StopInfo :=
  match GetProcess th, m_actual_stop_info_sp th with
  | Some process_sp, Some si =>
      if IsValid si
         && (m_thread_stop_reason_stop_id th =? GetStopID process_sp)%N
      then Some si
      else GetPrivateStopReason th
  | _, _ => GetPrivateStopReason th
  end.

Definition GetStopInfo (th : t) : option StopInfo :=
  match GetCompletedPlan th with
  | Some plan_sp =>
      if ThreadPlan.PlanSucceeded plan_sp
      then Some (CreateStopReasonWithPlan plan_sp (GetReturnValueObject th))
      else actual_or_private_stop_info th
  | None => actual_or_private_stop_info th
  end.

(** *** WillResume *)

(** [while ((plan_ptr = GetPreviousPlan(plan_ptr)) != NULL)
       plan_ptr->WillResume (resume_state, false);] *)
Fixpoint WillResume_lower (fuel : nat) (th : t) (resume_state : StateType)
    (plan_ptr : ThreadPlan.t) : Res t :=
  match fuel with
  | 0 => OutOfFuel
  | S f =>
      match GetPreviousPlan th (Some plan_ptr) with
      | None => Ret th
      | Some prev =>
          WillResume_lower f
            (call (CallWillResume (ThreadPlan.addr prev) resume_state false)
               th)
            resume_state prev
      end
  end.

Definition WillResume (fuel : nat) (th : t) (resume_state : StateType)
    : Res (t * bool) :=
  let th := set_completed_plan_stack [] th in
  let th := set_discarded_plan_stack [] th in
  let th := SetTemporaryResumeState resume_state th in
  do process <- match GetProcess th with
                | Some p => Ret p
                | None => Fault
                end ;
  let process_stop_id := GetStopID process in
  let th :=
    if (m_thread_stop_reason_stop_id th =? process_stop_id)%N
       && match m_actual_stop_info_sp th with
          | Some si => IsValid si
          | None => false
          end
    then
      match GetPrivateStopReason th with
      | Some _ => call (CallStopInfoWillResume resume_state) th
      | None => th
      end
    else th in
  do plan_ptr <- GetCurrentPlan th ;
  let need_to_resume := ThreadPlan.WillResume plan_ptr resume_state true in
  let th :=
    call (CallWillResume (ThreadPlan.addr plan_ptr) resume_state true) th in
  do th <- WillResume_lower fuel th resume_state plan_ptr ;
  let th := if need_to_resume then set_actual_stop_info None th else th in
  Ret (th, need_to_resume).

(** *** ShouldStop *)

(** [do { if (should_stop) current_plan->WillStop(); PopPlan(); }
     while ((current_plan = GetCurrentPlan()) != prev_plan_ptr);]
    The result carries the final value of [current_plan]. *)
Fixpoint pop_through (fuel : nat) (th : t) (current_plan : ThreadPlan.t)
    (should_stop : bool) (prev_plan_ptr : option ThreadPlan.t)
    : Res (t * ThreadPlan.t) :=
  match fuel with
  | 0 => OutOfFuel
  | S f =>
      let th :=
        if should_stop
        then call (CallWillStop (ThreadPlan.addr current_plan)) th
        else th in
      let th := PopPlan th in
      do current_plan <- GetCurrentPlan th ;
      if ThreadPlan.same_ptr (Some current_plan) prev_plan_ptr
      then Ret (th, current_plan)
      else pop_through f th current_plan should_stop prev_plan_ptr
  end.

(** The downward scan for a plan that explains the stop.  The result is
    the thread, [current_plan], [should_stop] and
    [done_processing_current_plan]. *)
Fixpoint scan_previous (fuel pop_fuel : nat) (th : t)
    (current_plan plan_ptr : ThreadPlan.t) (should_stop : bool)
    : Res (t * ThreadPlan.t * bool * bool) :=
  match fuel with
  | 0 => OutOfFuel
  | S f =>
      match GetPreviousPlan th (Some plan_ptr) with
      | None => Ret (th, current_plan, should_stop, false)
      | Some plan_ptr =>
          if ThreadPlan.PlanExplainsStop plan_ptr then
            let should_stop := ThreadPlan.ShouldStop plan_ptr in
            if ThreadPlan.MischiefManaged plan_ptr then
              let prev_plan_ptr := GetPreviousPlan th (Some plan_ptr) in
              do '(th, current_plan) <-
                pop_through pop_fuel th current_plan should_stop
                  prev_plan_ptr ;
              if ThreadPlan.IsMasterPlan plan_ptr
                 && negb (ThreadPlan.OkayToDiscard plan_ptr)
              then Ret (th, current_plan, should_stop, true)
              else Ret (th, current_plan, should_stop, false)
            else Ret (th, current_plan, should_stop, true)
          else scan_previous f pop_fuel th current_plan plan_ptr should_stop
      end
  end.

(** The [while (1)] over the top plan.  The result is the thread,
    [current_plan] and [should_stop]. *)
Fixpoint top_plan_loop (fuel : nat) (th : t) (current_plan : ThreadPlan.t)
    (should_stop : bool) : Res (t * ThreadPlan.t * bool) :=
  match fuel with
  | 0 => OutOfFuel
  | S f =>
      if PlanIsBasePlan th current_plan
      then Ret (th, current_plan, should_stop)
      else
        let should_stop := ThreadPlan.ShouldStop current_plan in
        if ThreadPlan.MischiefManaged current_plan then
          let th :=
            if should_stop
            then call (CallWillStop (ThreadPlan.addr current_plan)) th
            else th in
          if should_stop && ThreadPlan.IsMasterPlan current_plan
             && negb (ThreadPlan.OkayToDiscard current_plan)
          then Ret (PopPlan th, current_plan, should_stop)
          else
            let th := PopPlan th in
            do current_plan <- GetCurrentPlan th ;
            top_plan_loop f th current_plan should_stop
        else Ret (th, current_plan, should_stop)
  end.

(** The sweep of stale plans; [PlanIsBasePlan] dereferences [plan_ptr]. *)
Fixpoint stale_sweep (fuel : nat) (th : t) (plan_ptr : option ThreadPlan.t)
    : Res t :=
  match fuel with
  | 0 => OutOfFuel
  | S f =>
      match plan_ptr with
      | None => Fault
      | Some p =>
          if PlanIsBasePlan th p then Ret th
          else
            let stale := ThreadPlan.IsPlanStale p in
            let examined_plan := p in
            let plan_ptr := GetPreviousPlan th (Some examined_plan) in
            do th <- (if stale
                      then DiscardThreadPlansUpToPlan th (Some examined_plan)
                      else Ret th) ;
            stale_sweep f th plan_ptr
      end
  end.

(** Lines 455-505: which plan explains the stop. *)
Definition explain_stop (fuel : nat) (th : t) (current_plan : ThreadPlan.t)
    : Res (t * ThreadPlan.t * bool * bool) :=
  if negb (ThreadPlan.PlanExplainsStop current_plan) then
    if ThreadPlan.TracerExplainsStop current_plan
    then Ret (th, current_plan, false, true)
    else scan_previous fuel fuel th current_plan current_plan true
  else Ret (th, current_plan, true, false).

(** Lines 507-591: the verdict of the plans on top and the stale sweep. *)
Definition process_current_plan (fuel : nat) (th : t)
    (current_plan : ThreadPlan.t) (should_stop : bool) : Res (t * bool) :=
  let over_ride_stop := ThreadPlan.ShouldAutoContinue current_plan in
  do '(th, current_plan, should_stop) <-
    (if PlanIsBasePlan th current_plan
     then Ret (th, current_plan, ThreadPlan.ShouldStop current_plan)
     else top_plan_loop fuel th current_plan should_stop) ;
  let should_stop := if over_ride_stop then false else should_stop in
  if should_stop then
    do plan_ptr <- GetCurrentPlan th ;
    do th <- stale_sweep fuel th (Some plan_ptr) ;
    Ret (th, should_stop)
  else Ret (th, should_stop).

(** [ShouldStop]; the stack frame list, whose inlined depth is adjusted
    before the plans are asked, is not part of the state. *)
Definition ShouldStop (fuel : nat) (th : t) : Res (t * bool) :=
  do current_plan <- GetCurrentPlan th ;
  if bool_decide (GetResumeState th = eStateSuspended) then Ret (th, false)
  else if bool_decide (GetTemporaryResumeState th = eStateSuspended)
  then Ret (th, false)
  else if negb (ThreadStoppedForAReason th) then Ret (th, false)
  else
    let th := call (CallDoTraceLog (ThreadPlan.addr current_plan)) th in
    if match GetPrivateStopReason th with
       | Some private_stop_info => negb (ShouldStopSynchronous private_stop_info)
       | None => false
       end
    then Ret (th, false)
    else
      do '(th, current_plan, should_stop, done_processing_current_plan) <-
        explain_stop fuel th current_plan ;
      if negb done_processing_current_plan
      then process_current_plan fuel th current_plan should_stop
      else Ret (th, should_stop).

(** *** Votes *)

Definition ShouldReportStop (th : t) : Res Vote :=
  let thread_state := GetResumeState th in
  let temp_thread_state := GetTemporaryResumeState th in
  if bool_decide (thread_state = eStateSuspended)
     || bool_decide (thread_state = eStateInvalid)
  then Ret eVoteNoOpinion
  else if bool_decide (temp_thread_state = eStateSuspended)
          || bool_decide (temp_thread_state = eStateInvalid)
  then Ret eVoteNoOpinion
  else if negb (ThreadStoppedForAReason th) then Ret eVoteNoOpinion
  else if 0 <? length (m_completed_plan_stack th) then
    match last (m_completed_plan_stack th) with
    | Some p => Ret (ThreadPlan.ShouldReportStop p)
    | None => Fault
    end
  else
    do p <- GetCurrentPlan th ;
    Ret (ThreadPlan.ShouldReportStop p).

Definition ShouldReportRun (th : t) : Res Vote :=
  let thread_state := GetResumeState th in
  if bool_decide (thread_state = eStateSuspended)
     || bool_decide (thread_state = eStateInvalid)
  then Ret eVoteNoOpinion
  else if 0 <? length (m_completed_plan_stack th) then
    match last (m_completed_plan_stack th) with
    | Some p => Ret (ThreadPlan.ShouldReportRun p)
    | None => Fault
    end
  else
    do p <- GetCurrentPlan th ;
    Ret (ThreadPlan.ShouldReportRun p).

End Thread.

(** ** Sample plans and threads *)

Module Sample.

(** A plan at address [a]; the flags are, in this order, [IsBasePlan],
    [IsMasterPlan], [OkayToDiscard], [GetPrivate], [PlanExplainsStop],
    [ShouldStop] and [MischiefManaged].  The plan validates, is not stale,
    succeeded if it is done, has no opinion on reports and asks for a real
    resume. *)
Definition plan (a : nat)
    (is_base master okay_to_discard private explains stop done : bool)
    (return_valobj : option nat) : ThreadPlan.t :=
  {| ThreadPlan.addr := a;
     ThreadPlan.IsBasePlan := is_base;
     ThreadPlan.IsMasterPlan := master;
     ThreadPlan.OkayToDiscard := okay_to_discard;
     ThreadPlan.GetPrivate := private;
     ThreadPlan.ValidatePlan := true;
     ThreadPlan.PlanExplainsStop := explains;
     ThreadPlan.TracerExplainsStop := false;
     ThreadPlan.ShouldStop := stop;
     ThreadPlan.ShouldAutoContinue := false;
     ThreadPlan.MischiefManaged := done;
     ThreadPlan.IsPlanStale := false;
     ThreadPlan.PlanSucceeded := done;
     ThreadPlan.GetReturnValueObject := return_valobj;
     ThreadPlan.ShouldReportStop := eVoteNoOpinion;
     ThreadPlan.ShouldReportRun := eVoteNoOpinion;
     ThreadPlan.WillResume := fun _ _ => true;
     ThreadPlan.GetThreadPlanTracer := Some 0 |}.

(** The fundamental plan at the bottom of a stack: a master plan that
    explains every stop, is never done and is not to be discarded. *)
Definition base : ThreadPlan.t :=
  plan 100 true true false false true true false None.

(** A fundamental plan whose verdict is not to stop. *)
Definition quiet_base : ThreadPlan.t :=
  plan 100 true true false false true false false None.

(** Step plans that do not explain the stop. *)
Definition step_a : ThreadPlan.t :=
  plan 101 false false true false false false false None.
Definition step_b : ThreadPlan.t :=
  plan 102 false false true true false false false None.

(** A step plan that explains the stop, wants to stop and is done. *)
Definition step_done : ThreadPlan.t :=
  plan 103 false false true false true true true None.

(** A master plan, not okay to discard, that explains the stop, wants to
    stop and is done. *)
Definition master_done : ThreadPlan.t :=
  plan 104 false true false false true true true (Some 7).

(** A private plan that is done and carries a return value object. *)
Definition private_done : ThreadPlan.t :=
  plan 105 false false true true true true true (Some 9).

(** A plan whose [ValidatePlan] fails. *)
Definition invalid : ThreadPlan.t :=
  {| ThreadPlan.addr := 106;
     ThreadPlan.IsBasePlan := false;
     ThreadPlan.IsMasterPlan := true;
     ThreadPlan.OkayToDiscard := true;
     ThreadPlan.GetPrivate := false;
     ThreadPlan.ValidatePlan := false;
     ThreadPlan.PlanExplainsStop := false;
     ThreadPlan.TracerExplainsStop := false;
     ThreadPlan.ShouldStop := false;
     ThreadPlan.ShouldAutoContinue := false;
     ThreadPlan.MischiefManaged := false;
     ThreadPlan.IsPlanStale := false;
     ThreadPlan.PlanSucceeded := false;
     ThreadPlan.GetReturnValueObject := None;
     ThreadPlan.ShouldReportStop := eVoteNoOpinion;
     ThreadPlan.ShouldReportRun := eVoteNoOpinion;
     ThreadPlan.WillResume := fun _ _ => true;
     ThreadPlan.GetThreadPlanTracer := None |}.

(** A plan that fakes the resume and votes for reporting. *)
Definition faking : ThreadPlan.t :=
  {| ThreadPlan.addr := 107;
     ThreadPlan.IsBasePlan := false;
     ThreadPlan.IsMasterPlan := false;
     ThreadPlan.OkayToDiscard := true;
     ThreadPlan.GetPrivate := false;
     ThreadPlan.ValidatePlan := true;
     ThreadPlan.PlanExplainsStop := true;
     ThreadPlan.TracerExplainsStop := false;
     ThreadPlan.ShouldStop := true;
     ThreadPlan.ShouldAutoContinue := false;
     ThreadPlan.MischiefManaged := false;
     ThreadPlan.IsPlanStale := false;
     ThreadPlan.PlanSucceeded := false;
     ThreadPlan.GetReturnValueObject := None;
     ThreadPlan.ShouldReportStop := eVoteYes;
     ThreadPlan.ShouldReportRun := eVoteYes;
     ThreadPlan.WillResume := fun _ _ => false;
     ThreadPlan.GetThreadPlanTracer := Some 0 |}.

(** A valid stop reason recorded at stop id 4. *)
Definition breakpoint_hit : StopInfo :=
  mkStopInfo (StopReasonOther 1) true true.

(** A stopped thread of a process at stop id 4, with the given vectors. *)
Definition thread (stack completed discarded : list ThreadPlan.t)
    : Thread.t :=
  {| Thread.m_process_wp := Some (mkProcess 4);
     Thread.m_actual_stop_info_sp := Some breakpoint_hit;
     Thread.m_thread_stop_reason_stop_id := 4;
     Thread.m_plan_stack := stack;
     Thread.m_completed_plan_stack := completed;
     Thread.m_discarded_plan_stack := discarded;
     Thread.m_resume_state := eStateRunning;
     Thread.m_temporary_resume_state := eStateRunning;
     Thread.GetPrivateStopReason := Some breakpoint_hit;
     Thread.calls := [] |}.

(** The same thread, held back for the next resume only. *)
Definition held_back (stack : list ThreadPlan.t) : Thread.t :=
  Thread.SetTemporaryResumeState eStateSuspended (thread stack [] []).

End Sample.

Import Thread.

(** ** More member functions of Thread *)

(** The loop shared, word for word, by [IsThreadPlanDone] over the completed
    history and [WasThreadPlanDiscarded] over the discarded history:
    [for (int i = v.size() - 1; i >= 0; i--) if (v[i].get() == plan) return
    true;]; [n] is [i + 1].  No entry of a vector is NULL, so that a NULL
    [plan] equals none. *)
Fixpoint holds_plan_from (v : list ThreadPlan.t) (plan : option ThreadPlan.t)
    (n : nat) : bool :=
  match n with
  | 0 => false
  | S i =>
      match v !! i with
      | Some p =>
          if ThreadPlan.same_ptr (Some p) plan then true
          else holds_plan_from v plan i
      | None => holds_plan_from v plan i
      end
  end.

Definition IsThreadPlanDone (th : Thread.t) (plan : option ThreadPlan.t)
    : bool :=
  holds_plan_from (m_completed_plan_stack th) plan
    (length (m_completed_plan_stack th)).

Definition WasThreadPlanDiscarded (th : Thread.t)
    (plan : option ThreadPlan.t) : bool :=
  holds_plan_from (m_discarded_plan_stack th) plan
    (length (m_discarded_plan_stack th)).

(** Modelled from the spec: [StopInfo::MakeStopInfoValid] is defined in
    StopInfo.cpp, which is not among the sources at hand; it sets the
    validity flag of the stop info. *)
Definition MakeStopInfoValid (si : StopInfo) : StopInfo :=
  mkStopInfo (GetStopReason si) true (ShouldStopSynchronous si).

Definition UINT32_MAX : N := 4294967295%N.

Definition set_thread_stop_reason_stop_id (id : N) (th : Thread.t)
    : Thread.t :=
  Thread.mk (m_process_wp th) (m_actual_stop_info_sp th) id
    (m_plan_stack th) (m_completed_plan_stack th)
    (m_discarded_plan_stack th) (m_resume_state th)
    (m_temporary_resume_state th) (GetPrivateStopReason th) (calls th).

(** [SetStopInfo]: the stop info object that the thread now shares with the
    caller is made valid. *)
Definition SetStopInfo (th : Thread.t) (stop_info_sp : option StopInfo)
    : Thread.t :=
  let th :=
    set_actual_stop_info
      match stop_info_sp with
      | Some si => Some (MakeStopInfoValid si)
      | None => None
      end th in
  match GetProcess th with
  | Some process_sp =>
      set_thread_stop_reason_stop_id (GetStopID process_sp) th
  | None => set_thread_stop_reason_stop_id UINT32_MAX th
  end.

(** [for (int i = 0; i < stack_size; i++)
       m_plan_stack[i]->SetThreadPlanTracer(tracer_sp);]
    with [i] the index and [remaining] the rounds left. *)
Fixpoint SetTracer_loop (remaining i : nat) (tracer_sp : option nat)
    (v : list ThreadPlan.t) : list ThreadPlan.t :=
  match remaining with
  | 0 => v
  | S r =>
      SetTracer_loop r (S i) tracer_sp
        match v !! i with
        | Some p => <[i := ThreadPlan.SetThreadPlanTracer p tracer_sp]> v
        | None => v
        end
  end.

Definition SetTracer (th : Thread.t) (tracer_sp : option nat) : Thread.t :=
  set_plan_stack
    (SetTracer_loop (length (m_plan_stack th)) 0 tracer_sp (m_plan_stack th))
    th.

(** *** The cache of stack frame lists *)

Module Frames.

(** A stack frame list object: its address, and whether all its frames have
    been fetched. *)
Record StackFrameList : Type := mkStackFrameList {
  list_addr : nat;
  GetAllFramesFetched : bool
}.

(** The two members of the thread that hold frame lists. *)
Record t : Type := mk {
  m_curr_frames_sp : option StackFrameList;
  m_prev_frames_sp : option StackFrameList
}.

(** [construct] stands for the constructor of [StackFrameList], which is
    given the thread and [m_prev_frames_sp]. *)
Definition GetStackFrameList
    (construct : option StackFrameList -> StackFrameList) (fr : t)
    : t * StackFrameList :=
  match m_curr_frames_sp fr with
  | Some frame_list_sp => (fr, frame_list_sp)
  | None =>
      let frame_list_sp := construct (m_prev_frames_sp fr) in
      (mk (Some frame_list_sp) (m_prev_frames_sp fr), frame_list_sp)
  end.

(** [if (curr && curr->GetAllFramesFetched()) prev.swap (curr);
     curr.reset();] *)
Definition ClearStackFrames (fr : t) : t :=
  let fr :=
    match m_curr_frames_sp fr with
    | Some curr =>
        if GetAllFramesFetched curr
        then mk (m_prev_frames_sp fr) (m_curr_frames_sp fr)
        else fr
    | None => fr
    end in
  mk None (m_prev_frames_sp fr).

End Frames.

(** * Properties *)

(** ** Vectors: [back] and [pop_back] *)

Lemma snoc_cases {A : Type} (l : list A) :
  l = [] \/ exists k x, l = k ++ [x].
Proof.
  induction l as [|x l _] using rev_ind; [now left|].
  right. now exists l, x.
Qed.

Lemma last_snoc' {A : Type} (k : list A) (x : A) : last (k ++ [x]) = Some x.
Proof. apply last_snoc. Qed.

Lemma snoc_length_gt1 {A : Type} (k : list A) (x : A) :
  k <> [] -> (length (k ++ [x]) <=? 1) = false.
Proof.
  intros Hk. apply Nat.leb_gt. rewrite length_app. simpl.
  destruct k; [congruence|simpl; lia].
Qed.

(** ** PopPlan and DiscardPlan *)

Lemma PopPlan_base (th : Thread.t) :
  length (m_plan_stack th) <= 1 -> PopPlan th = th.
Proof.
  intros H. unfold PopPlan.
  now apply Nat.leb_le in H as ->.
Qed.

Lemma DiscardPlan_base (th : Thread.t) :
  length (m_plan_stack th) <= 1 -> DiscardPlan th = th.
Proof.
  intros H. unfold DiscardPlan.
  replace (1 <? length (m_plan_stack th)) with false; [reflexivity|].
  symmetry. apply Nat.ltb_ge. exact H.
Qed.

Lemma PopPlan_snoc pr si id keep p c d rs ts gp cl :
  keep <> [] ->
  PopPlan (Thread.mk pr si id (keep ++ [p]) c d rs ts gp cl)
  = Thread.mk pr si id keep (c ++ [p]) d rs ts gp
      (cl ++ [CallWillPop (ThreadPlan.addr p)]).
Proof.
  intros Hk. unfold PopPlan. simpl.
  rewrite (snoc_length_gt1 keep p Hk), last_snoc'.
  unfold set_plan_stack, call, set_completed_plan_stack. simpl.
  now rewrite removelast_last.
Qed.

Lemma DiscardPlan_snoc pr si id keep p c d rs ts gp cl :
  keep <> [] ->
  DiscardPlan (Thread.mk pr si id (keep ++ [p]) c d rs ts gp cl)
  = Thread.mk pr si id keep c (d ++ [p]) rs ts gp
      (cl ++ [CallWillPop (ThreadPlan.addr p)]).
Proof.
  intros Hk. unfold DiscardPlan. simpl.
  pose proof (snoc_length_gt1 keep p Hk) as Hlen.
  apply Nat.leb_gt in Hlen. apply Nat.ltb_lt in Hlen. rewrite Hlen.
  rewrite last_snoc'.
  unfold set_plan_stack, call, set_discarded_plan_stack. simpl.
  now rewrite removelast_last.
Qed.

(** The hooks called when the plans [popped] (bottom first) leave the stack
    from the top. *)
Definition will_pop_calls (popped : list ThreadPlan.t) : list Call :=
  map (fun p => CallWillPop (ThreadPlan.addr p)) (rev popped).



Lemma discard_loop_app pr si id keep popped c d rs ts gp cl :
  keep <> [] ->
  discard_loop (length popped)
    (Thread.mk pr si id (keep ++ popped) c d rs ts gp cl)
  = Thread.mk pr si id keep c (d ++ rev popped) rs ts gp
      (cl ++ will_pop_calls popped).
Proof.
  intros Hk. revert d cl.
  induction popped as [|x popped IH] using rev_ind; intros d cl.
  - simpl. unfold will_pop_calls. simpl. now rewrite !app_nil_r.
  - rewrite length_app, Nat.add_comm. simpl.
    rewrite app_assoc, DiscardPlan_snoc.
    + rewrite IH. unfold will_pop_calls.
      rewrite rev_unit. simpl. now rewrite <- !app_assoc.
    + destruct keep; [congruence|discriminate].
Qed.

(** ** The base plan is protected *)

(** [th'] keeps a non-empty initial segment of the plan stack of [th]. *)
Definition shrinks_to (th th' : Thread.t) : Prop :=
  m_plan_stack th' `prefix_of` m_plan_stack th /\ m_plan_stack th' <> [].

(** What the invariant says of the outcome [th'] of a call made on [th]. *)
Definition base_kept (th th' : Thread.t) : Prop :=
  1 <= length (m_plan_stack th')
  /\ m_plan_stack th' !! 0 = m_plan_stack th !! 0.

Lemma shrinks_to_refl (th : Thread.t) :
  m_plan_stack th <> [] -> shrinks_to th th.
Proof. intros H. split; [reflexivity|exact H]. Qed.

Lemma shrinks_to_trans (a b c : Thread.t) :
  shrinks_to a b -> shrinks_to b c -> shrinks_to a c.
Proof.
  intros [Hab _] [Hbc Hc]. split; [|exact Hc].
  now transitivity (m_plan_stack b).
Qed.

Lemma shrinks_to_base_kept (th th' : Thread.t) :
  shrinks_to th th' -> base_kept th th'.
Proof.
  intros [[k Hk] Hne]. unfold base_kept. rewrite Hk.
  destruct (m_plan_stack th') as [|b rest]; [congruence|].
  simpl. split; [lia|reflexivity].
Qed.

Lemma PopPlan_shrinks (th : Thread.t) :
  m_plan_stack th <> [] -> shrinks_to th (PopPlan th).
Proof.
  intros Hne. destruct th as [pr si id v c d rs ts gp cl]. simpl in Hne.
  destruct (snoc_cases v) as [->|(k & x & ->)]; [congruence|].
  destruct k as [|b k].
  - rewrite PopPlan_base by (simpl; lia). now apply shrinks_to_refl.
  - rewrite PopPlan_snoc by discriminate.
    split; simpl; [|discriminate].
    now apply prefix_cons, prefix_app_r.
Qed.

Lemma DiscardPlan_shrinks (th : Thread.t) :
  m_plan_stack th <> [] -> shrinks_to th (DiscardPlan th).
Proof.
  intros Hne. destruct th as [pr si id v c d rs ts gp cl]. simpl in Hne.
  destruct (snoc_cases v) as [->|(k & x & ->)]; [congruence|].
  destruct k as [|b k].
  - rewrite DiscardPlan_base by (simpl; lia). now apply shrinks_to_refl.
  - rewrite DiscardPlan_snoc by discriminate.
    split; simpl; [|discriminate].
    now apply prefix_cons, prefix_app_r.
Qed.

Lemma discard_loop_shrinks (n : nat) (th : Thread.t) :
  m_plan_stack th <> [] -> shrinks_to th (discard_loop n th).
Proof.
  revert th. induction n as [|n IH]; intros th Hne; simpl.
  - now apply shrinks_to_refl.
  - pose proof (DiscardPlan_shrinks th Hne) as H1.
    eapply shrinks_to_trans; [exact H1|]. apply IH, H1.
Qed.

Lemma GetCurrentPlan_nonempty (th : Thread.t) :
  m_plan_stack th <> [] -> exists p, GetCurrentPlan th = Ret p.
Proof.
  intros Hne. unfold GetCurrentPlan.
  destruct (snoc_cases (m_plan_stack th)) as [H|(k & x & ->)]; [congruence|].
  exists x. now rewrite last_snoc'.
Qed.

Lemma discard_up_to_shrinks (i : nat) (last_one : bool)
    (up_to : ThreadPlan.t) (th : Thread.t) :
  m_plan_stack th <> [] ->
  exists th', discard_up_to i last_one up_to th = Ret th' /\ shrinks_to th th'.
Proof.
  revert last_one th. induction i as [|i IH]; intros last_one th Hne; simpl.
  - exists th. split; [reflexivity|now apply shrinks_to_refl].
  - destruct last_one.
    + exists th. split; [reflexivity|now apply shrinks_to_refl].
    + destruct (GetCurrentPlan_nonempty th Hne) as [cur ->]. simpl.
      pose proof (DiscardPlan_shrinks th Hne) as H1.
      destruct (IH (if ThreadPlan.same cur up_to then true else false)
                  (DiscardPlan th) (proj2 H1)) as (th' & Heq & Hsh).
      exists th'. split; [exact Heq|].
      eapply shrinks_to_trans; eassumption.
Qed.

Lemma DiscardThreadPlansUpToPlan_shrinks (th : Thread.t)
    (up_to_plan_ptr : option ThreadPlan.t) :
  m_plan_stack th <> [] ->
  exists th',
    DiscardThreadPlansUpToPlan th up_to_plan_ptr = Ret th' /\ shrinks_to th th'.
Proof.
  intros Hne. unfold DiscardThreadPlansUpToPlan.
  destruct up_to_plan_ptr as [up_to|].
  - destruct (find_up_to _ _ _ _).
    + now apply discard_up_to_shrinks.
    + exists th. split; [reflexivity|now apply shrinks_to_refl].
  - eexists. split; [reflexivity|]. now apply discard_loop_shrinks.
Qed.

Lemma discard_round_shrinks (uninit : bool) (th th' : Thread.t) :
  m_plan_stack th <> [] ->
  discard_round uninit th = Some th' -> shrinks_to th th'.
Proof.
  intros Hne. unfold discard_round.
  destruct (find_master_plan _ _) as [idx assigned].
  destruct (match assigned with Some b => b | None => uninit end);
    [|discriminate].
  intros [= <-].
  set (n := Z.to_nat _).
  pose proof (discard_loop_shrinks n th Hne) as H1.
  destruct (0 <? idx)%Z; [|exact H1].
  eapply shrinks_to_trans; [exact H1|].
  apply DiscardPlan_shrinks, H1.
Qed.

Lemma discard_rounds_shrinks (fuel : nat) (uninit : bool)
    (th th' : Thread.t) :
  m_plan_stack th <> [] ->
  discard_rounds fuel uninit th = Ret th' -> shrinks_to th th'.
Proof.
  revert th. induction fuel as [|fuel IH]; intros th Hne; simpl;
    [discriminate|].
  destruct (discard_round uninit th) as [th1|] eqn:Hround.
  - intros Hrest.
    pose proof (discard_round_shrinks _ _ _ Hne Hround) as H1.
    eapply shrinks_to_trans; [exact H1|]. now apply IH; [apply H1|].
  - intros [= <-]. now apply shrinks_to_refl.
Qed.

(** C1.  On a thread whose plan stack holds at least the base plan, the
    outcome of [PopPlan], of [DiscardPlan], of [DiscardThreadPlansUpToPlan]
    (for any target, NULL included) and of [DiscardThreadPlans] (forced or
    not, after any single round of its loop as well) has a plan stack of
    size at least 1 with the same plan at index 0; the first three and the
    forced discard always return.  [PopPlan] on a stack of exactly one
    element leaves the whole thread, hence the stack size and both histories,
    as it was. *)
Theorem base_plan_never_removed (th : Thread.t) :
  1 <= length (m_plan_stack th) ->
  base_kept th (PopPlan th)
  /\ base_kept th (DiscardPlan th)
  /\ (forall up_to_plan_ptr, exists th',
        DiscardThreadPlansUpToPlan th up_to_plan_ptr = Ret th'
        /\ base_kept th th')
  /\ (forall fuel uninit, exists th',
        DiscardThreadPlans fuel uninit th true = Ret th' /\ base_kept th th')
  /\ (forall fuel uninit th',
        DiscardThreadPlans fuel uninit th false = Ret th' -> base_kept th th')
  /\ (forall uninit th',
        discard_round uninit th = Some th' -> base_kept th th')
  /\ (length (m_plan_stack th) = 1 -> PopPlan th = th).
Proof.
  intros Hlen.
  assert (Hne : m_plan_stack th <> []).
  { destruct (m_plan_stack th); [simpl in Hlen; lia|discriminate]. }
  split_and!.
  - apply shrinks_to_base_kept, PopPlan_shrinks, Hne.
  - apply shrinks_to_base_kept, DiscardPlan_shrinks, Hne.
  - intros up.
    destruct (DiscardThreadPlansUpToPlan_shrinks th up Hne) as (th' & E & S).
    exists th'. split; [exact E|]. now apply shrinks_to_base_kept.
  - intros fuel uninit. eexists. split; [reflexivity|].
    apply shrinks_to_base_kept, discard_loop_shrinks, Hne.
  - intros fuel uninit th' H. simpl in H.
    apply shrinks_to_base_kept. eapply discard_rounds_shrinks; eassumption.
  - intros uninit th' H.
    apply shrinks_to_base_kept. eapply discard_round_shrinks; eassumption.
  - intros H1. apply PopPlan_base. lia.
Qed.

(** ** Forced discard *)

(** The plan pointer [p] is held by the vector [v]. *)
Definition on_stack (p : ThreadPlan.t) (v : list ThreadPlan.t) : Prop :=
  In (ThreadPlan.addr p) (map ThreadPlan.addr v).

Lemma In_on_stack (p : ThreadPlan.t) (v : list ThreadPlan.t) :
  In p v -> on_stack p v.
Proof. apply in_map. Qed.

Lemma discard_loop_all pr si id base rest c d rs ts gp cl :
  discard_loop (length (base :: rest) - 1)
    (Thread.mk pr si id (base :: rest) c d rs ts gp cl)
  = Thread.mk pr si id [base] c (d ++ rev rest) rs ts gp
      (cl ++ will_pop_calls rest).
Proof.
  simpl length. rewrite Nat.sub_succ, Nat.sub_0_r.
  change (base :: rest) with ([base] ++ rest).
  now apply discard_loop_app.
Qed.

(** C8.  On a thread whose plan stack is [base :: rest],
    [DiscardThreadPlans(true)] returns with the plan stack [[base]]; every
    plan of [rest] is in the discarded history, which grew by [rest] from the
    top down; the completed history is untouched, so that no plan of [rest]
    is in it (active plans are not in the completed history when the call is
    made). *)
Theorem forced_discard_leaves_base (fuel : nat) (uninit : bool)
    (th : Thread.t) (base : ThreadPlan.t) (rest : list ThreadPlan.t) :
  m_plan_stack th = base :: rest ->
  (forall p, In p rest -> ~ on_stack p (m_completed_plan_stack th)) ->
  exists th',
    DiscardThreadPlans fuel uninit th true = Ret th'
    /\ m_plan_stack th' = [base]
    /\ length (m_plan_stack th') = 1
    /\ (forall p, In p rest -> on_stack p (m_discarded_plan_stack th'))
    /\ (forall p, In p rest -> ~ on_stack p (m_completed_plan_stack th'))
    /\ m_discarded_plan_stack th' = m_discarded_plan_stack th ++ rev rest
    /\ m_completed_plan_stack th' = m_completed_plan_stack th.
Proof.
  intros Hstack Hfresh.
  destruct th as [pr si id v c d rs ts gp cl]. simpl in *. subst v.
  eexists. split.
  - unfold DiscardThreadPlans. cbn [m_plan_stack].
    rewrite discard_loop_all. reflexivity.
  - simpl. split_and!; try reflexivity.
    + intros p Hp. apply In_on_stack, in_or_app. right.
      now apply in_rev in Hp.
    + exact Hfresh.
Qed.

(** ** Discarding up to a plan that is not on the stack *)

Lemma find_up_to_absent (v : list ThreadPlan.t) (up_to : ThreadPlan.t)
    (i : nat) :
  ~ on_stack up_to v -> find_up_to v up_to i false = false.
Proof.
  intros Habs. induction i as [|i IH]; simpl; [reflexivity|].
  destruct (v !! S i) as [p|] eqn:Hp; [|exact IH].
  replace (ThreadPlan.same p up_to) with false; [exact IH|].
  symmetry. apply Nat.eqb_neq. intros Heq. apply Habs.
  unfold on_stack. rewrite <- Heq. apply in_map.
  apply list_elem_of_In. eapply list_elem_of_lookup_2, Hp.
Qed.

(** C10.  When the target is a non-NULL plan pointer that the active plan
    stack does not hold, [DiscardThreadPlansUpToPlan] returns the thread as
    it received it: plan stack, completed history, discarded history and
    every other field. *)
Theorem DiscardThreadPlansUpToPlan_absent (th : Thread.t)
    (target : ThreadPlan.t) :
  ~ on_stack target (m_plan_stack th) ->
  DiscardThreadPlansUpToPlan th (Some target) = Ret th.
Proof.
  intros Habs. unfold DiscardThreadPlansUpToPlan.
  now rewrite find_up_to_absent.
Qed.

(** ** Plans that fail validation *)

(** C9.  When [ValidatePlan] fails for the newly built plan,
    [QueueThreadPlanForStepOut] and [QueueThreadPlanForStepThrough] return
    the NULL pointer and the thread as it was: nothing is queued, nothing is
    discarded even when [abort_other_plans] is set, and the size of the plan
    stack is the same.  [QueueThreadPlanForStepThrough] does the same when
    the plan could not be built at all. *)
Theorem invalid_plan_is_not_queued (th : Thread.t) (abort_other_plans : bool)
    (new_plan : ThreadPlan.t) :
  ThreadPlan.ValidatePlan new_plan = false ->
  QueueThreadPlanForStepOut th abort_other_plans new_plan = Ret (th, None)
  /\ QueueThreadPlanForStepThrough th abort_other_plans (Some new_plan)
     = Ret (th, None)
  /\ QueueThreadPlanForStepThrough th abort_other_plans None
     = Ret (th, None).
Proof.
  intros Hinvalid.
  unfold QueueThreadPlanForStepOut, QueueThreadPlanForStepThrough.
  now rewrite Hinvalid.
Qed.

(** ** Downward scans of a vector *)

(** The scans below read [v] at indices below their counter only. *)
Ltac scan_app_l IH :=
  let Hn := fresh "Hn" in
  intros Hn; simpl; rewrite lookup_app_l by lia; rewrite IH by lia;
  reflexivity.

Lemma GetCompletedPlan_from_app_l (v w : list ThreadPlan.t) (n : nat) :
  n <= length v ->
  GetCompletedPlan_from (v ++ w) n = GetCompletedPlan_from v n.
Proof. induction n as [|n IH]; [reflexivity|scan_app_l IH]. Qed.

Lemma GetReturnValueObject_from_app_l (v w : list ThreadPlan.t) (n : nat) :
  n <= length v ->
  GetReturnValueObject_from (v ++ w) n = GetReturnValueObject_from v n.
Proof. induction n as [|n IH]; [reflexivity|scan_app_l IH]. Qed.

Lemma find_master_plan_app_l (v w : list ThreadPlan.t) (n : nat) :
  n <= length v -> find_master_plan (v ++ w) n = find_master_plan v n.
Proof. induction n as [|n IH]; [reflexivity|scan_app_l IH]. Qed.

Lemma length_snoc {A : Type} (v : list A) (x : A) :
  length (v ++ [x]) = S (length v).
Proof. rewrite length_app. simpl. lia. Qed.

Lemma lookup_snoc {A : Type} (v : list A) (x : A) :
  (v ++ [x]) !! length v = Some x.
Proof. now rewrite lookup_app_r, Nat.sub_diag by lia. Qed.

(** The most recent completed plan that is not private. *)
Lemma GetCompletedPlan_found (th : Thread.t) (older newer : list ThreadPlan.t)
    (p : ThreadPlan.t) :
  m_completed_plan_stack th = older ++ p :: newer ->
  ThreadPlan.GetPrivate p = false ->
  Forall (fun q => ThreadPlan.GetPrivate q = true) newer ->
  GetCompletedPlan th = Some p.
Proof.
  unfold GetCompletedPlan. intros -> Hp Hnewer.
  induction newer as [|x newer IH] using rev_ind.
  - rewrite length_snoc. simpl. now rewrite lookup_snoc, Hp.
  - apply Forall_app in Hnewer as [Hnewer Hx].
    apply Forall_inv in Hx.
    change (older ++ p :: newer ++ [x]) with (older ++ (p :: newer) ++ [x]).
    rewrite app_assoc, length_snoc. simpl.
    rewrite lookup_snoc, Hx. simpl.
    rewrite GetCompletedPlan_from_app_l by lia. now apply IH.
Qed.

Lemma GetCompletedPlan_from_none (v : list ThreadPlan.t) (n : nat) :
  Forall (fun q => ThreadPlan.GetPrivate q = true) v ->
  GetCompletedPlan_from v n = None.
Proof.
  intros Hv. induction n as [|n IH]; simpl; [reflexivity|].
  destruct (v !! n) as [q|] eqn:Hq; [|reflexivity].
  rewrite Forall_lookup in Hv. now rewrite (Hv _ _ Hq).
Qed.

(** The return value object of the most recent completed plan that has
    one. *)
Lemma GetReturnValueObject_found (th : Thread.t)
    (older newer : list ThreadPlan.t) (q : ThreadPlan.t) (r : nat) :
  m_completed_plan_stack th = older ++ q :: newer ->
  ThreadPlan.GetReturnValueObject q = Some r ->
  Forall (fun x => ThreadPlan.GetReturnValueObject x = None) newer ->
  GetReturnValueObject th = Some r.
Proof.
  unfold GetReturnValueObject. intros -> Hq Hnewer.
  induction newer as [|x newer IH] using rev_ind.
  - rewrite length_snoc. simpl. now rewrite lookup_snoc, Hq.
  - apply Forall_app in Hnewer as [Hnewer Hx].
    apply Forall_inv in Hx.
    change (older ++ q :: newer ++ [x]) with (older ++ (q :: newer) ++ [x]).
    rewrite app_assoc, length_snoc. simpl.
    rewrite lookup_snoc, Hx.
    rewrite GetReturnValueObject_from_app_l by lia. now apply IH.
Qed.

Lemma GetReturnValueObject_from_none (v : list ThreadPlan.t) (n : nat) :
  Forall (fun x => ThreadPlan.GetReturnValueObject x = None) v ->
  GetReturnValueObject_from v n = None.
Proof.
  intros Hv. induction n as [|n IH]; simpl; [reflexivity|].
  destruct (v !! n) as [q|] eqn:Hq; [|reflexivity].
  rewrite Forall_lookup in Hv. now rewrite (Hv _ _ Hq).
Qed.

(** The first master plan from the top. *)
Lemma find_master_plan_found (lower above : list ThreadPlan.t)
    (m : ThreadPlan.t) :
  ThreadPlan.IsMasterPlan m = true ->
  Forall (fun p => ThreadPlan.IsMasterPlan p = false) above ->
  find_master_plan (lower ++ m :: above) (length (lower ++ m :: above))
  = (Z.of_nat (length lower), Some (ThreadPlan.OkayToDiscard m)).
Proof.
  intros Hm Habove.
  induction above as [|x above IH] using rev_ind.
  - rewrite length_snoc. simpl. now rewrite lookup_snoc, Hm.
  - apply Forall_app in Habove as [Habove Hx].
    apply Forall_inv in Hx.
    change (lower ++ m :: above ++ [x]) with (lower ++ (m :: above) ++ [x]).
    rewrite app_assoc, length_snoc. simpl.
    rewrite lookup_snoc, Hx.
    rewrite find_master_plan_app_l by lia. now apply IH.
Qed.

Lemma find_master_plan_none (v : list ThreadPlan.t) (n : nat) :
  Forall (fun p => ThreadPlan.IsMasterPlan p = false) v ->
  find_master_plan v n = ((-1)%Z, None).
Proof.
  intros Hv. induction n as [|n IH]; simpl; [reflexivity|].
  destruct (v !! n) as [q|] eqn:Hq; [|exact IH].
  rewrite Forall_lookup in Hv. now rewrite (Hv _ _ Hq).
Qed.

(** ** GetStopInfo *)

(** No completed plan vouches for the stop: every completed plan is private,
    or the most recent one that is not private did not succeed. *)
Definition no_plan_succeeded (th : Thread.t) : Prop :=
  Forall (fun q => ThreadPlan.GetPrivate q = true) (m_completed_plan_stack th)
  \/ exists older p newer,
       m_completed_plan_stack th = older ++ p :: newer
       /\ ThreadPlan.GetPrivate p = false
       /\ Forall (fun q => ThreadPlan.GetPrivate q = true) newer
       /\ ThreadPlan.PlanSucceeded p = false.

(** The cached stop info can be trusted: it is valid and was recorded at the
    current stop id of a process that is still there. *)
Definition actual_stop_info_current (th : Thread.t) (si : StopInfo) : Prop :=
  m_actual_stop_info_sp th = Some si
  /\ IsValid si = true
  /\ exists process_sp,
       GetProcess th = Some process_sp
       /\ m_thread_stop_reason_stop_id th = GetStopID process_sp.

Lemma no_plan_succeeded_else (th : Thread.t) :
  no_plan_succeeded th -> GetStopInfo th = actual_or_private_stop_info th.
Proof.
  unfold GetStopInfo.
  intros [Hall|(older & p & newer & Hc & Hp & Hnewer & Hfail)].
  - unfold GetCompletedPlan. now rewrite GetCompletedPlan_from_none.
  - rewrite (GetCompletedPlan_found th older newer p Hc Hp Hnewer).
    now rewrite Hfail.
Qed.

(** C5, as the code has it.  [GetStopInfo] resolves the stop reason in this
    order: if the most recent completed plan that is not private succeeded,
    the result is a plan-complete stop info for that plan, carrying the
    result of the thread's [GetReturnValueObject], that is the return value
    object of the most recent completed plan, private or not, that has one
    (none if no completed plan has one); otherwise, if the cached stop info
    is valid and was recorded at the current stop id of the process, the
    result is the cached stop info; otherwise it is the answer of
    [GetPrivateStopReason]. *)
Theorem GetStopInfo_priority (th : Thread.t) :
  (forall older p newer,
     m_completed_plan_stack th = older ++ p :: newer ->
     ThreadPlan.GetPrivate p = false ->
     Forall (fun q => ThreadPlan.GetPrivate q = true) newer ->
     ThreadPlan.PlanSucceeded p = true ->
     GetStopInfo th
     = Some (CreateStopReasonWithPlan p (GetReturnValueObject th)))
  /\ (forall older q newer r,
        m_completed_plan_stack th = older ++ q :: newer ->
        ThreadPlan.GetReturnValueObject q = Some r ->
        Forall (fun x => ThreadPlan.GetReturnValueObject x = None) newer ->
        GetReturnValueObject th = Some r)
  /\ (Forall (fun x => ThreadPlan.GetReturnValueObject x = None)
        (m_completed_plan_stack th) ->
      GetReturnValueObject th = None)
  /\ (forall si,
        no_plan_succeeded th -> actual_stop_info_current th si ->
        GetStopInfo th = Some si)
  /\ (no_plan_succeeded th ->
      (forall si, ~ actual_stop_info_current th si) ->
      GetStopInfo th = GetPrivateStopReason th).
Proof.
  split_and!.
  - intros older p newer Hc Hp Hnewer Hok. unfold GetStopInfo.
    rewrite (GetCompletedPlan_found th older newer p Hc Hp Hnewer).
    now rewrite Hok.
  - intros older q newer r. apply GetReturnValueObject_found.
  - intros Hnone. now apply GetReturnValueObject_from_none.
  - intros si Hno (Hsi & Hvalid & process_sp & Hproc & Hid).
    rewrite (no_plan_succeeded_else th Hno).
    unfold actual_or_private_stop_info.
    now rewrite Hproc, Hsi, Hvalid, Hid, N.eqb_refl.
  - intros Hno Hstale.
    rewrite (no_plan_succeeded_else th Hno).
    unfold actual_or_private_stop_info.
    destruct (GetProcess th) as [process_sp|] eqn:Hproc; [|reflexivity].
    destruct (m_actual_stop_info_sp th) as [si|] eqn:Hsi; [|reflexivity].
    destruct (IsValid si) eqn:Hvalid; [|reflexivity].
    destruct (N.eqb_spec (m_thread_stop_reason_stop_id th)
                (GetStopID process_sp)) as [Hid|Hid]; [|reflexivity].
    exfalso. apply (Hstale si). unfold actual_stop_info_current.
    split_and!; [exact Hsi|exact Hvalid|]. now exists process_sp.
Qed.

(** ** Votes *)

Definition suspended_or_invalid (st : StateType) : Prop :=
  st = eStateSuspended \/ st = eStateInvalid.

Lemma suspended_or_invalid_test (st : StateType) :
  bool_decide (st = eStateSuspended) || bool_decide (st = eStateInvalid)
  = true <-> suspended_or_invalid st.
Proof.
  unfold suspended_or_invalid.
  rewrite orb_true_iff, !bool_decide_eq_true. reflexivity.
Qed.

Lemma not_suspended_or_invalid_test (st : StateType) :
  ~ suspended_or_invalid st ->
  bool_decide (st = eStateSuspended) || bool_decide (st = eStateInvalid)
  = false.
Proof.
  intros H. apply not_true_is_false.
  now rewrite suspended_or_invalid_test.
Qed.

Lemma nonempty_length_test {A : Type} (v : list A) (x : A) :
  (0 <? length (v ++ [x])) = true.
Proof. apply Nat.ltb_lt. rewrite length_snoc. lia. Qed.

(** C6, as the code has it.  [ShouldReportStop] has no opinion when the
    resume state or the temporary resume state is suspended or invalid, or
    when the thread has no stop reason.  [ShouldReportRun] has no opinion
    when the resume state is suspended or invalid; it reads neither the
    temporary resume state nor the stop reason.  Past these tests each
    returns the vote of the most recent completed plan, private or not, when
    the completed history is not empty, and otherwise the vote of the plan on
    top of the plan stack. *)
Theorem vote_delegation (th : Thread.t) :
  (suspended_or_invalid (GetResumeState th)
   \/ suspended_or_invalid (GetTemporaryResumeState th)
   \/ ThreadStoppedForAReason th = false ->
   ShouldReportStop th = Ret eVoteNoOpinion)
  /\ (suspended_or_invalid (GetResumeState th) ->
      ShouldReportRun th = Ret eVoteNoOpinion)
  /\ (~ suspended_or_invalid (GetResumeState th) ->
      ~ suspended_or_invalid (GetTemporaryResumeState th) ->
      ThreadStoppedForAReason th = true ->
      (forall older p,
         m_completed_plan_stack th = older ++ [p] ->
         ShouldReportStop th = Ret (ThreadPlan.ShouldReportStop p))
      /\ (forall lower top,
            m_completed_plan_stack th = [] ->
            m_plan_stack th = lower ++ [top] ->
            ShouldReportStop th = Ret (ThreadPlan.ShouldReportStop top)))
  /\ (~ suspended_or_invalid (GetResumeState th) ->
      (forall older p,
         m_completed_plan_stack th = older ++ [p] ->
         ShouldReportRun th = Ret (ThreadPlan.ShouldReportRun p))
      /\ (forall lower top,
            m_completed_plan_stack th = [] ->
            m_plan_stack th = lower ++ [top] ->
            ShouldReportRun th = Ret (ThreadPlan.ShouldReportRun top))).
Proof.
  split_and!.
  - unfold ShouldReportStop. intros [H|[H|H]].
    + apply suspended_or_invalid_test in H. now rewrite H.
    + apply suspended_or_invalid_test in H. rewrite H.
      now case_match.
    + rewrite H. simpl. now repeat case_match.
  - unfold ShouldReportRun. intros H.
    apply suspended_or_invalid_test in H. now rewrite H.
  - intros Hr Ht Hs. unfold ShouldReportStop.
    rewrite (not_suspended_or_invalid_test _ Hr),
      (not_suspended_or_invalid_test _ Ht), Hs. simpl.
    split.
    + intros older p ->. now rewrite nonempty_length_test, last_snoc'.
    + intros lower top -> Hstack. simpl.
      unfold GetCurrentPlan. now rewrite Hstack, last_snoc'.
  - intros Hr. unfold ShouldReportRun.
    rewrite (not_suspended_or_invalid_test _ Hr).
    split.
    + intros older p ->. now rewrite nonempty_length_test, last_snoc'.
    + intros lower top -> Hstack. simpl.
      unfold GetCurrentPlan. now rewrite Hstack, last_snoc'.
Qed.

(** ** DiscardThreadPlans without force *)

Lemma discard_round_bottom_master (uninit : bool) (th : Thread.t)
    (base : ThreadPlan.t) (rest : list ThreadPlan.t) :
  m_plan_stack th = base :: rest ->
  ThreadPlan.IsMasterPlan base = true ->
  ThreadPlan.OkayToDiscard base = true ->
  Forall (fun p => ThreadPlan.IsMasterPlan p = false) rest ->
  exists th',
    discard_round uninit th = Some th' /\ m_plan_stack th' = [base].
Proof.
  intros Hstack Hmaster Hokay Hrest.
  destruct th as [pr si id v c d rs ts gp cl]. simpl in Hstack. subst v.
  pose proof (find_master_plan_found [] rest base Hmaster Hrest) as Hfind.
  cbn [length app Z.of_nat] in Hfind.
  unfold discard_round. cbn [m_plan_stack length].
  rewrite Hfind, Hokay. change (0 <? 0)%Z with false.
  eexists. split; [reflexivity|].
  replace (Z.to_nat _) with (length rest) by lia.
  change (base :: rest) with ([base] ++ rest).
  now rewrite discard_loop_app.
Qed.

(** The loop of [DiscardThreadPlans(false)] ends only at a master plan that
    is not okay to discard.  If the first master plan from the top is the
    bottom-most plan and it is okay to discard, each round discards the
    plans above it, skips the plan itself because of
    [if (master_plan_idx > 0)], and the next round finds the same plan
    again: no amount of fuel gives a result.  The bottom plan of a thread,
    the [ThreadPlanBase] queued by the constructor, is not such a plan. *)
Theorem DiscardThreadPlans_never_returns (th : Thread.t)
    (base : ThreadPlan.t) (rest : list ThreadPlan.t) :
  m_plan_stack th = base :: rest ->
  ThreadPlan.IsMasterPlan base = true ->
  ThreadPlan.OkayToDiscard base = true ->
  Forall (fun p => ThreadPlan.IsMasterPlan p = false) rest ->
  forall fuel uninit, DiscardThreadPlans fuel uninit th false = OutOfFuel.
Proof.
  intros Hstack Hmaster Hokay Hrest fuel uninit. simpl.
  revert th rest Hstack Hrest.
  induction fuel as [|fuel IH]; intros th rest Hstack Hrest; simpl;
    [reflexivity|].
  destruct (discard_round_bottom_master uninit th base rest
              Hstack Hmaster Hokay Hrest) as (th' & -> & Hstack').
  apply (IH th' [] Hstack'). constructor.
Qed.

(** ** GetPreviousPlan on a stack without repeated pointers *)

(** No plan object sits twice in the vector. *)
Definition distinct (v : list ThreadPlan.t) : Prop :=
  NoDup (map ThreadPlan.addr v).

Lemma same_refl (p : ThreadPlan.t) : ThreadPlan.same p p = true.
Proof. apply Nat.eqb_refl. Qed.

Lemma distinct_lookup (v : list ThreadPlan.t) (i j : nat)
    (p q : ThreadPlan.t) :
  distinct v -> v !! i = Some p -> v !! j = Some q ->
  ThreadPlan.same p q = true -> i = j.
Proof.
  intros Hd Hi Hj Hs. apply Nat.eqb_eq in Hs.
  apply (NoDup_lookup (ThreadPlan.addr <$> v) i j (ThreadPlan.addr p)).
  - exact Hd.
  - now rewrite list_lookup_fmap, Hi.
  - rewrite list_lookup_fmap, Hj. simpl. now rewrite Hs.
Qed.

Lemma previous_in_absent (v : list ThreadPlan.t) (cur : ThreadPlan.t)
    (i : nat) :
  ~ on_stack cur v -> previous_in v cur i = None.
Proof.
  intros Habs. induction i as [|i IH]; simpl; [reflexivity|].
  destruct (v !! S i) as [p|] eqn:Hp; [|exact IH].
  replace (ThreadPlan.same cur p) with false; [exact IH|].
  symmetry. apply Nat.eqb_neq. intros Heq. apply Habs.
  unfold on_stack. rewrite Heq. apply in_map.
  apply list_elem_of_In. eapply list_elem_of_lookup_2, Hp.
Qed.

Lemma previous_in_bottom (v : list ThreadPlan.t) (cur : ThreadPlan.t)
    (i : nat) :
  distinct v -> v !! 0 = Some cur -> previous_in v cur i = None.
Proof.
  intros Hd H0. induction i as [|i IH]; simpl; [reflexivity|].
  destruct (v !! S i) as [p|] eqn:Hp; [|exact IH].
  destruct (ThreadPlan.same cur p) eqn:Hs; [|exact IH].
  now pose proof (distinct_lookup v 0 (S i) cur p Hd H0 Hp Hs).
Qed.

Lemma previous_in_at (v : list ThreadPlan.t) (cur : ThreadPlan.t)
    (i k : nat) :
  distinct v -> v !! S k = Some cur -> S k <= i ->
  previous_in v cur i = v !! k.
Proof.
  intros Hd Hk. induction i as [|i IH]; intros Hle; [lia|]. simpl.
  destruct (decide (i = k)) as [->|Hne].
  - now rewrite Hk, same_refl.
  - destruct (v !! S i) as [p|] eqn:Hp; [|apply IH; lia].
    destruct (ThreadPlan.same cur p) eqn:Hs; [|apply IH; lia].
    pose proof (distinct_lookup v (S k) (S i) cur p Hd Hk Hp Hs). lia.
Qed.

(** Below a plan of the active stack sits the previous element of the
    vector; below the bottom plan sits nothing. *)
Lemma GetPreviousPlan_at (th : Thread.t) (cur : ThreadPlan.t) (k : nat) :
  distinct (m_plan_stack th) ->
  ~ on_stack cur (m_completed_plan_stack th) ->
  m_plan_stack th !! k = Some cur ->
  GetPreviousPlan th (Some cur)
  = match k with 0 => None | S j => m_plan_stack th !! j end.
Proof.
  intros Hd Habs Hk. unfold GetPreviousPlan.
  rewrite (previous_in_absent _ _ _ Habs).
  destruct (m_completed_plan_stack th !! 0) as [p|] eqn:Hp.
  - replace (ThreadPlan.same p cur) with false.
    + destruct k as [|j].
      * now apply previous_in_bottom.
      * apply previous_in_at; [exact Hd|exact Hk|].
        apply lookup_lt_Some in Hk. lia.
    + symmetry. apply Nat.eqb_neq. intros Heq. apply Habs.
      unfold on_stack. rewrite <- Heq. apply in_map.
      apply list_elem_of_In. eapply list_elem_of_lookup_2, Hp.
  - destruct k as [|j].
    + now apply previous_in_bottom.
    + apply previous_in_at; [exact Hd|exact Hk|].
      apply lookup_lt_Some in Hk. lia.
Qed.

Lemma lookup_middle' {A : Type} (l1 l2 : list A) (x : A) :
  (l1 ++ x :: l2) !! length l1 = Some x.
Proof. apply list_lookup_middle. reflexivity. Qed.

(** ** WillResume *)

(** The hooks called on the plans [lower] (bottom first), walking down. *)
Definition will_resume_calls (resume_state : StateType)
    (lower : list ThreadPlan.t) : list Call :=
  map (fun p => CallWillResume (ThreadPlan.addr p) resume_state false)
      (rev lower).

Lemma WillResume_lower_spec (fuel : nat) (resume_state : StateType)
    pr si id lower cur above d rs ts gp cl :
  distinct (lower ++ cur :: above) ->
  length lower < fuel ->
  WillResume_lower fuel
    (Thread.mk pr si id (lower ++ cur :: above) [] d rs ts gp cl)
    resume_state cur
  = Ret (Thread.mk pr si id (lower ++ cur :: above) [] d rs ts gp
           (cl ++ will_resume_calls resume_state lower)).
Proof.
  revert fuel cur above cl.
  induction lower as [|x lower IH] using rev_ind;
    intros fuel cur above cl Hd Hfuel;
    (destruct fuel as [|fuel]; [simpl in Hfuel; lia|]).
  - cbn [WillResume_lower].
    rewrite (GetPreviousPlan_at _ cur 0); [|exact Hd|intros []|reflexivity].
    unfold will_resume_calls. simpl. now rewrite app_nil_r.
  - cbn [WillResume_lower].
    rewrite (GetPreviousPlan_at _ cur (S (length lower)));
      [|exact Hd|intros []|].
    + cbn [m_plan_stack].
      rewrite <- app_assoc. cbn [app]. rewrite lookup_middle'.
      unfold call. cbn [Thread.m_process_wp Thread.m_actual_stop_info_sp
        Thread.m_thread_stop_reason_stop_id Thread.m_plan_stack
        Thread.m_completed_plan_stack Thread.m_discarded_plan_stack
        Thread.m_resume_state Thread.m_temporary_resume_state
        Thread.GetPrivateStopReason Thread.calls].
      rewrite IH.
      * unfold will_resume_calls. rewrite rev_unit. simpl.
        now rewrite <- app_assoc.
      * now rewrite <- app_assoc in Hd.
      * rewrite length_snoc in Hfuel. lia.
    + cbn [m_plan_stack]. rewrite <- (length_snoc lower x).
      apply lookup_middle'.
Qed.

(** C4, as the code has it.  On a thread with a process, whose plan stack
    [lower ++ [top]] holds no plan twice, [WillResume] returns the answer
    [need_to_resume] of the [WillResume] hook of the top plan.  It first
    empties the completed and the discarded history and records
    [resume_state] as the temporary resume state; it then notifies the
    current stop info, if any, the top plan and every plan below it down to
    the bottom.  The cached stop info is reset when [need_to_resume] is true,
    that is when the hardware is really resumed; when the top plan fakes the
    resume (the answer is false) [WillResume] leaves the cached stop info as
    it is. *)
Theorem WillResume_protocol (fuel : nat) (th : Thread.t)
    (resume_state : StateType) (lower : list ThreadPlan.t)
    (top : ThreadPlan.t) (process : Process) :
  m_plan_stack th = lower ++ [top] ->
  distinct (m_plan_stack th) ->
  GetProcess th = Some process ->
  length (m_plan_stack th) <= fuel ->
  let need_to_resume := ThreadPlan.WillResume top resume_state true in
  exists th',
    WillResume fuel th resume_state = Ret (th', need_to_resume)
    /\ m_completed_plan_stack th' = []
    /\ m_discarded_plan_stack th' = []
    /\ GetTemporaryResumeState th' = resume_state
    /\ m_plan_stack th' = m_plan_stack th
    /\ m_actual_stop_info_sp th'
       = (if need_to_resume then None else m_actual_stop_info_sp th)
    /\ exists notified,
         (notified = [] \/ notified = [CallStopInfoWillResume resume_state])
         /\ calls th'
            = calls th ++ notified
              ++ CallWillResume (ThreadPlan.addr top) resume_state true
                 :: will_resume_calls resume_state lower.
Proof.
  intros Hstack Hd Hproc Hfuel need_to_resume.
  destruct th as [pr si id v c d rs ts gp cl].
  cbn [m_plan_stack GetProcess m_process_wp] in *. subst v pr.
  rewrite length_snoc in Hfuel.
  unfold WillResume.
  cbn [set_completed_plan_stack set_discarded_plan_stack
       SetTemporaryResumeState GetProcess bind
       Thread.m_process_wp Thread.m_actual_stop_info_sp
       Thread.m_thread_stop_reason_stop_id Thread.m_plan_stack
       Thread.m_completed_plan_stack Thread.m_discarded_plan_stack
       Thread.m_resume_state Thread.m_temporary_resume_state
       Thread.GetPrivateStopReason Thread.calls].
  match goal with
  | |- context [GetCurrentPlan ?t] =>
      assert (Hmid : exists notified,
                (notified = [] \/
                 notified = [CallStopInfoWillResume resume_state])
                /\ t = Thread.mk (Some process) si id (lower ++ [top]) [] []
                         rs resume_state gp (cl ++ notified))
  end.
  { destruct (_ && _).
    - destruct gp.
      + exists [CallStopInfoWillResume resume_state]. now split; [right|].
      + exists []. rewrite app_nil_r. now split; [left|].
    - exists []. rewrite app_nil_r. now split; [left|]. }
  destruct Hmid as (notified & Hnotified & ->).
  unfold GetCurrentPlan. cbn [Thread.m_plan_stack].
  rewrite last_snoc'. cbn [bind call
       Thread.m_process_wp Thread.m_actual_stop_info_sp
       Thread.m_thread_stop_reason_stop_id Thread.m_plan_stack
       Thread.m_completed_plan_stack Thread.m_discarded_plan_stack
       Thread.m_resume_state Thread.m_temporary_resume_state
       Thread.GetPrivateStopReason Thread.calls].
  unfold call. cbn [Thread.m_process_wp Thread.m_actual_stop_info_sp
       Thread.m_thread_stop_reason_stop_id Thread.m_plan_stack
       Thread.m_completed_plan_stack Thread.m_discarded_plan_stack
       Thread.m_resume_state Thread.m_temporary_resume_state
       Thread.GetPrivateStopReason Thread.calls].
  rewrite WillResume_lower_spec by (exact Hd || lia).
  cbn [bind]. fold need_to_resume.
  eexists. split; [reflexivity|].
  destruct need_to_resume; cbn;
    (split_and!; try reflexivity;
     exists notified; split; [exact Hnotified|now rewrite <- !app_assoc]).
Qed.

(** ** ShouldStop: the plan that explains the stop *)

(** Reduce the projections and the setters of a thread given by its
    fields. *)
Ltac thread_fields :=
  unfold call, set_plan_stack, set_completed_plan_stack,
    set_discarded_plan_stack, set_actual_stop_info;
  cbn [Thread.m_process_wp Thread.m_actual_stop_info_sp
       Thread.m_thread_stop_reason_stop_id Thread.m_plan_stack
       Thread.m_completed_plan_stack Thread.m_discarded_plan_stack
       Thread.m_resume_state Thread.m_temporary_resume_state
       Thread.GetPrivateStopReason Thread.calls].

(** The hooks called when the plans [popped] (bottom first) are popped from
    the top, each after its [WillStop] when the verdict is to stop. *)
Definition pop_calls (should_stop : bool) (popped : list ThreadPlan.t)
    : list Call :=
  flat_map
    (fun p =>
       (if should_stop then [CallWillStop (ThreadPlan.addr p)] else [])
       ++ [CallWillPop (ThreadPlan.addr p)])
    (rev popped).


Lemma distinct_app_l (v w : list ThreadPlan.t) :
  distinct (v ++ w) -> distinct v.
Proof.
  unfold distinct. rewrite map_app. intros Hd.
  now apply NoDup_app in Hd as (Hv & _).
Qed.

Lemma snoc_cons_app {A : Type} (l m : list A) (a t : A) :
  l ++ a :: m ++ [t] = (l ++ a :: m) ++ [t].
Proof. now rewrite <- app_assoc. Qed.

Lemma pop_through_spec (fuel : nat) (should_stop : bool)
    pr si id lower prev popped top c d rs ts gp cl :
  distinct (lower ++ prev :: popped ++ [top]) ->
  length (popped ++ [top]) <= fuel ->
  pop_through fuel
    (Thread.mk pr si id (lower ++ prev :: popped ++ [top]) c d rs ts gp cl)
    top should_stop (Some prev)
  = Ret (Thread.mk pr si id (lower ++ [prev])
           (c ++ rev (popped ++ [top])) d rs ts gp
           (cl ++ pop_calls should_stop (popped ++ [top])),
         prev).
Proof.
  revert fuel top c cl.
  induction popped as [|x popped IH] using rev_ind;
    intros fuel top c cl Hd Hfuel;
    (destruct fuel as [|fuel]; [rewrite length_snoc in Hfuel; lia|]).
  - cbn [pop_through app].
    assert (Hpop : forall cl',
      PopPlan (Thread.mk pr si id (lower ++ [prev; top]) c d rs ts gp cl')
      = Thread.mk pr si id (lower ++ [prev]) (c ++ [top]) d rs ts gp
          (cl' ++ [CallWillPop (ThreadPlan.addr top)])).
    { intros cl'.
      change (lower ++ [prev; top]) with (lower ++ [prev] ++ [top]).
      rewrite app_assoc. apply PopPlan_snoc. now destruct lower. }
    destruct should_stop; thread_fields; rewrite Hpop;
      unfold GetCurrentPlan; thread_fields; rewrite last_snoc'; cbn [bind];
      unfold ThreadPlan.same_ptr; rewrite same_refl;
      unfold pop_calls; cbn; now rewrite <- ?app_assoc.
  - cbn [pop_through].
    assert (Hpop : forall cl',
      PopPlan (Thread.mk pr si id
                 (lower ++ prev :: (popped ++ [x]) ++ [top]) c d rs ts gp cl')
      = Thread.mk pr si id (lower ++ prev :: popped ++ [x]) (c ++ [top]) d
          rs ts gp (cl' ++ [CallWillPop (ThreadPlan.addr top)])).
    { intros cl'. rewrite snoc_cons_app.
      apply PopPlan_snoc. now destruct lower. }
    assert (Hne : ThreadPlan.same x prev = false).
    { apply Nat.eqb_neq. intros Heq.
      assert (Hi : (lower ++ prev :: (popped ++ [x]) ++ [top])
                   !! length lower = Some prev) by apply lookup_middle'.
      assert (Hj : (lower ++ prev :: (popped ++ [x]) ++ [top])
                   !! (length lower + S (length popped)) = Some x).
      { rewrite lookup_app_r by lia.
        replace (length lower + S (length popped) - length lower)
          with (S (length popped)) by lia.
        cbn [lookup list_lookup]. rewrite <- app_assoc.
        apply lookup_middle'. }
      assert (Hs : ThreadPlan.same prev x = true)
        by (apply Nat.eqb_eq; congruence).
      pose proof (distinct_lookup _ _ _ _ _ Hd Hi Hj Hs). lia. }
    assert (Hd' : distinct (lower ++ prev :: popped ++ [x])).
    { rewrite snoc_cons_app in Hd. now apply distinct_app_l in Hd. }
    rewrite !length_snoc in Hfuel.
    destruct should_stop; thread_fields; rewrite Hpop;
      unfold GetCurrentPlan; thread_fields;
      rewrite (snoc_cons_app lower popped prev x), last_snoc';
      cbn [bind]; unfold ThreadPlan.same_ptr; rewrite Hne;
      rewrite <- (snoc_cons_app lower popped prev x);
      (rewrite IH by (exact Hd' || (rewrite length_snoc; lia)));
      unfold pop_calls; rewrite (rev_unit (popped ++ [x]) top);
      cbn [flat_map]; now rewrite <- ?app_assoc.
Qed.

Lemma GetPreviousPlan_middle (th : Thread.t) (l r : list ThreadPlan.t)
    (a b : ThreadPlan.t) :
  m_plan_stack th = l ++ a :: b :: r ->
  distinct (m_plan_stack th) ->
  ~ on_stack b (m_completed_plan_stack th) ->
  GetPreviousPlan th (Some b) = Some a.
Proof.
  intros Hstack Hd Habs.
  rewrite (GetPreviousPlan_at th b (S (length l)) Hd Habs).
  - rewrite Hstack. apply lookup_middle'.
  - rewrite Hstack.
    change (l ++ a :: b :: r) with (l ++ [a] ++ b :: r).
    rewrite app_assoc, <- (length_snoc l a). apply lookup_middle'.
Qed.

Lemma scan_previous_spec (fuel pop_fuel : nat) (should_stop : bool)
    pr si id lower prev e skipped cur above top c d rs ts gp cl :
  distinct (lower ++ prev :: e :: skipped ++ cur :: above) ->
  (forall p, In p (lower ++ prev :: e :: skipped ++ cur :: above) ->
             ~ on_stack p c) ->
  last (cur :: above) = Some top ->
  Forall (fun p => ThreadPlan.PlanExplainsStop p = false) skipped ->
  ThreadPlan.PlanExplainsStop e = true ->
  ThreadPlan.MischiefManaged e = true ->
  length skipped < fuel ->
  length (e :: skipped ++ cur :: above) <= pop_fuel ->
  scan_previous fuel pop_fuel
    (Thread.mk pr si id (lower ++ prev :: e :: skipped ++ cur :: above)
       c d rs ts gp cl)
    top cur should_stop
  = Ret (Thread.mk pr si id (lower ++ [prev])
           (c ++ rev (e :: skipped ++ cur :: above)) d rs ts gp
           (cl ++ pop_calls (ThreadPlan.ShouldStop e)
                    (e :: skipped ++ cur :: above)),
         prev, ThreadPlan.ShouldStop e,
         ThreadPlan.IsMasterPlan e && negb (ThreadPlan.OkayToDiscard e)).
Proof.
  intros Hd Hfresh Htop Hskipped He Hdone. revert fuel cur above Hd Hfresh Htop.
  induction skipped as [|x skipped IH] using rev_ind;
    intros fuel cur above Hd Hfresh Htop Hfuel Hpop;
    (destruct fuel as [|fuel]; [lia|]); cbn [scan_previous].
  - cbn [app] in *.
    rewrite (GetPreviousPlan_middle _ (lower ++ [prev]) above e cur);
      [|thread_fields; now rewrite <- app_assoc
       |exact Hd|apply Hfresh; rewrite in_app_iff; simpl; tauto].
    rewrite He, Hdone.
    rewrite (GetPreviousPlan_middle _ lower (cur :: above) prev e);
      [|reflexivity|exact Hd|apply Hfresh; rewrite in_app_iff; simpl; tauto].
    apply last_Some in Htop as [w Hw].
    change (e :: cur :: above) with ([e] ++ cur :: above) in *.
    rewrite Hw in *. rewrite app_assoc in *.
    rewrite pop_through_spec by assumption. cbn [bind].
    now destruct (_ && _).
  - apply Forall_app in Hskipped as [Hskipped Hx]. apply Forall_inv in Hx.
    rewrite <- app_assoc in *. cbn [app] in *.
    rewrite (GetPreviousPlan_middle _ (lower ++ prev :: e :: skipped)
               above x cur);
      [|thread_fields; now rewrite <- app_assoc
       |exact Hd|apply Hfresh; rewrite !in_app_iff; simpl;
                 rewrite in_app_iff; simpl; tauto].
    rewrite Hx.
    apply IH; try assumption.
    rewrite length_snoc in Hfuel. lia.
Qed.

Lemma explain_stop_done (fuel : nat) (th : Thread.t)
    (lower mid : list ThreadPlan.t) (prev e top : ThreadPlan.t) :
  m_plan_stack th = lower ++ prev :: e :: mid ++ [top] ->
  distinct (m_plan_stack th) ->
  (forall p, In p (m_plan_stack th) ->
             ~ on_stack p (m_completed_plan_stack th)) ->
  ThreadPlan.PlanExplainsStop top = false ->
  ThreadPlan.TracerExplainsStop top = false ->
  Forall (fun p => ThreadPlan.PlanExplainsStop p = false) mid ->
  ThreadPlan.PlanExplainsStop e = true ->
  ThreadPlan.MischiefManaged e = true ->
  length (m_plan_stack th) <= fuel ->
  exists th',
    explain_stop fuel th top
    = Ret (th', prev, ThreadPlan.ShouldStop e,
           ThreadPlan.IsMasterPlan e && negb (ThreadPlan.OkayToDiscard e))
    /\ m_plan_stack th' = lower ++ [prev]
    /\ m_completed_plan_stack th'
       = m_completed_plan_stack th ++ rev (e :: mid ++ [top])
    /\ m_discarded_plan_stack th' = m_discarded_plan_stack th
    /\ calls th'
       = calls th ++ pop_calls (ThreadPlan.ShouldStop e) (e :: mid ++ [top])
    /\ m_resume_state th' = m_resume_state th
    /\ m_actual_stop_info_sp th' = m_actual_stop_info_sp th.
Proof.
  intros Hstack Hd Hfresh Htop Htracer Hmid He Hdone Hfuel.
  destruct th as [pr si id v c d rs ts gp cl].
  cbn [m_plan_stack m_completed_plan_stack] in *. subst v.
  rewrite length_app in Hfuel. cbn [length] in Hfuel.
  rewrite length_snoc in Hfuel.
  unfold explain_stop. rewrite Htop, Htracer. cbn [negb].
  rewrite (scan_previous_spec fuel fuel true pr si id lower prev e mid top []
             top c d rs ts gp cl);
    try assumption; try reflexivity.
  - eexists. split; [reflexivity|]. now split_and!.
  - lia.
  - cbn [length]. rewrite length_snoc. lia.
Qed.

(** C2, as the code has it.  [ShouldStop] is called on a thread that is not
    suspended and has a stop reason that lets it stop; its plan stack
    [lower ++ prev :: e :: mid ++ [top]] holds no plan twice and none of its
    plans is in the completed history.  Neither the top plan nor its tracer
    nor a plan of [mid] explains the stop; [e], which sits above the bottom
    plan, explains it and reports [MischiefManaged].  Then every plan from
    the top down through [e] is popped into the completed history, each
    after its [WillStop] when the verdict of [e] is to stop, and [prev] is
    the plan on top.  When [e] is a master plan that is not okay to discard,
    [done_processing_current_plan] is true and [ShouldStop] returns the
    verdict of [e]; otherwise it is false and the verdict is left to the
    plans now on top, starting with [prev]. *)
Theorem explaining_plan_popped (fuel : nat) (th : Thread.t)
    (lower mid : list ThreadPlan.t) (prev e top : ThreadPlan.t)
    (stop_info : StopInfo) :
  m_plan_stack th = lower ++ prev :: e :: mid ++ [top] ->
  distinct (m_plan_stack th) ->
  (forall p, In p (m_plan_stack th) ->
             ~ on_stack p (m_completed_plan_stack th)) ->
  GetResumeState th <> eStateSuspended ->
  GetTemporaryResumeState th <> eStateSuspended ->
  GetPrivateStopReason th = Some stop_info ->
  ShouldStopSynchronous stop_info = true ->
  ThreadPlan.PlanExplainsStop top = false ->
  ThreadPlan.TracerExplainsStop top = false ->
  Forall (fun p => ThreadPlan.PlanExplainsStop p = false) mid ->
  ThreadPlan.PlanExplainsStop e = true ->
  ThreadPlan.MischiefManaged e = true ->
  length (m_plan_stack th) <= fuel ->
  let done_processing_current_plan :=
    ThreadPlan.IsMasterPlan e && negb (ThreadPlan.OkayToDiscard e) in
  exists th',
    explain_stop fuel (call (CallDoTraceLog (ThreadPlan.addr top)) th) top
    = Ret (th', prev, ThreadPlan.ShouldStop e, done_processing_current_plan)
    /\ m_plan_stack th' = lower ++ [prev]
    /\ m_completed_plan_stack th'
       = m_completed_plan_stack th ++ rev (e :: mid ++ [top])
    /\ m_discarded_plan_stack th' = m_discarded_plan_stack th
    /\ calls th'
       = calls th ++ CallDoTraceLog (ThreadPlan.addr top)
         :: pop_calls (ThreadPlan.ShouldStop e) (e :: mid ++ [top])
    /\ ShouldStop fuel th
       = (if done_processing_current_plan
          then Ret (th', ThreadPlan.ShouldStop e)
          else process_current_plan fuel th' prev (ThreadPlan.ShouldStop e)).
Proof.
  intros Hstack Hd Hfresh Hrs Hts Hreason Hsync Htop Htracer Hmid He Hdone
    Hfuel done_processing_current_plan.
  destruct (explain_stop_done fuel
              (call (CallDoTraceLog (ThreadPlan.addr top)) th)
              lower mid prev e top)
    as (th' & Hexplain & Hs & Hc & Hdisc & Hcalls & _); try assumption.
  exists th'. split_and!; try assumption.
  - rewrite Hcalls. cbn [call calls]. now rewrite <- app_assoc.
  - unfold ShouldStop, GetCurrentPlan.
    rewrite Hstack, app_comm_cons, app_comm_cons, app_assoc, last_snoc'.
    cbn [bind].
    rewrite !bool_decide_eq_false_2 by assumption.
    unfold ThreadStoppedForAReason. rewrite Hreason. cbn [negb].
    unfold call at 1. cbn [Thread.GetPrivateStopReason].
    rewrite Hreason, Hsync. cbn [negb].
    rewrite Hexplain. cbn [bind].
    fold done_processing_current_plan.
    now destruct done_processing_current_plan.
Qed.

(** ** ShouldStop: the loop over the top plan *)

Lemma not_base_has_lower (th : Thread.t) (lower : list ThreadPlan.t)
    (top : ThreadPlan.t) :
  m_plan_stack th = lower ++ [top] ->
  PlanIsBasePlan th top = false -> lower <> [].
Proof.
  intros Hstack Hbase ->. unfold PlanIsBasePlan in Hbase.
  rewrite Hstack in Hbase. simpl in Hbase.
  rewrite same_refl in Hbase. now destruct (ThreadPlan.IsBasePlan top).
Qed.

Lemma top_plan_loop_returns (fuel : nat) (th : Thread.t)
    (current_plan : ThreadPlan.t) (should_stop : bool) :
  last (m_plan_stack th) = Some current_plan ->
  length (m_plan_stack th) <= fuel ->
  exists r, top_plan_loop fuel th current_plan should_stop = Ret r.
Proof.
  revert th current_plan should_stop.
  induction fuel as [|fuel IH]; intros th cur should_stop Hlast Hfuel.
  - destruct (m_plan_stack th); [discriminate|simpl in Hfuel; lia].
  - cbn [top_plan_loop].
    destruct (PlanIsBasePlan th cur) eqn:Hbase; [now eexists|].
    destruct (ThreadPlan.MischiefManaged cur); [|now eexists].
    apply last_Some in Hlast as [lower Hstack].
    pose proof (not_base_has_lower th lower cur Hstack Hbase) as Hlower.
    destruct th as [pr si id v c d rs ts gp cl].
    cbn [m_plan_stack] in *. subst v.
    rewrite length_snoc in Hfuel.
    destruct (snoc_cases lower) as [->|(lower' & next & ->)]; [congruence|].
    destruct (ThreadPlan.ShouldStop cur); thread_fields;
      rewrite PopPlan_snoc by exact Hlower;
      (destruct (_ && _); [now eexists|]);
      unfold GetCurrentPlan; thread_fields; rewrite last_snoc'; cbn [bind];
      apply IH; thread_fields; try apply last_snoc'; lia.
Qed.

(** C3, as the code has it.  In the loop over the top plan, a top plan that
    is not the base plan and reports [MischiefManaged] is popped into the
    completed history, after its [WillStop] when its verdict is to stop.
    When it is a master plan that wants to stop and is not okay to discard,
    it is popped all the same and the loop ends at once with its verdict,
    the plan below it not being asked; otherwise the loop goes on with the
    new top plan.  With fuel for every plan of the stack the loop
    returns. *)
Theorem top_plan_done_is_popped (fuel : nat) (th : Thread.t)
    (lower : list ThreadPlan.t) (top : ThreadPlan.t) (should_stop : bool) :
  m_plan_stack th = lower ++ [top] ->
  PlanIsBasePlan th top = false ->
  ThreadPlan.MischiefManaged top = true ->
  let verdict := ThreadPlan.ShouldStop top in
  let th' :=
    PopPlan (if verdict then call (CallWillStop (ThreadPlan.addr top)) th
             else th) in
  m_plan_stack th' = lower
  /\ m_completed_plan_stack th' = m_completed_plan_stack th ++ [top]
  /\ m_discarded_plan_stack th' = m_discarded_plan_stack th
  /\ calls th'
     = calls th
       ++ (if verdict then [CallWillStop (ThreadPlan.addr top)] else [])
       ++ [CallWillPop (ThreadPlan.addr top)]
  /\ (if verdict && ThreadPlan.IsMasterPlan top
         && negb (ThreadPlan.OkayToDiscard top)
      then top_plan_loop (S fuel) th top should_stop = Ret (th', top, true)
      else exists new_top,
             last lower = Some new_top
             /\ top_plan_loop (S fuel) th top should_stop
                = top_plan_loop fuel th' new_top verdict)
  /\ (length (m_plan_stack th) <= S fuel ->
      exists r, top_plan_loop (S fuel) th top should_stop = Ret r).
Proof.
  intros Hstack Hbase Hdone verdict th'.
  pose proof (not_base_has_lower th lower top Hstack Hbase) as Hlower.
  assert (Hth' : m_plan_stack th' = lower
                 /\ m_completed_plan_stack th'
                    = m_completed_plan_stack th ++ [top]
                 /\ m_discarded_plan_stack th' = m_discarded_plan_stack th
                 /\ calls th'
                    = calls th
                      ++ (if verdict
                          then [CallWillStop (ThreadPlan.addr top)] else [])
                      ++ [CallWillPop (ThreadPlan.addr top)]).
  { subst th'. destruct th as [pr si id v c d rs ts gp cl].
    cbn [m_plan_stack] in Hstack. subst v.
    destruct verdict; thread_fields; rewrite PopPlan_snoc by exact Hlower;
      thread_fields; split_and!; try reflexivity.
    now rewrite <- app_assoc. }
  destruct Hth' as (Hs & Hc & Hd & Hcalls).
  split_and!; try assumption.
  - cbn [top_plan_loop]. rewrite Hbase, Hdone. fold verdict. fold th'.
    destruct (verdict && ThreadPlan.IsMasterPlan top
              && negb (ThreadPlan.OkayToDiscard top)) eqn:Hstay.
    + apply andb_prop in Hstay as [Hstay _].
      apply andb_prop in Hstay as [-> _]. reflexivity.
    + destruct (snoc_cases lower) as [->|(lower' & new_top & Hl)];
        [congruence|].
      exists new_top. split; [rewrite Hl; apply last_snoc'|].
      unfold GetCurrentPlan. now rewrite Hs, Hl, last_snoc'.
  - intros Hfuel. apply top_plan_loop_returns; [|exact Hfuel].
    rewrite Hstack. apply last_snoc'.
Qed.

(** ** The loop of DiscardThreadPlans, when it returns *)

(** A vector holds no master plan, or it ends with a master plan followed by
    plans that are not. *)
Lemma topmost_master (v : list ThreadPlan.t) :
  Forall (fun p => ThreadPlan.IsMasterPlan p = false) v
  \/ exists below m deps,
       v = below ++ m :: deps
       /\ ThreadPlan.IsMasterPlan m = true
       /\ Forall (fun p => ThreadPlan.IsMasterPlan p = false) deps.
Proof.
  induction v as [|x v IH] using rev_ind; [left; constructor|].
  destruct (ThreadPlan.IsMasterPlan x) eqn:Hx.
  - right. exists v, x, []. now split_and!.
  - destruct IH as [Hall|(below & m & deps & -> & Hm & Hdeps)].
    + left. apply Forall_app. split; [exact Hall|]. now constructor.
    + right. exists below, m, (deps ++ [x]). split_and!.
      * now rewrite <- app_assoc.
      * exact Hm.
      * apply Forall_app. split; [exact Hdeps|]. now constructor.
Qed.

(** When a master plan [m] that is not okay to discard is on the stack and
    every master plan above it is okay to discard, the loop returns: it
    leaves [m] with the plans [deps] directly above it that are not master
    plans, and discards the plans [gone] above those, from the top down. *)
Lemma discard_rounds_returns (fuel : nat) (uninit : bool)
    pr si id lower m rest c d rs ts gp cl :
  ThreadPlan.IsMasterPlan m = true ->
  ThreadPlan.OkayToDiscard m = false ->
  Forall (fun p => ThreadPlan.IsMasterPlan p = true ->
                   ThreadPlan.OkayToDiscard p = true) rest ->
  length rest < fuel ->
  exists deps gone,
    rest = deps ++ gone
    /\ Forall (fun p => ThreadPlan.IsMasterPlan p = false) deps
    /\ discard_rounds fuel uninit
         (Thread.mk pr si id (lower ++ m :: rest) c d rs ts gp cl)
       = Ret (Thread.mk pr si id (lower ++ m :: deps) c (d ++ rev gone)
                rs ts gp (cl ++ will_pop_calls gone)).
Proof.
  intros Hm Hkeep. revert rest d cl.
  induction fuel as [|fuel IH]; intros rest d cl Hrest Hfuel; [lia|].
  cbn [discard_rounds].
  destruct (topmost_master rest)
    as [Hnone|(below & m' & deps' & -> & Hm' & Hdeps')].
  - exists rest, []. split_and!; [now rewrite app_nil_r|exact Hnone|].
    unfold discard_round. thread_fields.
    rewrite (find_master_plan_found lower rest m Hm Hnone), Hkeep.
    unfold will_pop_calls. simpl. now rewrite !app_nil_r.
  - apply Forall_app in Hrest as [Hbelow Hrest].
    pose proof (Forall_inv Hrest Hm') as Hokay.
    assert (Hround :
      discard_round uninit
        (Thread.mk pr si id (lower ++ m :: below ++ m' :: deps')
           c d rs ts gp cl)
      = Some (Thread.mk pr si id (lower ++ m :: below) c
                (d ++ rev (m' :: deps')) rs ts gp
                (cl ++ will_pop_calls (m' :: deps')))).
    { unfold discard_round. thread_fields.
      replace (lower ++ m :: below ++ m' :: deps')
        with ((lower ++ m :: below) ++ m' :: deps')
        by now rewrite <- app_assoc.
      rewrite (find_master_plan_found _ deps' m' Hm' Hdeps'), Hokay.
      replace (Z.to_nat _) with (length deps')
        by (repeat first [rewrite length_app|progress cbn [length]]; lia).
      replace ((lower ++ m :: below) ++ m' :: deps')
        with (((lower ++ m :: below) ++ [m']) ++ deps')
        by now rewrite <- !app_assoc.
      rewrite discard_loop_app by (now destruct (lower ++ m :: below)).
      replace (0 <? Z.of_nat (length (lower ++ m :: below)))%Z with true
        by (symmetry; apply Z.ltb_lt; rewrite length_app; cbn [length]; lia).
      rewrite DiscardPlan_snoc by (now destruct lower).
      unfold will_pop_calls. cbn [rev]. rewrite map_app. cbn [map].
      now rewrite <- !app_assoc. }
    rewrite Hround.
    destruct (IH below (d ++ rev (m' :: deps'))
                (cl ++ will_pop_calls (m' :: deps')) Hbelow)
      as (deps & gone & -> & Hdeps & ->).
    { rewrite length_app in Hfuel. cbn [length] in Hfuel. lia. }
    exists deps, (gone ++ m' :: deps'). split_and!.
    + now rewrite <- app_assoc.
    + exact Hdeps.
    + unfold will_pop_calls. rewrite !rev_app_distr, !map_app.
      now rewrite <- !app_assoc.
Qed.

(** Without a master plan on the stack the scan assigns nothing to
    [discard], and the round does what the uninitialised variable says. *)
Lemma discard_round_without_master (th : Thread.t) :
  Forall (fun p => ThreadPlan.IsMasterPlan p = false) (m_plan_stack th) ->
  discard_round false th = None
  /\ discard_round true th
     = Some (discard_loop (length (m_plan_stack th)) th).
Proof.
  intros Hnone. unfold discard_round.
  rewrite (find_master_plan_none _ _ Hnone). split; [reflexivity|].
  cbn [Z.ltb Z.compare]. do 2 f_equal. lia.
Qed.

(** ** Instances and counterexamples *)

Lemma distinct_sample : distinct
  [Sample.base; Sample.step_done; Sample.step_b; Sample.step_a].
Proof. apply (bool_decide_unpack _). vm_compute. exact I. Defined.

Lemma base_plan_never_removed_witness :
  let th := Sample.thread [Sample.base; Sample.step_a] [] [] in
  1 <= length (m_plan_stack th)
  /\ base_kept th (PopPlan th) /\ base_kept th (DiscardPlan th).
Proof.
  intros th.
  assert (H : 1 <= length (m_plan_stack th)) by (simpl; lia).
  destruct (base_plan_never_removed th H) as (Hpop & Hdiscard & _).
  exact (conj H (conj Hpop Hdiscard)).
Defined.

Lemma forced_discard_leaves_base_witness :
  let th := Sample.thread [Sample.base; Sample.step_a; Sample.step_b] [] [] in
  exists th',
    DiscardThreadPlans 0 false th true = Ret th'
    /\ m_plan_stack th' = [Sample.base]
    /\ m_discarded_plan_stack th' = [Sample.step_b; Sample.step_a]
    /\ m_completed_plan_stack th' = [].
Proof.
  intros th.
  destruct (forced_discard_leaves_base 0 false th Sample.base
              [Sample.step_a; Sample.step_b])
    as (th' & Hret & Hstack & _ & _ & _ & Hdiscarded & Hcompleted).
  - reflexivity.
  - intros p _ [].
  - exists th'. exact (conj Hret (conj Hstack (conj Hdiscarded Hcompleted))).
Defined.

Lemma invalid_plan_is_not_queued_witness :
  let th := Sample.thread [Sample.base; Sample.step_a] [] [] in
  ThreadPlan.ValidatePlan Sample.invalid = false
  /\ QueueThreadPlanForStepOut th true Sample.invalid = Ret (th, None)
  /\ QueueThreadPlanForStepThrough th true (Some Sample.invalid)
     = Ret (th, None).
Proof.
  intros th.
  assert (H : ThreadPlan.ValidatePlan Sample.invalid = false) by reflexivity.
  destruct (invalid_plan_is_not_queued th true Sample.invalid H)
    as (Hout & Hthrough & _).
  exact (conj H (conj Hout Hthrough)).
Defined.

Lemma DiscardThreadPlansUpToPlan_absent_witness :
  let th :=
    Sample.thread [Sample.base; Sample.step_a] [Sample.step_b] [] in
  DiscardThreadPlansUpToPlan th (Some Sample.step_b) = Ret th.
Proof.
  intros th. apply (DiscardThreadPlansUpToPlan_absent th Sample.step_b).
  unfold on_stack. simpl. intros [H|[H|[]]]; discriminate H.
Defined.

Lemma explaining_plan_popped_witness :
  let th :=
    Sample.thread
      [Sample.base; Sample.step_done; Sample.step_b; Sample.step_a] [] [] in
  exists th',
    ShouldStop 4 th
    = process_current_plan 4 th' Sample.base true
    /\ m_plan_stack th' = [Sample.base]
    /\ m_completed_plan_stack th'
       = [Sample.step_a; Sample.step_b; Sample.step_done].
Proof.
  intros th.
  destruct (explaining_plan_popped 4 th [] [Sample.step_b] Sample.base
              Sample.step_done Sample.step_a Sample.breakpoint_hit)
    as (th' & _ & Hstack & Hcompleted & _ & _ & Hverdict);
    try reflexivity; try discriminate.
  - exact distinct_sample.
  - intros p _ [].
  - now repeat constructor.
  - exists th'. exact (conj Hverdict (conj Hstack Hcompleted)).
Defined.

Lemma top_plan_done_is_popped_witness :
  let th := Sample.thread [Sample.base; Sample.step_done] [] [] in
  exists r, top_plan_loop 2 th Sample.step_done true = Ret r.
Proof.
  intros th.
  destruct (top_plan_done_is_popped 1 th [Sample.base] Sample.step_done true)
    as (_ & _ & _ & _ & _ & Hreturns); try reflexivity.
  apply Hreturns. subst th. simpl. lia.
Defined.

Lemma WillResume_protocol_witness :
  let th :=
    Sample.thread [Sample.base; Sample.step_a; Sample.faking]
      [Sample.step_b] [] in
  exists th',
    WillResume 3 th eStateStepping = Ret (th', false)
    /\ m_completed_plan_stack th' = []
    /\ m_actual_stop_info_sp th' = Some Sample.breakpoint_hit.
Proof.
  intros th.
  destruct (WillResume_protocol 3 th eStateStepping
              [Sample.base; Sample.step_a] Sample.faking (mkProcess 4))
    as (th' & Hret & Hcompleted & _ & _ & _ & Hinfo & _);
    try reflexivity.
  - apply (bool_decide_unpack _). vm_compute. exact I.
  - exists th'. exact (conj Hret (conj Hcompleted Hinfo)).
Defined.

Lemma GetStopInfo_priority_witness :
  let th :=
    Sample.thread [Sample.base] [Sample.master_done; Sample.private_done] []
  in
  GetStopInfo th
  = Some (CreateStopReasonWithPlan Sample.master_done
            (GetReturnValueObject th)).
Proof.
  intros th.
  apply (proj1 (GetStopInfo_priority th) [] Sample.master_done
           [Sample.private_done]); try reflexivity.
  now repeat constructor.
Defined.

Lemma vote_delegation_witness :
  ShouldReportStop (Sample.held_back [Sample.base; Sample.faking])
  = Ret eVoteNoOpinion
  /\ ShouldReportRun (Sample.thread [Sample.base; Sample.faking] [] [])
     = Ret eVoteYes.
Proof.
  split.
  - apply (proj1 (vote_delegation
                    (Sample.held_back [Sample.base; Sample.faking]))).
    right. left. now left.
  - destruct (vote_delegation
                (Sample.thread [Sample.base; Sample.faking] [] []))
      as (_ & _ & _ & Hrun).
    apply (proj2 (Hrun ltac:(now intros [H|H])) [Sample.base] Sample.faking);
      reflexivity.
Defined.

(** C2 as stated fails: the plan that explains the stop is a master plan that
    is not okay to discard, it is done, and [done_processing_current_plan] is
    true; [ShouldStop] returns its verdict, to stop, although the plan now on
    top would say not to. *)
Lemma master_plan_resolves_the_stop :
  let th :=
    Sample.thread [Sample.quiet_base; Sample.master_done; Sample.step_a]
      [] [] in
  ThreadPlan.PlanExplainsStop Sample.step_a = false
  /\ ThreadPlan.PlanExplainsStop Sample.master_done = true
  /\ ThreadPlan.MischiefManaged Sample.master_done = true
  /\ ThreadPlan.IsMasterPlan Sample.master_done = true
  /\ ThreadPlan.OkayToDiscard Sample.master_done = false
  /\ (exists th' verdict,
        explain_stop 5 th Sample.step_a
        = Ret (th', Sample.quiet_base, verdict, true))
  /\ ThreadPlan.ShouldStop Sample.quiet_base = false
  /\ exists th',
       ShouldStop 5 th = Ret (th', true)
       /\ m_plan_stack th' = [Sample.quiet_base].
Proof.
  intros th. split_and!; try reflexivity.
  - eexists _, _. vm_compute. reflexivity.
  - eexists. split; vm_compute; reflexivity.
Qed.

(** C3 as stated fails: a master plan on top that wants to stop, is not okay
    to discard and is done does not stay on the plan stack; the loop pops it
    into the completed history and ends. *)
Lemma done_master_plan_leaves_the_stack :
  let th := Sample.thread [Sample.base; Sample.master_done] [] [] in
  ThreadPlan.MischiefManaged Sample.master_done = true
  /\ ThreadPlan.ShouldStop Sample.master_done = true
  /\ ThreadPlan.IsMasterPlan Sample.master_done = true
  /\ ThreadPlan.OkayToDiscard Sample.master_done = false
  /\ exists th',
       top_plan_loop 5 th Sample.master_done true
       = Ret (th', Sample.master_done, true)
       /\ m_plan_stack th' = [Sample.base]
       /\ ~ on_stack Sample.master_done (m_plan_stack th')
       /\ m_completed_plan_stack th' = [Sample.master_done].
Proof.
  intros th. split_and!; try reflexivity.
  eexists. split_and!; try (vm_compute; reflexivity).
  vm_compute. intros [H|[]]. discriminate.
Qed.

(** C4 as stated fails: the top plan fakes the resume, and the cached stop
    info is still there after [WillResume]. *)
Lemma faked_resume_keeps_stop_info :
  let th :=
    Sample.thread [Sample.base; Sample.step_a; Sample.faking]
      [Sample.step_b] [] in
  ThreadPlan.WillResume Sample.faking eStateStepping true = false
  /\ exists th',
       WillResume 5 th eStateStepping = Ret (th', false)
       /\ m_actual_stop_info_sp th' = Some Sample.breakpoint_hit
       /\ m_actual_stop_info_sp th' <> None.
Proof.
  intros th. split; [reflexivity|].
  eexists. split_and!; try (vm_compute; reflexivity).
  vm_compute. discriminate.
Qed.

(** C5 as stated fails: the plan-complete stop info is built for the most
    recent completed plan that is not private, which has no return value
    object, and carries the return value object of another plan, the private
    plan completed before it. *)
Lemma GetStopInfo_carries_other_return_value :
  let th :=
    Sample.thread [Sample.base] [Sample.private_done; Sample.step_done] []
  in
  GetCompletedPlan th = Some Sample.step_done
  /\ ThreadPlan.PlanSucceeded Sample.step_done = true
  /\ ThreadPlan.GetReturnValueObject Sample.step_done = None
  /\ ThreadPlan.GetReturnValueObject Sample.private_done = Some 9
  /\ GetStopInfo th
     = Some (CreateStopReasonWithPlan Sample.step_done (Some 9))
  /\ GetStopInfo th
     <> Some (CreateStopReasonWithPlan Sample.step_done
                (ThreadPlan.GetReturnValueObject Sample.step_done)).
Proof.
  intros th. split_and!; try reflexivity.
  vm_compute. discriminate.
Qed.

(** C6 as stated fails: the temporary resume state is suspended, and
    [ShouldReportRun] returns the vote of the top plan. *)
Lemma ShouldReportRun_of_held_back_thread :
  let th := Sample.held_back [Sample.base; Sample.faking] in
  GetTemporaryResumeState th = eStateSuspended
  /\ ShouldReportStop th = Ret eVoteNoOpinion
  /\ ShouldReportRun th = Ret eVoteYes
  /\ ShouldReportRun th <> Ret eVoteNoOpinion.
Proof.
  intros th. split_and!; try reflexivity.
  vm_compute. discriminate.
Qed.

(** * Further properties of Thread.cpp *)

(** ** The history queries *)

Lemma holds_plan_from_app_l (v w : list ThreadPlan.t)
    (plan : option ThreadPlan.t) (n : nat) :
  n <= length v -> holds_plan_from (v ++ w) plan n = holds_plan_from v plan n.
Proof. induction n as [|n IH]; [reflexivity|scan_app_l IH]. Qed.

Lemma holds_plan_from_snoc (v : list ThreadPlan.t) (x : ThreadPlan.t)
    (plan : option ThreadPlan.t) :
  holds_plan_from (v ++ [x]) plan (length (v ++ [x]))
  = if ThreadPlan.same_ptr (Some x) plan then true
    else holds_plan_from v plan (length v).
Proof.
  rewrite length_snoc. cbn [holds_plan_from].
  rewrite lookup_snoc, holds_plan_from_app_l by lia. reflexivity.
Qed.

Lemma on_stack_snoc (p x : ThreadPlan.t) (v : list ThreadPlan.t) :
  on_stack p (v ++ [x]) <-> on_stack p v \/ ThreadPlan.same x p = true.
Proof.
  unfold on_stack, ThreadPlan.same. rewrite map_app, in_app_iff. simpl.
  rewrite Nat.eqb_eq. tauto.
Qed.

Lemma holds_plan_from_on_stack (v : list ThreadPlan.t) (p : ThreadPlan.t) :
  holds_plan_from v (Some p) (length v) = true <-> on_stack p v.
Proof.
  induction v as [|x v IH] using rev_ind.
  - simpl. unfold on_stack. simpl. split; [discriminate|tauto].
  - rewrite holds_plan_from_snoc, on_stack_snoc. cbn [ThreadPlan.same_ptr].
    destruct (ThreadPlan.same x p); [tauto|].
    rewrite IH. split; [tauto|]. now intros [H|H].
Qed.

Lemma holds_plan_from_NULL (v : list ThreadPlan.t) (n : nat) :
  holds_plan_from v None n = false.
Proof.
  induction n as [|n IH]; [reflexivity|]. simpl. now destruct (v !! n).
Qed.

(** X1.  [IsThreadPlanDone] answers true exactly for the plan pointers that
    the completed history holds, and [WasThreadPlanDiscarded] exactly for
    those that the discarded history holds; both answer false for NULL. *)
Theorem history_queries_are_membership (th : Thread.t) (p : ThreadPlan.t) :
  (IsThreadPlanDone th (Some p) = true
   <-> on_stack p (m_completed_plan_stack th))
  /\ (WasThreadPlanDiscarded th (Some p) = true
      <-> on_stack p (m_discarded_plan_stack th))
  /\ IsThreadPlanDone th None = false
  /\ WasThreadPlanDiscarded th None = false.
Proof.
  unfold IsThreadPlanDone, WasThreadPlanDiscarded. split_and!.
  - apply holds_plan_from_on_stack.
  - apply holds_plan_from_on_stack.
  - apply holds_plan_from_NULL.
  - apply holds_plan_from_NULL.
Qed.

(** X2.  On a stack with a plan [top] above at least one other plan,
    [PopPlan] makes [top] a done plan and leaves the answers of
    [WasThreadPlanDiscarded] as they were; [DiscardPlan] makes it a discarded
    plan and leaves the answers of [IsThreadPlanDone] as they were.  Neither
    forgets a plan that was done or discarded before. *)
Theorem popped_plan_is_done_discarded_plan_is_not (th : Thread.t)
    (lower : list ThreadPlan.t) (top : ThreadPlan.t) :
  m_plan_stack th = lower ++ [top] ->
  lower <> [] ->
  IsThreadPlanDone (PopPlan th) (Some top) = true
  /\ WasThreadPlanDiscarded (DiscardPlan th) (Some top) = true
  /\ (forall q, WasThreadPlanDiscarded (PopPlan th) q
                = WasThreadPlanDiscarded th q)
  /\ (forall q, IsThreadPlanDone (DiscardPlan th) q = IsThreadPlanDone th q)
  /\ (forall q, IsThreadPlanDone th q = true ->
                IsThreadPlanDone (PopPlan th) q = true)
  /\ (forall q, WasThreadPlanDiscarded th q = true ->
                WasThreadPlanDiscarded (DiscardPlan th) q = true).
Proof.
  intros Hstack Hlower.
  destruct th as [pr si id v c d rs ts gp cl]. cbn [m_plan_stack] in Hstack.
  subst v. rewrite PopPlan_snoc, DiscardPlan_snoc by exact Hlower.
  unfold IsThreadPlanDone, WasThreadPlanDiscarded. thread_fields.
  split_and!; try reflexivity.
  - rewrite holds_plan_from_snoc. cbn [ThreadPlan.same_ptr].
    now rewrite same_refl.
  - rewrite holds_plan_from_snoc. cbn [ThreadPlan.same_ptr].
    now rewrite same_refl.
  - intros q Hq. rewrite holds_plan_from_snoc, Hq. now case_match.
  - intros q Hq. rewrite holds_plan_from_snoc, Hq. now case_match.
Qed.

Lemma popped_plan_is_done_discarded_plan_is_not_witness :
  let th := Sample.thread [Sample.base; Sample.step_a] [] [] in
  IsThreadPlanDone (PopPlan th) (Some Sample.step_a) = true
  /\ WasThreadPlanDiscarded (PopPlan th) (Some Sample.step_a) = false.
Proof.
  intros th.
  destruct (popped_plan_is_done_discarded_plan_is_not th [Sample.base]
              Sample.step_a) as (Hdone & _ & Hsame & _);
    [reflexivity|discriminate|].
  split; [exact Hdone|]. rewrite Hsame. reflexivity.
Defined.

(** ** Pushing and queueing plans *)

(** The plan object as [PushPlan] leaves it: a plan that has no tracer gets
    the tracer of the plan that was on top. *)
Definition with_parent_tracer (p top : ThreadPlan.t) : ThreadPlan.t :=
  match ThreadPlan.GetThreadPlanTracer p with
  | Some _ => p
  | None =>
      ThreadPlan.SetThreadPlanTracer p (ThreadPlan.GetThreadPlanTracer top)
  end.

Lemma with_parent_tracer_addr (p top : ThreadPlan.t) :
  ThreadPlan.addr (with_parent_tracer p top) = ThreadPlan.addr p.
Proof. unfold with_parent_tracer. now destruct (ThreadPlan.GetThreadPlanTracer p). Qed.

Lemma PushPlan_snoc pr si id lower top p c d rs ts gp cl :
  PushPlan (Thread.mk pr si id (lower ++ [top]) c d rs ts gp cl) (Some p)
  = Ret (Thread.mk pr si id ((lower ++ [top]) ++ [with_parent_tracer p top])
           c d rs ts gp
           (cl ++ [CallDidPush (ThreadPlan.addr p)])).
Proof.
  unfold PushPlan, with_parent_tracer. thread_fields.
  rewrite last_snoc'.
  now destruct (ThreadPlan.GetThreadPlanTracer p).
Qed.

(** X3.  [PushPlan] of a plan on a stack whose top is [top] puts the plan
    on top, so that [GetCurrentPlan] returns it; the plan keeps its own
    tracer or, if it has none, inherits the tracer of [top]; the histories
    are not touched.  A following [PopPlan] gives back the stack as it was
    and records the plan as completed, a following [DiscardPlan] records it
    as discarded.  Pushing NULL does nothing, and pushing a plan without a
    tracer on an empty stack is a fault. *)
Theorem PushPlan_then_pop (th : Thread.t) (lower : list ThreadPlan.t)
    (top p : ThreadPlan.t) :
  m_plan_stack th = lower ++ [top] ->
  let p' := with_parent_tracer p top in
  (exists th',
     PushPlan th (Some p) = Ret th'
     /\ m_plan_stack th' = m_plan_stack th ++ [p']
     /\ GetCurrentPlan th' = Ret p'
     /\ ThreadPlan.addr p' = ThreadPlan.addr p
     /\ m_completed_plan_stack th' = m_completed_plan_stack th
     /\ m_discarded_plan_stack th' = m_discarded_plan_stack th
     /\ m_plan_stack (PopPlan th') = m_plan_stack th
     /\ m_completed_plan_stack (PopPlan th')
        = m_completed_plan_stack th ++ [p']
     /\ m_plan_stack (DiscardPlan th') = m_plan_stack th
     /\ m_discarded_plan_stack (DiscardPlan th')
        = m_discarded_plan_stack th ++ [p'])
  /\ PushPlan th None = Ret th
  /\ (ThreadPlan.GetThreadPlanTracer p = None ->
      PushPlan (set_plan_stack [] th) (Some p) = Fault).
Proof.
  intros Hstack p'.
  destruct th as [pr si id v c d rs ts gp cl]. cbn [m_plan_stack] in Hstack.
  subst v. split_and!.
  - rewrite PushPlan_snoc. fold p'. eexists. split; [reflexivity|].
    assert (Hne : lower ++ [top] <> []) by now destruct lower.
    rewrite PopPlan_snoc, DiscardPlan_snoc by exact Hne.
    unfold GetCurrentPlan. thread_fields. rewrite last_snoc'.
    split_and!; try reflexivity.
    apply with_parent_tracer_addr.
  - reflexivity.
  - intros Hnone. unfold PushPlan. thread_fields. now rewrite Hnone.
Qed.

Lemma PushPlan_then_pop_witness :
  let th := Sample.thread [Sample.base; Sample.step_a] [] [] in
  exists th',
    PushPlan th (Some Sample.invalid) = Ret th'
    /\ GetCurrentPlan th'
       = Ret (ThreadPlan.SetThreadPlanTracer Sample.invalid (Some 0))
    /\ m_plan_stack (PopPlan th') = [Sample.base; Sample.step_a].
Proof.
  intros th.
  destruct (PushPlan_then_pop th [Sample.base] Sample.step_a Sample.invalid)
    as ((th' & Hpush & _ & Hcur & _ & _ & _ & Hpop & _) & _);
    [reflexivity|].
  exists th'. exact (conj Hpush (conj Hcur Hpop)).
Defined.

(** X4.  [QueueThreadPlan] with [abort_other_plans] on a stack
    [base :: rest] discards [rest] from the top down and leaves exactly the
    bottom plan and the new plan, which inherits the tracer of the bottom
    plan if it has none.  A plan that validates is queued this way by
    [QueueThreadPlanForStepOut] and [QueueThreadPlanForStepThrough], which
    return the plan that is then on top. *)
Theorem QueueThreadPlan_aborts_the_others (th : Thread.t)
    (base p : ThreadPlan.t) (rest : list ThreadPlan.t) :
  m_plan_stack th = base :: rest ->
  let p' := with_parent_tracer p base in
  exists th',
    QueueThreadPlan th (Some p) true = Ret th'
    /\ m_plan_stack th' = [base; p']
    /\ m_discarded_plan_stack th' = m_discarded_plan_stack th ++ rev rest
    /\ m_completed_plan_stack th' = m_completed_plan_stack th
    /\ calls th'
       = calls th ++ will_pop_calls rest
         ++ [CallDidPush (ThreadPlan.addr p)]
    /\ (ThreadPlan.ValidatePlan p = true ->
        QueueThreadPlanForStepOut th true p = Ret (th', Some p')
        /\ QueueThreadPlanForStepThrough th true (Some p)
           = Ret (th', Some p')).
Proof.
  intros Hstack p'.
  destruct th as [pr si id v c d rs ts gp cl]. cbn [m_plan_stack] in Hstack.
  subst v.
  assert (Hqueue :
    QueueThreadPlan (Thread.mk pr si id (base :: rest) c d rs ts gp cl)
      (Some p) true
    = Ret (Thread.mk pr si id [base; p'] c (d ++ rev rest) rs ts gp
             ((cl ++ will_pop_calls rest)
              ++ [CallDidPush (ThreadPlan.addr p)]))).
  { unfold QueueThreadPlan, DiscardThreadPlans. cbn [m_plan_stack bind].
    rewrite discard_loop_all.
    apply (PushPlan_snoc pr si id [] base p). }
  eexists. split; [exact Hqueue|]. thread_fields.
  split_and!; try reflexivity.
  - now rewrite <- app_assoc.
  - intros Hvalid.
    unfold QueueThreadPlanForStepOut, QueueThreadPlanForStepThrough.
    rewrite Hvalid, Hqueue. cbn [negb bind]. thread_fields.
    now split.
Qed.

Lemma QueueThreadPlan_aborts_the_others_witness :
  let th :=
    Sample.thread [Sample.base; Sample.step_a; Sample.step_b] [] [] in
  exists th',
    QueueThreadPlanForStepOut th true Sample.step_done
    = Ret (th', Some Sample.step_done)
    /\ m_plan_stack th' = [Sample.base; Sample.step_done]
    /\ m_discarded_plan_stack th' = [Sample.step_b; Sample.step_a].
Proof.
  intros th.
  destruct (QueueThreadPlan_aborts_the_others th Sample.base Sample.step_done
              [Sample.step_a; Sample.step_b])
    as (th' & _ & Hstack & Hdiscarded & _ & _ & Hvalid); [reflexivity|].
  exists th'.
  exact (conj (proj1 (Hvalid eq_refl)) (conj Hstack Hdiscarded)).
Defined.

(** ** Discarding up to a plan that is on the stack *)

Lemma find_up_to_true (v : list ThreadPlan.t) (up_to : ThreadPlan.t)
    (i : nat) :
  find_up_to v up_to i true = true.
Proof.
  induction i as [|i IH]; [reflexivity|]. simpl.
  destruct (v !! S i) as [p|]; [|exact IH].
  now destruct (ThreadPlan.same p up_to).
Qed.

Lemma find_up_to_found (v : list ThreadPlan.t) (up_to : ThreadPlan.t)
    (i k : nat) (found_it : bool) :
  v !! S k = Some up_to -> S k <= i -> find_up_to v up_to i found_it = true.
Proof.
  intros Hk. revert found_it.
  induction i as [|i IH]; intros found_it Hle; [lia|]. simpl.
  destruct (decide (i = k)) as [->|Hne].
  - rewrite Hk, same_refl. apply find_up_to_true.
  - apply IH. lia.
Qed.

Lemma find_up_to_bottom (v : list ThreadPlan.t) (up_to : ThreadPlan.t)
    (i : nat) :
  distinct v -> v !! 0 = Some up_to -> find_up_to v up_to i false = false.
Proof.
  intros Hd H0. induction i as [|i IH]; [reflexivity|]. simpl.
  destruct (v !! S i) as [p|] eqn:Hp; [|exact IH].
  destruct (ThreadPlan.same p up_to) eqn:Hs; [|exact IH].
  now pose proof (distinct_lookup v (S i) 0 p up_to Hd Hp H0 Hs).
Qed.

Lemma distinct_middle_ne (l r : list ThreadPlan.t) (a x : ThreadPlan.t) :
  distinct (l ++ a :: r ++ [x]) -> ThreadPlan.same x a = false.
Proof.
  intros Hd. apply not_true_is_false. intros Hs.
  assert (Hi : (l ++ a :: r ++ [x]) !! (length l + S (length r)) = Some x).
  { rewrite lookup_app_r by lia.
    replace (length l + S (length r) - length l) with (S (length r)) by lia.
    cbn [lookup list_lookup]. apply lookup_snoc. }
  pose proof (distinct_lookup _ _ _ _ _ Hd Hi (lookup_middle' l _ a) Hs).
  lia.
Qed.

Lemma discard_up_to_spec (i : nat)
    pr si id lower target above c d rs ts gp cl :
  lower <> [] ->
  distinct (lower ++ target :: above) ->
  length above < i ->
  discard_up_to i false target
    (Thread.mk pr si id (lower ++ target :: above) c d rs ts gp cl)
  = Ret (Thread.mk pr si id lower c (d ++ rev (target :: above)) rs ts gp
           (cl ++ will_pop_calls (target :: above))).
Proof.
  intros Hlower. revert i d cl.
  induction above as [|x above IH] using rev_ind; intros i d cl Hd Hi;
    (destruct i as [|i]; [lia|]); cbn [discard_up_to].
  - unfold GetCurrentPlan. thread_fields. rewrite last_snoc'. cbn [bind].
    rewrite same_refl, DiscardPlan_snoc by exact Hlower.
    unfold will_pop_calls. now destruct i.
  - unfold GetCurrentPlan. thread_fields.
    rewrite snoc_cons_app, last_snoc'. cbn [bind].
    rewrite (distinct_middle_ne _ _ _ _ Hd).
    rewrite DiscardPlan_snoc by (now destruct lower).
    rewrite snoc_cons_app in Hd. apply distinct_app_l in Hd.
    rewrite length_snoc in Hi.
    rewrite IH by (exact Hd || lia).
    unfold will_pop_calls. rewrite app_comm_cons, !rev_unit. cbn [map].
    now rewrite <- !app_assoc.
Qed.

(** X5.  On a stack that holds no plan twice, [DiscardThreadPlansUpToPlan]
    with a target that sits above the bottom plan discards every plan from
    the top down through the target, each after its [WillPop], and leaves
    the plans below it; the completed history is not touched.  With the
    bottom plan as target it does nothing, and with NULL it discards
    everything above the bottom plan. *)
Theorem DiscardThreadPlansUpToPlan_on_stack (th : Thread.t)
    (lower above : list ThreadPlan.t) (target : ThreadPlan.t) :
  m_plan_stack th = lower ++ target :: above ->
  distinct (m_plan_stack th) ->
  (lower <> [] ->
   exists th',
     DiscardThreadPlansUpToPlan th (Some target) = Ret th'
     /\ m_plan_stack th' = lower
     /\ m_discarded_plan_stack th'
        = m_discarded_plan_stack th ++ rev (target :: above)
     /\ m_completed_plan_stack th' = m_completed_plan_stack th
     /\ calls th' = calls th ++ will_pop_calls (target :: above))
  /\ (lower = [] ->
      DiscardThreadPlansUpToPlan th (Some target) = Ret th
      /\ exists th',
           DiscardThreadPlansUpToPlan th None = Ret th'
           /\ m_plan_stack th' = [target]
           /\ m_discarded_plan_stack th'
              = m_discarded_plan_stack th ++ rev above).
Proof.
  intros Hstack Hd.
  destruct th as [pr si id v c d rs ts gp cl].
  cbn [m_plan_stack] in Hstack, Hd. subst v. split.
  - intros Hlower. unfold DiscardThreadPlansUpToPlan. cbn [m_plan_stack].
    assert (Hlen : length (lower ++ target :: above) - 1
                   = length lower + length above).
    { rewrite length_app. cbn [length]. lia. }
    rewrite Hlen.
    rewrite (find_up_to_found _ target _ (length lower - 1)).
    + rewrite discard_up_to_spec; try assumption.
      * eexists. split; [reflexivity|]. now split_and!.
      * destruct lower; [congruence|]. cbn [length]. lia.
    + destruct lower as [|b lower]; [congruence|]. cbn [length].
      rewrite Nat.sub_succ, Nat.sub_0_r.
      change (S (length lower)) with (length (b :: lower)).
      apply lookup_middle'.
    + destruct lower; [congruence|]. cbn [length]. lia.
  - intros ->. cbn [app] in *. split.
    + unfold DiscardThreadPlansUpToPlan. cbn [m_plan_stack].
      now rewrite find_up_to_bottom.
    + unfold DiscardThreadPlansUpToPlan. cbn [m_plan_stack].
      rewrite discard_loop_all. eexists. split; [reflexivity|].
      now split.
Qed.

Lemma DiscardThreadPlansUpToPlan_on_stack_witness :
  let th :=
    Sample.thread
      [Sample.base; Sample.step_done; Sample.step_b; Sample.step_a] [] [] in
  exists th',
    DiscardThreadPlansUpToPlan th (Some Sample.step_b) = Ret th'
    /\ m_plan_stack th' = [Sample.base; Sample.step_done]
    /\ m_discarded_plan_stack th' = [Sample.step_a; Sample.step_b].
Proof.
  intros th.
  destruct (DiscardThreadPlansUpToPlan_on_stack th
              [Sample.base; Sample.step_done] [Sample.step_a] Sample.step_b)
    as [Hfound _]; [reflexivity|exact distinct_sample|].
  destruct (Hfound ltac:(discriminate))
    as (th' & Hret & Hstack & Hdiscarded & _).
  exists th'. exact (conj Hret (conj Hstack Hdiscarded)).
Defined.

(** ** Where the plans go *)

(** The fields of the thread that are neither a plan vector nor the call
    log are the same in [th'] as in [th]. *)
Definition same_context (th th' : Thread.t) : Prop :=
  m_process_wp th' = m_process_wp th
  /\ m_actual_stop_info_sp th' = m_actual_stop_info_sp th
  /\ m_thread_stop_reason_stop_id th' = m_thread_stop_reason_stop_id th
  /\ m_resume_state th' = m_resume_state th
  /\ m_temporary_resume_state th' = m_temporary_resume_state th
  /\ GetPrivateStopReason th' = GetPrivateStopReason th.

(** From [th] to [th'] the plans [popped] left the top of the plan stack,
    each for the end of the discarded history in the order in which it left,
    after its [WillPop]; nothing else changed. *)
Definition discards_to (th th' : Thread.t) : Prop :=
  exists popped,
    m_plan_stack th = m_plan_stack th' ++ popped
    /\ m_discarded_plan_stack th' = m_discarded_plan_stack th ++ rev popped
    /\ m_completed_plan_stack th' = m_completed_plan_stack th
    /\ calls th' = calls th ++ will_pop_calls popped
    /\ same_context th th'.

Lemma same_context_refl (th : Thread.t) : same_context th th.
Proof. unfold same_context. now split_and!. Qed.

Lemma same_context_trans (a b c : Thread.t) :
  same_context a b -> same_context b c -> same_context a c.
Proof.
  unfold same_context.
  intros (H1 & H2 & H3 & H4 & H5 & H6) (K1 & K2 & K3 & K4 & K5 & K6).
  split_and!; congruence.
Qed.

Lemma discards_to_refl (th : Thread.t) : discards_to th th.
Proof.
  exists []. unfold will_pop_calls. simpl. rewrite !app_nil_r.
  split_and!; try reflexivity. apply same_context_refl.
Qed.

Lemma discards_to_trans (a b c : Thread.t) :
  discards_to a b -> discards_to b c -> discards_to a c.
Proof.
  intros (p1 & Hs1 & Hd1 & Hc1 & Hl1 & Hx1) (p2 & Hs2 & Hd2 & Hc2 & Hl2 & Hx2).
  exists (p2 ++ p1). split_and!.
  - now rewrite Hs1, Hs2, app_assoc.
  - now rewrite Hd2, Hd1, rev_app_distr, app_assoc.
  - congruence.
  - rewrite Hl2, Hl1. unfold will_pop_calls.
    now rewrite rev_app_distr, map_app, app_assoc.
  - eapply same_context_trans; eassumption.
Qed.

Lemma DiscardPlan_discards (th : Thread.t) : discards_to th (DiscardPlan th).
Proof.
  destruct th as [pr si id v c d rs ts gp cl].
  destruct (snoc_cases v) as [->|(k & x & ->)].
  - rewrite DiscardPlan_base by (simpl; lia). apply discards_to_refl.
  - destruct k as [|b k].
    + rewrite DiscardPlan_base by (simpl; lia). apply discards_to_refl.
    + rewrite DiscardPlan_snoc by discriminate.
      exists [x]. thread_fields. split_and!; try reflexivity.
      unfold same_context. now split_and!.
Qed.

Lemma discard_loop_discards (n : nat) (th : Thread.t) :
  discards_to th (discard_loop n th).
Proof.
  revert th. induction n as [|n IH]; intros th; simpl.
  - apply discards_to_refl.
  - eapply discards_to_trans; [apply DiscardPlan_discards|apply IH].
Qed.

Lemma discard_up_to_discards (i : nat) (last_one : bool)
    (up_to : ThreadPlan.t) (th th' : Thread.t) :
  discard_up_to i last_one up_to th = Ret th' -> discards_to th th'.
Proof.
  revert last_one th. induction i as [|i IH]; intros last_one th; simpl.
  - intros [= <-]. apply discards_to_refl.
  - destruct last_one.
    + intros [= <-]. apply discards_to_refl.
    + destruct (GetCurrentPlan th) as [cur| |]; simpl; try discriminate.
      intros H. eapply discards_to_trans; [apply DiscardPlan_discards|].
      eapply IH, H.
Qed.

Lemma DiscardThreadPlansUpToPlan_discards (th th' : Thread.t)
    (up_to_plan_ptr : option ThreadPlan.t) :
  DiscardThreadPlansUpToPlan th up_to_plan_ptr = Ret th' ->
  discards_to th th'.
Proof.
  unfold DiscardThreadPlansUpToPlan.
  destruct up_to_plan_ptr as [up_to|].
  - destruct (find_up_to _ _ _ _).
    + apply discard_up_to_discards.
    + intros [= <-]. apply discards_to_refl.
  - intros [= <-]. apply discard_loop_discards.
Qed.

Lemma discard_round_discards (uninit : bool) (th th' : Thread.t) :
  discard_round uninit th = Some th' -> discards_to th th'.
Proof.
  unfold discard_round.
  destruct (find_master_plan _ _) as [idx assigned].
  destruct (match assigned with Some b => b | None => uninit end);
    [|discriminate].
  intros [= <-]. set (n := Z.to_nat _).
  destruct (0 <? idx)%Z; [|apply discard_loop_discards].
  eapply discards_to_trans;
    [apply discard_loop_discards|apply DiscardPlan_discards].
Qed.

Lemma discard_rounds_discards (fuel : nat) (uninit : bool)
    (th th' : Thread.t) :
  discard_rounds fuel uninit th = Ret th' -> discards_to th th'.
Proof.
  revert th. induction fuel as [|fuel IH]; intros th; simpl; [discriminate|].
  destruct (discard_round uninit th) as [th1|] eqn:Hround.
  - intros H. eapply discards_to_trans;
      [eapply discard_round_discards, Hround|apply IH, H].
  - intros [= <-]. apply discards_to_refl.
Qed.

(** X6.  Whatever [DiscardPlan], [DiscardThreadPlansUpToPlan] (any target)
    and [DiscardThreadPlans] (forced or not) return, the plans that left the
    plan stack left it from the top and stand at the end of the discarded
    history in the order in which they left, each after one [WillPop]; the
    completed history, the stop info and the resume states are as they
    were. *)
Theorem discard_family_fills_discarded_history (th : Thread.t) :
  discards_to th (DiscardPlan th)
  /\ (forall up_to_plan_ptr th',
        DiscardThreadPlansUpToPlan th up_to_plan_ptr = Ret th' ->
        discards_to th th')
  /\ (forall fuel uninit force th',
        DiscardThreadPlans fuel uninit th force = Ret th' ->
        discards_to th th').
Proof.
  split_and!.
  - apply DiscardPlan_discards.
  - intros up th'. apply DiscardThreadPlansUpToPlan_discards.
  - intros fuel uninit [] th'; simpl.
    + intros [= <-]. apply discard_loop_discards.
    + apply discard_rounds_discards.
Qed.

Lemma discard_family_fills_discarded_history_witness :
  let th :=
    Sample.thread [Sample.base; Sample.step_done; Sample.step_a]
      [Sample.step_b] [] in
  exists th',
    DiscardThreadPlansUpToPlan th (Some Sample.step_done) = Ret th'
    /\ discards_to th th'.
Proof.
  intros th. eexists. split; [reflexivity|].
  apply (proj1 (proj2 (discard_family_fills_discarded_history th))
           (Some Sample.step_done)).
  reflexivity.
Defined.

(** ** DiscardThreadPlans without force, down to a master plan that stays *)

(** The plans above a master plan that stays: [deps], the plans directly
    above it that are not master plans, then [gone], which is empty or
    begins with a master plan. *)
Definition dependents_then (rest deps gone : list ThreadPlan.t) : Prop :=
  rest = deps ++ gone
  /\ Forall (fun p => ThreadPlan.IsMasterPlan p = false) deps
  /\ (gone = []
      \/ exists m' gone',
           gone = m' :: gone' /\ ThreadPlan.IsMasterPlan m' = true).

Lemma discard_rounds_result (fuel : nat) (uninit : bool)
    pr si id lower m rest c d rs ts gp cl :
  ThreadPlan.IsMasterPlan m = true ->
  ThreadPlan.OkayToDiscard m = false ->
  Forall (fun p => ThreadPlan.IsMasterPlan p = true ->
                   ThreadPlan.OkayToDiscard p = true) rest ->
  length rest < fuel ->
  exists deps gone,
    dependents_then rest deps gone
    /\ discard_rounds fuel uninit
         (Thread.mk pr si id (lower ++ m :: rest) c d rs ts gp cl)
       = Ret (Thread.mk pr si id (lower ++ m :: deps) c (d ++ rev gone)
                rs ts gp (cl ++ will_pop_calls gone)).
Proof.
  intros Hm Hkeep. revert rest d cl.
  induction fuel as [|fuel IH]; intros rest d cl Hrest Hfuel; [lia|].
  cbn [discard_rounds].
  destruct (topmost_master rest)
    as [Hnone|(below & m' & deps' & -> & Hm' & Hdeps')].
  - exists rest, []. split.
    + unfold dependents_then. rewrite app_nil_r. split_and!; auto.
    + unfold discard_round. thread_fields.
      rewrite (find_master_plan_found lower rest m Hm Hnone), Hkeep.
      unfold will_pop_calls. simpl. now rewrite !app_nil_r.
  - apply Forall_app in Hrest as [Hbelow Hrest].
    pose proof (Forall_inv Hrest Hm') as Hokay.
    assert (Hround :
      discard_round uninit
        (Thread.mk pr si id (lower ++ m :: below ++ m' :: deps')
           c d rs ts gp cl)
      = Some (Thread.mk pr si id (lower ++ m :: below) c
                (d ++ rev (m' :: deps')) rs ts gp
                (cl ++ will_pop_calls (m' :: deps')))).
    { unfold discard_round. thread_fields.
      replace (lower ++ m :: below ++ m' :: deps')
        with ((lower ++ m :: below) ++ m' :: deps')
        by now rewrite <- app_assoc.
      rewrite (find_master_plan_found _ deps' m' Hm' Hdeps'), Hokay.
      replace (Z.to_nat _) with (length deps')
        by (repeat first [rewrite length_app|progress cbn [length]]; lia).
      replace ((lower ++ m :: below) ++ m' :: deps')
        with (((lower ++ m :: below) ++ [m']) ++ deps')
        by now rewrite <- !app_assoc.
      rewrite discard_loop_app by (now destruct (lower ++ m :: below)).
      replace (0 <? Z.of_nat (length (lower ++ m :: below)))%Z with true
        by (symmetry; apply Z.ltb_lt; rewrite length_app; cbn [length]; lia).
      rewrite DiscardPlan_snoc by (now destruct lower).
      unfold will_pop_calls. cbn [rev]. rewrite map_app. cbn [map].
      now rewrite <- !app_assoc. }
    rewrite Hround.
    destruct (IH below (d ++ rev (m' :: deps'))
                (cl ++ will_pop_calls (m' :: deps')) Hbelow)
      as (deps & gone & (-> & Hdeps & Hgone) & ->).
    { rewrite length_app in Hfuel. cbn [length] in Hfuel. lia. }
    exists deps, (gone ++ m' :: deps'). split.
    + unfold dependents_then. split_and!.
      * now rewrite <- app_assoc.
      * exact Hdeps.
      * right. destruct Hgone as [->|(m2 & gone2 & -> & Hm2)].
        -- now exists m', deps'.
        -- now exists m2, (gone2 ++ m' :: deps').
    + unfold will_pop_calls. rewrite !rev_app_distr, !map_app.
      now rewrite <- !app_assoc.
Qed.




(** X7.  When the plan stack holds a master plan [m] that is not okay to
    discard and every master plan above it is okay to discard,
    [DiscardThreadPlans(false)] returns, with fuel for each plan above [m]:
    it keeps [m], the plans below it and the plans directly above it that
    are not master plans, and discards everything from the first master
    plan above [m] to the top, from the top down.  The completed history is
    not touched. *)
Theorem DiscardThreadPlans_stops_at_committed_master (fuel : nat)
    (uninit : bool) (th : Thread.t) (lower rest : list ThreadPlan.t)
    (m : ThreadPlan.t) :
  m_plan_stack th = lower ++ m :: rest ->
  ThreadPlan.IsMasterPlan m = true ->
  ThreadPlan.OkayToDiscard m = false ->
  Forall (fun p => ThreadPlan.IsMasterPlan p = true ->
                   ThreadPlan.OkayToDiscard p = true) rest ->
  length rest < fuel ->
  exists th' deps gone,
    dependents_then rest deps gone
    /\ DiscardThreadPlans fuel uninit th false = Ret th'
    /\ m_plan_stack th' = lower ++ m :: deps
    /\ m_discarded_plan_stack th' = m_discarded_plan_stack th ++ rev gone
    /\ m_completed_plan_stack th' = m_completed_plan_stack th
    /\ calls th' = calls th ++ will_pop_calls gone.
Proof.
  intros Hstack Hm Hkeep Hrest Hfuel.
  destruct th as [pr si id v c d rs ts gp cl]. cbn [m_plan_stack] in Hstack.
  subst v.
  destruct (discard_rounds_result fuel uninit pr si id lower m rest c d rs ts
              gp cl Hm Hkeep Hrest Hfuel) as (deps & gone & Hsplit & Hret).
  eexists _, deps, gone. split; [exact Hsplit|].
  split; [exact Hret|]. now split_and!.
Qed.

Lemma DiscardThreadPlans_stops_at_committed_master_witness :
  let abandoned := Sample.plan 108 false true true false false false false None
  in
  let th :=
    Sample.thread [Sample.base; Sample.step_a; abandoned; Sample.step_b] [] []
  in
  exists th',
    DiscardThreadPlans 4 false th false = Ret th'
    /\ m_plan_stack th' = [Sample.base; Sample.step_a]
    /\ m_discarded_plan_stack th' = [Sample.step_b; abandoned].
Proof.
  intros abandoned th.
  destruct (DiscardThreadPlans_stops_at_committed_master 4 false th []
              [Sample.step_a; abandoned; Sample.step_b] Sample.base)
    as (th' & deps & gone & _ & Hret & _); try reflexivity.
  - repeat constructor; discriminate.
  - subst th. simpl. lia.
  - exists th'. split; [exact Hret|].
    vm_compute in Hret. injection Hret as <-. now split.
Defined.

(** ** GetPreviousPlan *)

Lemma not_on_stack_lookup (v : list ThreadPlan.t) (p q : ThreadPlan.t)
    (i : nat) :
  ~ on_stack p v -> v !! i = Some q -> ThreadPlan.same q p = false.
Proof.
  intros Habs Hq. apply Nat.eqb_neq. intros Heq. apply Habs.
  unfold on_stack. rewrite <- Heq. apply in_map.
  apply list_elem_of_In. eapply list_elem_of_lookup_2, Hq.
Qed.

(** X8.  [GetPreviousPlan] walks one step down.  On a plan stack that holds
    no plan twice, the previous plan of the plan at index [k + 1] is the plan
    at index [k], and the bottom plan has none, for plans that are not in
    the completed history.  In a completed history that holds no plan twice,
    the previous plan of the entry at index [i + 1] is the entry at index
    [i], and the previous plan of the entry at index 0 is the plan on top of
    the plan stack.  NULL and a plan that is in neither vector have no
    previous plan. *)
Theorem GetPreviousPlan_walks_down (th : Thread.t) :
  GetPreviousPlan th None = None
  /\ (distinct (m_plan_stack th) ->
      forall k p,
        m_plan_stack th !! k = Some p ->
        ~ on_stack p (m_completed_plan_stack th) ->
        GetPreviousPlan th (Some p)
        = match k with 0 => None | S j => m_plan_stack th !! j end)
  /\ (distinct (m_completed_plan_stack th) ->
      forall i p,
        m_completed_plan_stack th !! i = Some p ->
        GetPreviousPlan th (Some p)
        = match i with
          | 0 => last (m_plan_stack th)
          | S j => m_completed_plan_stack th !! j
          end)
  /\ (forall p,
        ~ on_stack p (m_completed_plan_stack th) ->
        ~ on_stack p (m_plan_stack th) ->
        GetPreviousPlan th (Some p) = None).
Proof.
  split_and!.
  - reflexivity.
  - intros Hd k p Hk Habs. now apply GetPreviousPlan_at.
  - intros Hd i p Hi. unfold GetPreviousPlan.
    destruct i as [|j].
    + rewrite (previous_in_bottom _ _ _ Hd Hi), Hi. now rewrite same_refl.
    + rewrite (previous_in_at _ p _ j Hd Hi)
        by (apply lookup_lt_Some in Hi; lia).
      assert (Hj : is_Some (m_completed_plan_stack th !! j)).
      { apply lookup_lt_is_Some. apply lookup_lt_Some in Hi. lia. }
      now destruct Hj as [q ->].
  - intros p Hc Hs. unfold GetPreviousPlan.
    rewrite (previous_in_absent _ _ _ Hc).
    destruct (m_completed_plan_stack th !! 0) as [q|] eqn:Hq.
    + rewrite (not_on_stack_lookup _ _ _ _ Hc Hq).
      now apply previous_in_absent.
    + now apply previous_in_absent.
Qed.

Lemma GetPreviousPlan_walks_down_witness :
  let th :=
    Sample.thread [Sample.base; Sample.step_done]
      [Sample.step_a; Sample.step_b] [] in
  GetPreviousPlan th (Some Sample.step_b) = Some Sample.step_a
  /\ GetPreviousPlan th (Some Sample.step_a) = Some Sample.step_done
  /\ GetPreviousPlan th (Some Sample.step_done) = Some Sample.base
  /\ GetPreviousPlan th (Some Sample.base) = None.
Proof.
  intros th.
  destruct (GetPreviousPlan_walks_down th) as (_ & Hactive & Hcompleted & _).
  assert (Hd1 : distinct (m_plan_stack th))
    by (apply (bool_decide_unpack _); vm_compute; exact I).
  assert (Hd2 : distinct (m_completed_plan_stack th))
    by (apply (bool_decide_unpack _); vm_compute; exact I).
  assert (Hfresh : forall p, In (ThreadPlan.addr p) [100; 103] ->
                             ~ on_stack p (m_completed_plan_stack th)).
  { intros p Hp Hq. unfold on_stack in Hq. simpl in Hp, Hq.
    destruct Hp as [Hp|[Hp|[]]]; rewrite <- Hp in Hq;
      destruct Hq as [Hq|[Hq|[]]]; discriminate Hq. }
  split_and!.
  - exact (Hcompleted Hd2 1 Sample.step_b eq_refl).
  - exact (Hcompleted Hd2 0 Sample.step_a eq_refl).
  - apply (Hactive Hd1 1 Sample.step_done eq_refl).
    apply Hfresh. simpl. tauto.
  - apply (Hactive Hd1 0 Sample.base eq_refl).
    apply Hfresh. simpl. tauto.
Defined.

(** ** WillResume and the previous stop *)

(** [th'] differs from [th] by its call log at most. *)
Definition only_calls (th th' : Thread.t) : Prop :=
  m_plan_stack th' = m_plan_stack th
  /\ m_completed_plan_stack th' = m_completed_plan_stack th
  /\ m_discarded_plan_stack th' = m_discarded_plan_stack th
  /\ same_context th th'.

Lemma WillResume_lower_only_calls (fuel : nat) (th th' : Thread.t)
    (resume_state : StateType) (plan_ptr : ThreadPlan.t) :
  WillResume_lower fuel th resume_state plan_ptr = Ret th' ->
  only_calls th th'.
Proof.
  revert th plan_ptr.
  induction fuel as [|fuel IH]; intros th plan_ptr;
    cbn [WillResume_lower]; [discriminate|].
  destruct (GetPreviousPlan th (Some plan_ptr)) as [prev|].
  - intros H. apply IH in H. exact H.
  - intros [= <-]. unfold only_calls.
    split_and!; try reflexivity. apply same_context_refl.
Qed.

(** X9.  Whenever [WillResume] returns, the plan stack is as it was and the
    previous stop is forgotten: no plan is done, no plan was discarded,
    there is no completed plan and no return value object.  When the resume
    is a real one, [GetStopInfo] afterwards is the answer of
    [GetPrivateStopReason]. *)
Theorem WillResume_forgets_the_previous_stop (fuel : nat) (th th' : Thread.t)
    (resume_state : StateType) (need_to_resume : bool) :
  WillResume fuel th resume_state = Ret (th', need_to_resume) ->
  m_plan_stack th' = m_plan_stack th
  /\ (forall q, IsThreadPlanDone th' q = false)
  /\ (forall q, WasThreadPlanDiscarded th' q = false)
  /\ GetCompletedPlan th' = None
  /\ GetReturnValueObject th' = None
  /\ GetResumeState th' = GetResumeState th
  /\ GetTemporaryResumeState th' = resume_state
  /\ (need_to_resume = true ->
      GetStopInfo th' = GetPrivateStopReason th).
Proof.
  unfold WillResume.
  destruct (GetProcess _) as [process|]; [|discriminate]. cbn [bind].
  match goal with
  | |- context [GetCurrentPlan ?t] => set (th1 := t)
  end.
  assert (H1 : only_calls
                 (SetTemporaryResumeState resume_state
                    (set_discarded_plan_stack []
                       (set_completed_plan_stack [] th))) th1).
  { subst th1. unfold only_calls, same_context.
    now repeat case_match. }
  destruct (GetCurrentPlan th1) as [plan_ptr| |]; cbn [bind];
    try discriminate.
  destruct (WillResume_lower _ _ _ _) as [th2| |] eqn:Hlower; cbn [bind];
    try discriminate.
  apply WillResume_lower_only_calls in Hlower.
  intros [= <- <-].
  destruct Hlower as (Hs2 & Hc2 & Hd2 & Hx2 & Hy2 & Hz2 & Hr2 & Ht2 & Hp2).
  destruct H1 as (Hs1 & Hc1 & Hd1 & Hx1 & Hy1 & Hz1 & Hr1 & Ht1 & Hp1).
  cbn in Hs2, Hc2, Hd2, Hr2, Ht2, Hp2, Hs1, Hc1, Hd1, Hr1, Ht1, Hp1.
  assert (Hc : m_completed_plan_stack
                 (if ThreadPlan.WillResume plan_ptr resume_state true
                  then set_actual_stop_info None th2 else th2) = [])
    by (case_match; cbn; congruence).
  assert (Hd : m_discarded_plan_stack
                 (if ThreadPlan.WillResume plan_ptr resume_state true
                  then set_actual_stop_info None th2 else th2) = [])
    by (case_match; cbn; congruence).
  split_and!.
  - case_match; cbn; congruence.
  - intros q. unfold IsThreadPlanDone. now rewrite Hc.
  - intros q. unfold WasThreadPlanDiscarded. now rewrite Hd.
  - unfold GetCompletedPlan. now rewrite Hc.
  - unfold GetReturnValueObject. now rewrite Hc.
  - unfold GetResumeState. case_match; cbn; congruence.
  - unfold GetTemporaryResumeState. case_match; cbn; congruence.
  - intros ->. unfold GetStopInfo, GetCompletedPlan.
    cbn [m_completed_plan_stack set_actual_stop_info]. rewrite Hc2, Hc1.
    cbn. unfold actual_or_private_stop_info. cbn.
    rewrite Hp2, Hp1. now destruct (m_process_wp th2).
Qed.

Lemma WillResume_forgets_the_previous_stop_witness :
  let th :=
    Sample.thread [Sample.base; Sample.step_a] [Sample.step_done]
      [Sample.step_b] in
  exists th',
    WillResume 2 th eStateRunning = Ret (th', true)
    /\ IsThreadPlanDone th (Some Sample.step_done) = true
    /\ IsThreadPlanDone th' (Some Sample.step_done) = false
    /\ GetStopInfo th' = Some Sample.breakpoint_hit.
Proof.
  intros th.
  assert (Hret : exists th', WillResume 2 th eStateRunning = Ret (th', true))
    by (eexists; vm_compute; reflexivity).
  destruct Hret as [th' Hret]. exists th'.
  destruct (WillResume_forgets_the_previous_stop 2 th th' eStateRunning true
              Hret) as (_ & Hdone & _ & _ & _ & _ & _ & Hinfo).
  split_and!; [exact Hret|reflexivity|apply Hdone|exact (Hinfo eq_refl)].
Defined.

(** ** ShouldStop loses no plan *)

(** From [th] to [th'] the plans [popped] left the top of the plan stack;
    each went to the end of the completed history or to the end of the
    discarded history.  The bottom of the stack stayed, and so did the stop
    info and the resume states; the call log grew. *)
Definition moves_to (th th' : Thread.t) : Prop :=
  exists popped finished gone hooks,
    m_plan_stack th = m_plan_stack th' ++ popped
    /\ m_completed_plan_stack th' = m_completed_plan_stack th ++ finished
    /\ m_discarded_plan_stack th' = m_discarded_plan_stack th ++ gone
    /\ Permutation (finished ++ gone) popped
    /\ calls th' = calls th ++ hooks
    /\ (m_plan_stack th <> [] -> m_plan_stack th' <> [])
    /\ same_context th th'.

Lemma moves_to_refl (th : Thread.t) : moves_to th th.
Proof.
  exists [], [], [], []. rewrite !app_nil_r.
  split_and!; auto using same_context_refl.
Qed.

Lemma moves_to_trans (a b c : Thread.t) :
  moves_to a b -> moves_to b c -> moves_to a c.
Proof.
  intros (p1 & f1 & g1 & h1 & Hs1 & Hc1 & Hd1 & Hp1 & Hl1 & Hn1 & Hx1)
         (p2 & f2 & g2 & h2 & Hs2 & Hc2 & Hd2 & Hp2 & Hl2 & Hn2 & Hx2).
  exists (p2 ++ p1), (f1 ++ f2), (g1 ++ g2), (h1 ++ h2). split_and!.
  - now rewrite Hs1, Hs2, app_assoc.
  - now rewrite Hc2, Hc1, app_assoc.
  - now rewrite Hd2, Hd1, app_assoc.
  - rewrite <- Hp1, <- Hp2. solve_Permutation.
  - now rewrite Hl2, Hl1, app_assoc.
  - auto.
  - eapply same_context_trans; eassumption.
Qed.

Lemma call_moves (c : Call) (th : Thread.t) : moves_to th (call c th).
Proof.
  exists [], [], [], [c]. cbn. rewrite !app_nil_r.
  split_and!; auto. unfold same_context. now split_and!.
Qed.

Lemma PopPlan_moves (th : Thread.t) : moves_to th (PopPlan th).
Proof.
  destruct th as [pr si id v c d rs ts gp cl].
  destruct (snoc_cases v) as [->|(k & x & ->)].
  - rewrite PopPlan_base by (simpl; lia). apply moves_to_refl.
  - destruct k as [|b k].
    + rewrite PopPlan_base by (simpl; lia). apply moves_to_refl.
    + rewrite PopPlan_snoc by discriminate.
      exists [x], [x], [], [CallWillPop (ThreadPlan.addr x)]. thread_fields.
      rewrite !app_nil_r. split_and!; try reflexivity.
      * intros _. discriminate.
      * unfold same_context. now split_and!.
Qed.

Lemma discards_moves (th th' : Thread.t) :
  discards_to th th' ->
  (m_plan_stack th <> [] -> m_plan_stack th' <> []) ->
  moves_to th th'.
Proof.
  intros (popped & Hs & Hd & Hc & Hl & Hx) Hne.
  exists popped, [], (rev popped), (will_pop_calls popped).
  rewrite app_nil_r. split_and!; try assumption.
  cbn [app]. symmetry. apply Permutation_rev.
Qed.

Lemma pop_through_moves (fuel : nat) (th th' : Thread.t)
    (current_plan cur' : ThreadPlan.t) (should_stop : bool)
    (prev_plan_ptr : option ThreadPlan.t) :
  pop_through fuel th current_plan should_stop prev_plan_ptr
  = Ret (th', cur') ->
  moves_to th th' /\ last (m_plan_stack th') = Some cur'.
Proof.
  revert th current_plan.
  induction fuel as [|fuel IH]; intros th cur; cbn [pop_through];
    [discriminate|].
  set (th1 := if should_stop then call _ th else th).
  assert (H1 : moves_to th th1)
    by (subst th1; destruct should_stop;
        [apply call_moves|apply moves_to_refl]).
  pose proof (PopPlan_moves th1) as H2.
  unfold GetCurrentPlan at 1.
  destruct (last (m_plan_stack (PopPlan th1))) as [cur2|] eqn:Hlast;
    cbn [bind]; [|discriminate].
  destruct (ThreadPlan.same_ptr (Some cur2) prev_plan_ptr).
  - intros [= <- <-]. split; [|exact Hlast].
    eapply moves_to_trans; eassumption.
  - intros H. apply IH in H as [H3 H4]. split; [|exact H4].
    eapply moves_to_trans; [|exact H3].
    eapply moves_to_trans; eassumption.
Qed.

Lemma scan_previous_moves (fuel pop_fuel : nat) (th th' : Thread.t)
    (current_plan plan_ptr cur' : ThreadPlan.t)
    (should_stop stop' done' : bool) :
  scan_previous fuel pop_fuel th current_plan plan_ptr should_stop
  = Ret (th', cur', stop', done') ->
  moves_to th th'
  /\ (last (m_plan_stack th) = Some current_plan ->
      last (m_plan_stack th') = Some cur').
Proof.
  revert plan_ptr.
  induction fuel as [|fuel IH]; intros plan_ptr; cbn [scan_previous];
    [discriminate|].
  destruct (GetPreviousPlan th (Some plan_ptr)) as [q|].
  - destruct (ThreadPlan.PlanExplainsStop q); [|apply IH].
    destruct (ThreadPlan.MischiefManaged q).
    + destruct (pop_through _ _ _ _ _) as [[th2 cur2]| |] eqn:Hpop;
        cbn [bind]; try discriminate.
      apply pop_through_moves in Hpop as [H1 H2].
      destruct (_ && _); intros [= <- <- <- <-]; now split.
    + intros [= <- <- <- <-]. split; [apply moves_to_refl|auto].
  - intros [= <- <- <- <-]. split; [apply moves_to_refl|auto].
Qed.

Lemma top_plan_loop_moves (fuel : nat) (th th' : Thread.t)
    (current_plan cur' : ThreadPlan.t) (should_stop stop' : bool) :
  top_plan_loop fuel th current_plan should_stop = Ret (th', cur', stop') ->
  moves_to th th'.
Proof.
  revert th current_plan should_stop.
  induction fuel as [|fuel IH]; intros th cur should_stop;
    cbn [top_plan_loop]; [discriminate|].
  destruct (PlanIsBasePlan th cur).
  { intros [= <- <- <-]. apply moves_to_refl. }
  destruct (ThreadPlan.MischiefManaged cur).
  2: { intros [= <- <- <-]. apply moves_to_refl. }
  set (th1 := if ThreadPlan.ShouldStop cur then call _ th else th).
  assert (H1 : moves_to th (PopPlan th1)).
  { eapply moves_to_trans; [|apply PopPlan_moves].
    subst th1. destruct (ThreadPlan.ShouldStop cur);
      [apply call_moves|apply moves_to_refl]. }
  destruct (_ && _).
  - now intros [= <- <- <-].
  - destruct (GetCurrentPlan (PopPlan th1)) as [cur2| |]; cbn [bind];
      try discriminate.
    intros H. apply IH in H. eapply moves_to_trans; eassumption.
Qed.

Lemma DiscardThreadPlansUpToPlan_moves (th th' : Thread.t)
    (up_to_plan_ptr : option ThreadPlan.t) :
  DiscardThreadPlansUpToPlan th up_to_plan_ptr = Ret th' -> moves_to th th'.
Proof.
  intros H. apply discards_moves.
  - eapply DiscardThreadPlansUpToPlan_discards, H.
  - intros Hne.
    destruct (DiscardThreadPlansUpToPlan_shrinks th up_to_plan_ptr Hne)
      as (th2 & H2 & _ & Hne2).
    congruence.
Qed.

Lemma stale_sweep_moves (fuel : nat) (th th' : Thread.t)
    (plan_ptr : option ThreadPlan.t) :
  stale_sweep fuel th plan_ptr = Ret th' -> moves_to th th'.
Proof.
  revert th plan_ptr.
  induction fuel as [|fuel IH]; intros th plan_ptr; cbn [stale_sweep];
    [discriminate|].
  destruct plan_ptr as [p|]; [|discriminate].
  destruct (PlanIsBasePlan th p).
  { intros [= <-]. apply moves_to_refl. }
  destruct (ThreadPlan.IsPlanStale p).
  - destruct (DiscardThreadPlansUpToPlan th (Some p)) as [th1| |] eqn:H1;
      cbn [bind]; try discriminate.
    intros H. apply IH in H.
    eapply moves_to_trans; [|exact H].
    eapply DiscardThreadPlansUpToPlan_moves, H1.
  - cbn [bind]. apply IH.
Qed.

Lemma process_current_plan_moves (fuel : nat) (th th' : Thread.t)
    (current_plan : ThreadPlan.t) (should_stop verdict : bool) :
  process_current_plan fuel th current_plan should_stop = Ret (th', verdict) ->
  moves_to th th'.
Proof.
  unfold process_current_plan.
  set (r := if PlanIsBasePlan th current_plan then _ else _).
  assert (Hr : forall th1 cur1 stop1,
             r = Ret (th1, cur1, stop1) -> moves_to th th1).
  { subst r. intros th1 cur1 stop1.
    destruct (PlanIsBasePlan th current_plan).
    - intros [= <- <- <-]. apply moves_to_refl.
    - apply top_plan_loop_moves. }
  destruct r as [[[th1 cur1] stop1]| |]; cbn [bind]; try discriminate.
  specialize (Hr th1 cur1 stop1 eq_refl).
  destruct (if ThreadPlan.ShouldAutoContinue current_plan then false
            else stop1).
  - destruct (GetCurrentPlan th1) as [p| |]; cbn [bind]; try discriminate.
    destruct (stale_sweep fuel th1 (Some p)) as [th2| |] eqn:Hsweep;
      cbn [bind]; try discriminate.
    intros [= <- <-]. eapply moves_to_trans; [exact Hr|].
    eapply stale_sweep_moves, Hsweep.
  - now intros [= <- <-].
Qed.

Lemma explain_stop_moves (fuel : nat) (th th' : Thread.t)
    (current_plan cur' : ThreadPlan.t) (stop' done' : bool) :
  explain_stop fuel th current_plan = Ret (th', cur', stop', done') ->
  moves_to th th'
  /\ (last (m_plan_stack th) = Some current_plan ->
      last (m_plan_stack th') = Some cur').
Proof.
  unfold explain_stop.
  destruct (negb _).
  - destruct (ThreadPlan.TracerExplainsStop current_plan).
    + intros [= <- <- <- <-]. split; [apply moves_to_refl|auto].
    + apply scan_previous_moves.
  - intros [= <- <- <- <-]. split; [apply moves_to_refl|auto].
Qed.

(** X10.  Whenever [ShouldStop] returns, every plan that left the plan stack
    left it from the top and stands in the completed history or in the
    discarded history, both of which only grew at their end; the bottom plan
    is still on the stack; the cached stop info, its stop id and the resume
    states are as they were. *)
Theorem ShouldStop_loses_no_plan (fuel : nat) (th th' : Thread.t)
    (verdict : bool) :
  ShouldStop fuel th = Ret (th', verdict) ->
  moves_to th th'
  /\ m_plan_stack th <> []
  /\ m_plan_stack th' <> []
  /\ m_plan_stack th' !! 0 = m_plan_stack th !! 0.
Proof.
  intros H.
  assert (Hne : m_plan_stack th <> []).
  { intros Hempty. unfold ShouldStop, GetCurrentPlan in H.
    now rewrite Hempty in H. }
  assert (Hmoves : moves_to th th').
  { unfold ShouldStop in H.
    destruct (GetCurrentPlan th) as [cur| |]; cbn [bind] in H;
      try discriminate.
    repeat (case_match; [injection H as <- <-; apply moves_to_refl|]).
    case_match; [injection H as <- <-; apply call_moves|].
    destruct (explain_stop _ _ _) as [[[[th1 cur1] stop1] done1]| |] eqn:He;
      cbn [bind] in H; try discriminate.
    apply explain_stop_moves in He as [He _].
    assert (Hth1 : moves_to th th1)
      by (eapply moves_to_trans; [apply call_moves|exact He]).
    destruct (negb done1).
    - apply process_current_plan_moves in H.
      eapply moves_to_trans; eassumption.
    - now injection H as <- <-. }
  split_and!; try assumption.
  - destruct Hmoves as (p & f & g & h & _ & _ & _ & _ & _ & Hkeep & _). auto.
  - destruct Hmoves as (p & f & g & h & Hs & _ & _ & _ & _ & Hkeep & _).
    rewrite Hs. specialize (Hkeep Hne).
    destruct (m_plan_stack th'); [congruence|reflexivity].
Qed.

Lemma ShouldStop_loses_no_plan_witness :
  let th :=
    Sample.thread
      [Sample.base; Sample.step_done; Sample.step_b; Sample.step_a] [] [] in
  exists th',
    ShouldStop 4 th = Ret (th', true)
    /\ moves_to th th'
    /\ m_plan_stack th' !! 0 = Some Sample.base.
Proof.
  intros th.
  assert (Hret : exists th', ShouldStop 4 th = Ret (th', true))
    by (eexists; vm_compute; reflexivity).
  destruct Hret as [th' Hret]. exists th'.
  destruct (ShouldStop_loses_no_plan 4 th th' true Hret)
    as (Hmoves & _ & _ & Hbase).
  exact (conj Hret (conj Hmoves Hbase)).
Defined.

(** ** The sweep of stale plans *)

Lemma DiscardThreadPlansUpToPlan_found
    pr si id lower target above c d rs ts gp cl :
  lower <> [] ->
  distinct (lower ++ target :: above) ->
  DiscardThreadPlansUpToPlan
    (Thread.mk pr si id (lower ++ target :: above) c d rs ts gp cl)
    (Some target)
  = Ret (Thread.mk pr si id lower c (d ++ rev (target :: above)) rs ts gp
           (cl ++ will_pop_calls (target :: above))).
Proof.
  intros Hlower Hd. unfold DiscardThreadPlansUpToPlan. cbn [m_plan_stack].
  destruct lower as [|b lower]; [congruence|].
  assert (Hlen : length ((b :: lower) ++ target :: above) - 1
                 = length (b :: lower) + length above).
  { rewrite length_app. cbn [length]. lia. }
  rewrite Hlen.
  rewrite (find_up_to_found _ target _ (length lower)).
  - apply discard_up_to_spec; [discriminate|exact Hd|]. cbn [length]. lia.
  - change (S (length lower)) with (length (b :: lower)).
    apply lookup_middle'.
  - cbn [length]. lia.
Qed.

(** The plans above the bottom plan, split at the lowest stale one. *)
Definition stale_from (rest keep gone : list ThreadPlan.t) : Prop :=
  rest = keep ++ gone
  /\ Forall (fun p => ThreadPlan.IsPlanStale p = false) keep
  /\ (gone = []
      \/ exists s gone', gone = s :: gone' /\ ThreadPlan.IsPlanStale s = true).

Lemma PlanIsBasePlan_above pr si id base below p above c d rs ts gp cl :
  distinct (base :: below ++ p :: above) ->
  ThreadPlan.IsBasePlan p = false ->
  PlanIsBasePlan
    (Thread.mk pr si id (base :: below ++ p :: above) c d rs ts gp cl) p
  = false.
Proof.
  intros Hd Hflag. unfold PlanIsBasePlan. rewrite Hflag. cbn.
  apply not_true_is_false. intros Hs.
  assert (Hp : (base :: below ++ p :: above) !! S (length below) = Some p)
    by (cbn; apply lookup_middle').
  pose proof (distinct_lookup _ 0 _ base p Hd eq_refl Hp Hs). lia.
Qed.

(** Where the sweep ends: at the bottom plan, or at a plan that is flagged
    as a base plan. *)
Lemma PlanIsBasePlan_floor pr si id lower floor rest c d rs ts gp cl :
  lower = [] \/ ThreadPlan.IsBasePlan floor = true ->
  PlanIsBasePlan
    (Thread.mk pr si id (lower ++ floor :: rest) c d rs ts gp cl) floor
  = true.
Proof.
  intros [-> | Hflag]; unfold PlanIsBasePlan.
  - cbn. rewrite same_refl. now destruct (ThreadPlan.IsBasePlan floor).
  - now rewrite Hflag.
Qed.

Lemma PlanIsBasePlan_inner pr si id lower p above c d rs ts gp cl :
  lower <> [] ->
  distinct (lower ++ p :: above) ->
  ThreadPlan.IsBasePlan p = false ->
  PlanIsBasePlan
    (Thread.mk pr si id (lower ++ p :: above) c d rs ts gp cl) p
  = false.
Proof.
  intros Hlower Hd Hflag. unfold PlanIsBasePlan. rewrite Hflag.
  cbn [m_plan_stack].
  destruct lower as [|b lower]; [congruence|]. cbn.
  apply not_true_is_false. intros Hs.
  assert (Hp : ((b :: lower) ++ p :: above) !! length (b :: lower) = Some p)
    by apply lookup_middle'.
  pose proof (distinct_lookup _ 0 _ b p Hd eq_refl Hp Hs) as Hidx.
  cbn [length] in Hidx. lia.
Qed.

Lemma stale_sweep_spec (fuel : nat)
    pr si id lower floor below p above c d rs ts gp cl :
  distinct (lower ++ floor :: below ++ p :: above) ->
  (forall q, In q (lower ++ floor :: below ++ p :: above) ->
             ~ on_stack q c) ->
  lower = [] \/ ThreadPlan.IsBasePlan floor = true ->
  Forall (fun q => ThreadPlan.IsBasePlan q = false) (below ++ [p]) ->
  Forall (fun q => ThreadPlan.IsPlanStale q = false) above ->
  S (length below) < fuel ->
  exists keep gone,
    stale_from (below ++ p :: above) keep gone
    /\ stale_sweep fuel
         (Thread.mk pr si id (lower ++ floor :: below ++ p :: above)
            c d rs ts gp cl)
         (Some p)
       = Ret (Thread.mk pr si id (lower ++ floor :: keep) c (d ++ rev gone)
                rs ts gp (cl ++ will_pop_calls gone)).
Proof.
  intros Hd Hfresh Hfloor. revert fuel p above d cl Hd Hfresh.
  induction below as [|q below IH] using rev_ind;
    intros fuel p above d cl Hd Hfresh Hflags Habove Hfuel;
    (destruct fuel as [|fuel]; [lia|]); cbn [stale_sweep].
  - cbn [app] in *. apply Forall_inv in Hflags.
    replace (lower ++ floor :: p :: above)
      with ((lower ++ [floor]) ++ p :: above) in *
      by now rewrite <- app_assoc.
    rewrite PlanIsBasePlan_inner;
      [|now destruct lower|exact Hd|exact Hflags].
    rewrite (GetPreviousPlan_middle _ lower above floor p);
      [|cbn; now rewrite <- app_assoc|exact Hd
       |apply Hfresh; rewrite in_app_iff; simpl; tauto].
    destruct fuel as [|fuel]; [simpl in Hfuel; lia|].
    destruct (ThreadPlan.IsPlanStale p) eqn:Hstale.
    + rewrite DiscardThreadPlansUpToPlan_found;
        [|now destruct lower|exact Hd].
      cbn [bind stale_sweep].
      rewrite PlanIsBasePlan_floor by exact Hfloor.
      exists [], (p :: above). split; [|reflexivity].
      unfold stale_from. split_and!; [reflexivity|constructor|].
      right. now exists p, above.
    + cbn [bind stale_sweep]. rewrite <- app_assoc. cbn [app].
      rewrite PlanIsBasePlan_floor by exact Hfloor.
      exists (p :: above), []. split.
      * unfold stale_from. rewrite app_nil_r.
        split_and!; [reflexivity|now constructor|now left].
      * unfold will_pop_calls. cbn. now rewrite !app_nil_r.
  - apply Forall_app in Hflags as [Hflags Hp]. apply Forall_inv in Hp.
    rewrite <- app_assoc in *. cbn [app] in *.
    assert (Hassoc : lower ++ floor :: below ++ q :: p :: above
                     = (lower ++ floor :: below ++ [q]) ++ p :: above).
    { rewrite <- app_assoc. cbn [app]. now rewrite <- app_assoc. }
    assert (Hprev :
      forall d' cl',
        GetPreviousPlan
          (Thread.mk pr si id (lower ++ floor :: below ++ q :: p :: above)
             c d' rs ts gp cl') (Some p) = Some q).
    { intros d' cl'.
      apply (GetPreviousPlan_middle _ (lower ++ floor :: below) above q p).
      - cbn [m_plan_stack]. rewrite <- app_assoc. reflexivity.
      - exact Hd.
      - apply Hfresh. rewrite in_app_iff. right. right.
        rewrite in_app_iff. simpl. tauto. }
    rewrite Hprev.
    rewrite Hassoc in Hd |- *.
    rewrite PlanIsBasePlan_inner; [|now destruct lower|exact Hd|exact Hp].
    rewrite length_snoc in Hfuel.
    destruct (ThreadPlan.IsPlanStale p) eqn:Hstale.
    + rewrite DiscardThreadPlansUpToPlan_found;
        [|now destruct lower|exact Hd].
      cbn [bind].
      destruct (IH fuel q [] (d ++ rev (p :: above))
                  (cl ++ will_pop_calls (p :: above)))
        as (keep & gone & (Hsplit & Hkeep & Hgone) & Hret).
      * now apply distinct_app_l in Hd.
      * intros x Hx. apply Hfresh. rewrite in_app_iff in *.
        destruct Hx as [Hx|Hx]; [now left|right].
        simpl in *. destruct Hx as [Hx|Hx]; [now left|right].
        rewrite in_app_iff in *. simpl in *. tauto.
      * exact Hflags.
      * constructor.
      * lia.
      * rewrite Hret. exists keep, (gone ++ p :: above). split.
        -- unfold stale_from. split_and!.
           ++ change (q :: p :: above) with ([q] ++ p :: above).
              rewrite app_assoc, Hsplit. now rewrite <- app_assoc.
           ++ exact Hkeep.
           ++ right. destruct Hgone as [->|(s & g & -> & Hs)].
              ** now exists p, above.
              ** now exists s, (g ++ p :: above).
        -- unfold will_pop_calls. rewrite !rev_app_distr, !map_app.
           now rewrite <- !app_assoc.
    + cbn [bind]. rewrite <- Hassoc in Hd |- *.
      destruct (IH fuel q (p :: above) d cl) as (keep & gone & Hsplit & ->);
        try assumption; try lia.
      * now constructor.
      * now exists keep, gone.
Qed.

(** ** ShouldStop when the top plan explains the stop *)

Lemma ShouldStop_asks_the_plans (fuel : nat) (th : Thread.t)
    (lower : list ThreadPlan.t) (top : ThreadPlan.t) (stop_info : StopInfo) :
  m_plan_stack th = lower ++ [top] ->
  GetResumeState th <> eStateSuspended ->
  GetTemporaryResumeState th <> eStateSuspended ->
  GetPrivateStopReason th = Some stop_info ->
  ShouldStopSynchronous stop_info = true ->
  ShouldStop fuel th
  = (do '(th1, current_plan, should_stop, done_processing_current_plan) <-
       explain_stop fuel (call (CallDoTraceLog (ThreadPlan.addr top)) th) top ;
     if negb done_processing_current_plan
     then process_current_plan fuel th1 current_plan should_stop
     else Ret (th1, should_stop)).
Proof.
  intros Hstack Hrs Hts Hreason Hsync.
  unfold ShouldStop, GetCurrentPlan. rewrite Hstack, last_snoc'. cbn [bind].
  rewrite !bool_decide_eq_false_2 by assumption.
  unfold ThreadStoppedForAReason. rewrite Hreason. cbn [negb].
  unfold call at 1. cbn [Thread.GetPrivateStopReason].
  now rewrite Hreason, Hsync.
Qed.

(** X11.  On a thread that is not suspended and has a stop reason that lets
    it stop, when the plan on top is not the base plan, explains the stop
    and is not done, [ShouldStop] asks no other plan: if the plan does not
    want to stop, or it auto-continues, the verdict is not to stop and the
    three plan vectors are as they were; the only hook called is
    [DoTraceLog] of the top plan. *)
Theorem working_top_plan_keeps_going (fuel : nat) (th : Thread.t)
    (lower : list ThreadPlan.t) (top : ThreadPlan.t) (stop_info : StopInfo) :
  m_plan_stack th = lower ++ [top] ->
  GetResumeState th <> eStateSuspended ->
  GetTemporaryResumeState th <> eStateSuspended ->
  GetPrivateStopReason th = Some stop_info ->
  ShouldStopSynchronous stop_info = true ->
  PlanIsBasePlan th top = false ->
  ThreadPlan.PlanExplainsStop top = true ->
  ThreadPlan.MischiefManaged top = false ->
  ThreadPlan.ShouldStop top = false
  \/ ThreadPlan.ShouldAutoContinue top = true ->
  0 < fuel ->
  ShouldStop fuel th
  = Ret (call (CallDoTraceLog (ThreadPlan.addr top)) th, false).
Proof.
  intros Hstack Hrs Hts Hreason Hsync Hbase Hexplains Hworking Hquiet Hfuel.
  rewrite (ShouldStop_asks_the_plans fuel th lower top stop_info)
    by assumption.
  unfold explain_stop. rewrite Hexplains. cbn [negb bind].
  unfold process_current_plan.
  change (PlanIsBasePlan (call (CallDoTraceLog (ThreadPlan.addr top)) th) top)
    with (PlanIsBasePlan th top).
  rewrite Hbase.
  destruct fuel as [|fuel]; [lia|]. cbn [top_plan_loop].
  change (PlanIsBasePlan (call (CallDoTraceLog (ThreadPlan.addr top)) th) top)
    with (PlanIsBasePlan th top).
  rewrite Hbase, Hworking. cbn [bind].
  destruct Hquiet as [-> | ->]; [|reflexivity].
  now destruct (ThreadPlan.ShouldAutoContinue top).
Qed.

Lemma working_top_plan_keeps_going_witness :
  let working := Sample.plan 110 false false true false true false false None
  in
  let th := Sample.thread [Sample.base; working] [] [] in
  ShouldStop 1 th = Ret (call (CallDoTraceLog 110) th, false).
Proof.
  intros working th.
  apply (working_top_plan_keeps_going 1 th [Sample.base] working
           Sample.breakpoint_hit); try reflexivity; try discriminate.
  - now left.
  - lia.
Defined.

(** X12.  On a thread that is not suspended and has a stop reason that lets
    it stop, whose plan stack [lower ++ floor :: below ++ [top]] holds no
    plan twice and none that is in the completed history, where [floor] is
    the bottom plan or is flagged as a base plan and no plan of
    [below ++ [top]] is flagged as a base plan: when the plan on top
    explains the stop, is not done and wants to stop without auto-continue,
    the verdict is to stop and the stale plans above [floor] are swept.  The
    sweep walks down from the top and ends at [floor]: the stack is cut just
    below the lowest stale plan above [floor], the plans cut off go to the
    discarded history from the top down, and [floor] and the plans below it
    stay, stale or not.  The completed history is not touched. *)
Theorem stopping_sweeps_stale_plans (fuel : nat) (th : Thread.t)
    (lower : list ThreadPlan.t) (floor top : ThreadPlan.t)
    (below : list ThreadPlan.t) (stop_info : StopInfo) :
  m_plan_stack th = lower ++ floor :: below ++ [top] ->
  distinct (m_plan_stack th) ->
  (forall q, In q (m_plan_stack th) ->
             ~ on_stack q (m_completed_plan_stack th)) ->
  lower = [] \/ ThreadPlan.IsBasePlan floor = true ->
  Forall (fun q => ThreadPlan.IsBasePlan q = false) (below ++ [top]) ->
  GetResumeState th <> eStateSuspended ->
  GetTemporaryResumeState th <> eStateSuspended ->
  GetPrivateStopReason th = Some stop_info ->
  ShouldStopSynchronous stop_info = true ->
  ThreadPlan.PlanExplainsStop top = true ->
  ThreadPlan.MischiefManaged top = false ->
  ThreadPlan.ShouldStop top = true ->
  ThreadPlan.ShouldAutoContinue top = false ->
  S (length below) < fuel ->
  exists th' keep gone,
    stale_from (below ++ [top]) keep gone
    /\ ShouldStop fuel th = Ret (th', true)
    /\ m_plan_stack th' = lower ++ floor :: keep
    /\ m_discarded_plan_stack th' = m_discarded_plan_stack th ++ rev gone
    /\ m_completed_plan_stack th' = m_completed_plan_stack th
    /\ calls th'
       = calls th ++ CallDoTraceLog (ThreadPlan.addr top)
         :: will_pop_calls gone.
Proof.
  intros Hstack Hd Hfresh Hfloor Hflags Hrs Hts Hreason Hsync Hexplains
    Hworking Hstop Hauto Hfuel.
  rewrite (ShouldStop_asks_the_plans fuel th (lower ++ floor :: below) top
             stop_info); try assumption;
    [|now rewrite Hstack, <- app_assoc].
  unfold explain_stop. rewrite Hexplains. cbn [negb bind].
  unfold process_current_plan. rewrite Hauto.
  destruct th as [pr si id v c d rs ts gp cl].
  cbn [m_plan_stack m_completed_plan_stack] in Hstack, Hd, Hfresh. subst v.
  thread_fields.
  assert (Hassoc : lower ++ floor :: below ++ [top]
                   = (lower ++ floor :: below) ++ [top])
    by now rewrite <- app_assoc.
  assert (Hnotbase : forall cl',
    PlanIsBasePlan
      (Thread.mk pr si id (lower ++ floor :: below ++ [top]) c d rs ts gp
         cl') top
    = false).
  { intros cl'. rewrite Hassoc. apply PlanIsBasePlan_inner.
    - now destruct lower.
    - now rewrite <- Hassoc.
    - apply Forall_app in Hflags as [_ Htop]. now apply Forall_inv in Htop. }
  rewrite Hnotbase.
  destruct fuel as [|fuel]; [lia|]. cbn [top_plan_loop].
  rewrite Hnotbase, Hworking, Hstop. cbn [bind].
  unfold GetCurrentPlan. thread_fields.
  assert (Hlast : last (lower ++ floor :: below ++ [top]) = Some top)
    by (rewrite Hassoc; apply last_snoc').
  rewrite Hlast. cbn [bind].
  destruct (stale_sweep_spec (S fuel) pr si id lower floor below top [] c d
              rs ts gp (cl ++ [CallDoTraceLog (ThreadPlan.addr top)]))
    as (keep & gone & Hsplit & ->); try assumption.
  { constructor. }
  cbn [bind]. eexists _, keep, gone.
  split; [exact Hsplit|]. split; [reflexivity|]. thread_fields.
  split_and!; try reflexivity. now rewrite <- app_assoc.
Qed.

Lemma stopping_sweeps_stale_plans_witness :
  let outdated :=
    ThreadPlan.mk 113 false true false false true false false false false
      false true false None eVoteNoOpinion eVoteNoOpinion (fun _ _ => true)
      (Some 0) in
  let call_base :=
    Sample.plan 114 true true false false false false false None in
  let bygone :=
    ThreadPlan.mk 111 false true false false true false false false false
      false true false None eVoteNoOpinion eVoteNoOpinion (fun _ _ => true)
      (Some 0) in
  let stopping := Sample.plan 112 false false true false true true false None
  in
  let th :=
    Sample.thread
      [Sample.base; outdated; call_base; Sample.step_a; bygone; stopping]
      [] [] in
  exists th',
    ShouldStop 4 th = Ret (th', true)
    /\ m_plan_stack th' = [Sample.base; outdated; call_base; Sample.step_a]
    /\ m_discarded_plan_stack th' = [stopping; bygone].
Proof.
  intros outdated call_base bygone stopping th.
  destruct (stopping_sweeps_stale_plans 4 th [Sample.base; outdated]
              call_base stopping [Sample.step_a; bygone]
              Sample.breakpoint_hit)
    as (th' & keep & gone & _ & Hret & _); try reflexivity;
    try discriminate.
  - apply (bool_decide_unpack _). vm_compute. exact I.
  - intros q _ [].
  - now right.
  - now repeat constructor.
  - subst th. simpl. lia.
  - exists th'. split; [exact Hret|].
    vm_compute in Hret. injection Hret as <-. now split.
Defined.

(** ** ShouldStop returns *)

(** The plan stack holds no plan twice and none that is in the completed
    history, and the plan at its bottom is never done. *)
Definition well_formed (th : Thread.t) : Prop :=
  distinct (m_plan_stack th)
  /\ (forall q, In q (m_plan_stack th) ->
                ~ on_stack q (m_completed_plan_stack th))
  /\ (forall b, m_plan_stack th !! 0 = Some b ->
                ThreadPlan.MischiefManaged b = false).

Lemma on_stack_app (p : ThreadPlan.t) (v w : list ThreadPlan.t) :
  on_stack p (v ++ w) <-> on_stack p v \/ on_stack p w.
Proof. unfold on_stack. rewrite map_app. apply in_app_iff. Qed.

Lemma distinct_app_disjoint (v w : list ThreadPlan.t) (p : ThreadPlan.t) :
  distinct (v ++ w) -> In p v -> ~ on_stack p w.
Proof.
  unfold distinct, on_stack. rewrite map_app. intros Hd Hp Hw.
  apply NoDup_app in Hd as (_ & Hdisj & _).
  apply (Hdisj (ThreadPlan.addr p)).
  - apply list_elem_of_In. now apply in_map.
  - now apply list_elem_of_In.
Qed.

Lemma well_formed_moves (th th' : Thread.t) :
  well_formed th -> moves_to th th' -> well_formed th'.
Proof.
  intros (Hd & Hfresh & Hbase)
         (popped & finished & gone & hooks & Hs & Hc & _ & Hperm & _ & Hne & _).
  unfold well_formed. split_and!.
  - rewrite Hs in Hd. now apply distinct_app_l in Hd.
  - intros q Hq. rewrite Hc, on_stack_app. intros [Hold|Hnew].
    + apply (Hfresh q); [|exact Hold]. rewrite Hs. apply in_or_app. now left.
    + rewrite Hs in Hd. apply (distinct_app_disjoint _ _ q Hd Hq).
      unfold on_stack in *. rewrite <- Hperm, map_app.
      apply in_or_app. now left.
  - intros b Hb. apply Hbase. rewrite Hs.
    rewrite lookup_app_l; [exact Hb|]. now apply lookup_lt_Some in Hb.
Qed.

Lemma well_formed_call (c : Call) (th : Thread.t) :
  well_formed th -> well_formed (call c th).
Proof. intros H. eapply well_formed_moves; [exact H|apply call_moves]. Qed.

Lemma scan_previous_returns (fuel pop_fuel : nat) (th : Thread.t)
    (top p : ThreadPlan.t) (k : nat) (should_stop : bool) :
  well_formed th ->
  last (m_plan_stack th) = Some top ->
  m_plan_stack th !! k = Some p ->
  k < fuel ->
  length (m_plan_stack th) <= pop_fuel ->
  exists r, scan_previous fuel pop_fuel th top p should_stop = Ret r.
Proof.
  intros (Hd & Hfresh & Hbase) Htop. revert fuel p.
  induction k as [|j IH]; intros fuel p Hp Hfuel Hpop;
    (destruct fuel as [|fuel]; [lia|]); cbn [scan_previous];
    rewrite (GetPreviousPlan_at th p _ Hd
               (Hfresh p (proj1 (list_elem_of_In _ _)
                            (list_elem_of_lookup_2 _ _ _ Hp))) Hp).
  - now eexists.
  - assert (Hq : is_Some (m_plan_stack th !! j)).
    { apply lookup_lt_is_Some. apply lookup_lt_Some in Hp. lia. }
    destruct Hq as [q Hq]. rewrite Hq.
    destruct (ThreadPlan.PlanExplainsStop q); [|apply (IH fuel q Hq); lia].
    destruct (ThreadPlan.MischiefManaged q) eqn:Hdone; [|now eexists].
    rewrite (GetPreviousPlan_at th q _ Hd
               (Hfresh q (proj1 (list_elem_of_In _ _)
                            (list_elem_of_lookup_2 _ _ _ Hq))) Hq).
    destruct j as [|i]; [rewrite (Hbase q Hq) in Hdone; discriminate|].
    assert (Hr : is_Some (m_plan_stack th !! i)).
    { apply lookup_lt_is_Some. apply lookup_lt_Some in Hq. lia. }
    destruct Hr as [r Hr]. rewrite Hr.
    apply last_Some in Htop as [l Hl].
    assert (Hlen : S (S i) < length (m_plan_stack th))
      by now apply lookup_lt_Some in Hp.
    rewrite Hl, length_snoc in Hlen.
    assert (Hrl : l !! i = Some r).
    { rewrite Hl, lookup_app_l in Hr by lia. exact Hr. }
    pose proof (take_drop_middle l i r Hrl) as Hsplit.
    destruct th as [pr si id v c d rs ts gp cl]. cbn [m_plan_stack] in *.
    subst v. rewrite <- Hsplit, <- app_assoc in Hd |- *. cbn [app] in Hd |- *.
    rewrite pop_through_spec.
    + cbn [bind]. destruct (_ && _); now eexists.
    + exact Hd.
    + rewrite <- Hsplit in Hpop.
      repeat first [rewrite length_app in Hpop
                   |progress cbn [length] in Hpop].
      rewrite length_snoc. lia.
Qed.

Lemma stale_sweep_returns (fuel : nat) (th : Thread.t) (p : ThreadPlan.t)
    (k : nat) :
  distinct (m_plan_stack th) ->
  (forall q, In q (m_plan_stack th) ->
             ~ on_stack q (m_completed_plan_stack th)) ->
  m_plan_stack th !! k = Some p ->
  k < fuel ->
  exists th', stale_sweep fuel th (Some p) = Ret th'.
Proof.
  revert fuel th p.
  induction k as [|j IH]; intros fuel th p Hd Hfresh Hp Hfuel;
    (destruct fuel as [|fuel]; [lia|]); cbn [stale_sweep].
  - unfold PlanIsBasePlan. rewrite Hp, same_refl.
    destruct (ThreadPlan.IsBasePlan p); now eexists.
  - destruct (PlanIsBasePlan th p); [now eexists|].
    rewrite (GetPreviousPlan_at th p _ Hd
               (Hfresh p (proj1 (list_elem_of_In _ _)
                            (list_elem_of_lookup_2 _ _ _ Hp))) Hp).
    assert (Hq : is_Some (m_plan_stack th !! j)).
    { apply lookup_lt_is_Some. apply lookup_lt_Some in Hp. lia. }
    destruct Hq as [q Hq]. rewrite Hq.
    destruct (ThreadPlan.IsPlanStale p).
    + destruct th as [pr si id v c d rs ts gp cl].
      cbn [m_plan_stack m_completed_plan_stack] in *.
      pose proof (take_drop_middle _ _ _ Hp) as Hsplit.
      assert (Hqtake : take (S j) v !! j = Some q)
        by (rewrite lookup_take_lt by lia; exact Hq).
      remember (take (S j) v) as lower eqn:Hlower.
      remember (drop (S (S j)) v) as above eqn:Habove.
      clear Hlower Habove. subst v.
      rewrite DiscardThreadPlansUpToPlan_found;
        [|intros ->; discriminate|exact Hd].
      cbn [bind]. apply (IH fuel _ q); cbn [m_plan_stack
        m_completed_plan_stack]; try lia.
      * now apply distinct_app_l in Hd.
      * intros x Hx. apply Hfresh. apply in_or_app. now left.
      * exact Hqtake.
    + cbn [bind]. apply (IH fuel th q); try assumption. lia.
Qed.

(** X13.  On a thread whose plan stack holds no plan twice and none that is
    in the completed history, and whose bottom plan is never done,
    [ShouldStop] returns a verdict, without fault, as soon as it has fuel
    for each plan of the stack. *)
Theorem ShouldStop_returns (fuel : nat) (th : Thread.t) :
  m_plan_stack th <> [] ->
  well_formed th ->
  length (m_plan_stack th) <= fuel ->
  exists th' verdict, ShouldStop fuel th = Ret (th', verdict).
Proof.
  intros Hne Hwf Hfuel.
  destruct (snoc_cases (m_plan_stack th)) as [H|(lower & top & Hstack)];
    [congruence|].
  unfold ShouldStop, GetCurrentPlan. rewrite Hstack, last_snoc'. cbn [bind].
  destruct (bool_decide (GetResumeState th = _)); [now eexists _, _|].
  destruct (bool_decide (GetTemporaryResumeState th = _));
    [now eexists _, _|].
  destruct (negb (ThreadStoppedForAReason th)); [now eexists _, _|].
  destruct (match GetPrivateStopReason _ with Some _ => _ | None => _ end);
    [now eexists _, _|].
  set (th0 := call (CallDoTraceLog (ThreadPlan.addr top)) th).
  assert (Hwf0 : well_formed th0) by now apply well_formed_call.
  assert (Htop0 : last (m_plan_stack th0) = Some top)
    by (subst th0; cbn; rewrite Hstack; apply last_snoc').
  assert (Hlen0 : length (m_plan_stack th0) <= fuel) by exact Hfuel.
  assert (Hexplain : exists r, explain_stop fuel th0 top = Ret r).
  { unfold explain_stop. destruct (negb _); [|now eexists].
    destruct (ThreadPlan.TracerExplainsStop top); [now eexists|].
    apply (scan_previous_returns fuel fuel th0 top top
             (length lower)); try assumption.
    - subst th0. cbn. rewrite Hstack. apply lookup_snoc.
    - subst th0. cbn in Hlen0. rewrite Hstack, length_snoc in Hlen0. lia. }
  destruct Hexplain as [[[[th1 cur1] stop1] done1] Hexplain].
  rewrite Hexplain. cbn [bind].
  destruct (explain_stop_moves _ _ _ _ _ _ _ Hexplain) as [Hmoves Hcur].
  specialize (Hcur Htop0).
  pose proof (well_formed_moves _ _ Hwf0 Hmoves) as Hwf1.
  assert (Hlen1 : length (m_plan_stack th1) <= fuel).
  { destruct Hmoves as (popped & _ & _ & _ & Hs & _).
    rewrite Hs, length_app in Hlen0. lia. }
  destruct (negb done1); [|now eexists _, _].
  unfold process_current_plan.
  assert (Hloop : exists r,
    (if PlanIsBasePlan th1 cur1
     then Ret (th1, cur1, ThreadPlan.ShouldStop cur1)
     else top_plan_loop fuel th1 cur1 stop1) = Ret r
    /\ moves_to th1 (fst (fst r))).
  { destruct (PlanIsBasePlan th1 cur1).
    - eexists. split; [reflexivity|apply moves_to_refl].
    - destruct (top_plan_loop_returns fuel th1 cur1 stop1 Hcur Hlen1)
        as [[[th2 cur2] stop2] Hr].
      eexists. split; [exact Hr|]. eapply top_plan_loop_moves, Hr. }
  destruct Hloop as ([[th2 cur2] stop2] & -> & Hmoves2). cbn [bind].
  cbn [fst] in Hmoves2.
  destruct (if ThreadPlan.ShouldAutoContinue cur1 then false else stop2);
    [|now eexists _, _].
  pose proof (well_formed_moves _ _ Hwf1 Hmoves2) as (Hd2 & Hfresh2 & _).
  assert (Hne2 : m_plan_stack th2 <> []).
  { destruct Hmoves2 as (_ & _ & _ & _ & _ & _ & _ & _ & _ & Hkeep & _).
    apply Hkeep. intros Hempty. now rewrite Hempty in Hcur. }
  destruct (snoc_cases (m_plan_stack th2)) as [H|(lower2 & top2 & Hstack2)];
    [congruence|].
  unfold GetCurrentPlan. rewrite Hstack2, last_snoc'. cbn [bind].
  destruct (stale_sweep_returns fuel th2 top2 (length lower2) Hd2 Hfresh2)
    as [th3 ->].
  - rewrite Hstack2. apply lookup_snoc.
  - destruct Hmoves2 as (popped & _ & _ & _ & Hs & _).
    rewrite Hs, Hstack2, length_app, length_snoc in Hlen1. lia.
  - now eexists _, _.
Qed.

Lemma ShouldStop_returns_witness :
  let th :=
    Sample.thread
      [Sample.base; Sample.step_done; Sample.step_b; Sample.step_a] [] [] in
  exists th' verdict, ShouldStop 4 th = Ret (th', verdict).
Proof.
  intros th. apply (ShouldStop_returns 4 th).
  - discriminate.
  - split_and!.
    + exact distinct_sample.
    + intros q _ [].
    + intros b [= <-]. reflexivity.
  - subst th. simpl. lia.
Defined.

(** ** ShouldStop: the ways out before any plan is asked *)

(** X14.  [ShouldStop] fetches the current plan first: on an empty plan
    stack it is a fault, whatever the state of the thread.  On a stack that
    is not empty it answers not to stop and leaves the thread untouched
    when the resume state or the temporary resume state is suspended or the
    thread has no stop reason; when the stop reason refuses a synchronous
    stop, it answers not to stop after the [DoTraceLog] of the top plan and
    nothing else.  No plan is popped or discarded on these ways out. *)
Theorem ShouldStop_ways_out (fuel : nat) (th : Thread.t) :
  (m_plan_stack th = [] -> ShouldStop fuel th = Fault)
  /\ (forall lower top,
        m_plan_stack th = lower ++ [top] ->
        (GetResumeState th = eStateSuspended
         \/ GetTemporaryResumeState th = eStateSuspended
         \/ GetPrivateStopReason th = None ->
         ShouldStop fuel th = Ret (th, false))
        /\ (forall stop_info,
              GetResumeState th <> eStateSuspended ->
              GetTemporaryResumeState th <> eStateSuspended ->
              GetPrivateStopReason th = Some stop_info ->
              ShouldStopSynchronous stop_info = false ->
              ShouldStop fuel th
              = Ret (call (CallDoTraceLog (ThreadPlan.addr top)) th, false))).
Proof.
  split.
  - intros Hempty. unfold ShouldStop, GetCurrentPlan. now rewrite Hempty.
  - intros lower top Hstack. unfold ShouldStop, GetCurrentPlan.
    rewrite Hstack, last_snoc'. cbn [bind]. split.
    + intros [H|[H|H]].
      * now rewrite bool_decide_eq_true_2.
      * rewrite (bool_decide_eq_true_2 _ H). now case_match.
      * unfold ThreadStoppedForAReason. rewrite H. cbn [negb].
        now repeat case_match.
    + intros stop_info Hrs Hts Hreason Hsync.
      rewrite !bool_decide_eq_false_2 by assumption.
      unfold ThreadStoppedForAReason. rewrite Hreason. cbn [negb].
      unfold call at 1. cbn [Thread.GetPrivateStopReason].
      now rewrite Hreason, Hsync.
Qed.

Lemma ShouldStop_ways_out_witness :
  let th := Sample.held_back [Sample.base; Sample.master_done] in
  ShouldStop 0 th = Ret (th, false)
  /\ ShouldStop 5 (Sample.thread [] [] []) = Fault.
Proof.
  intros th. split.
  - apply (proj1 (proj2 (ShouldStop_ways_out 0 th) [Sample.base]
                    Sample.master_done eq_refl)).
    right. now left.
  - now apply (proj1 (ShouldStop_ways_out 5 (Sample.thread [] [] []))).
Defined.

(** ** ShouldStop: the plans on top are all done *)

(** The hooks called when the plans [popped] (bottom first) are popped from
    the top by the loop over the top plan: each after its own [WillStop]
    when its own verdict is to stop. *)
Definition verdict_pop_calls (popped : list ThreadPlan.t) : list Call :=
  flat_map
    (fun p =>
       (if ThreadPlan.ShouldStop p
        then [CallWillStop (ThreadPlan.addr p)] else [])
       ++ [CallWillPop (ThreadPlan.addr p)])
    (rev popped).

(** A plan that the loop over the top plan pops and passes: it is done, it
    is not flagged as a base plan, and it is not a master plan that wants to
    stop and is not okay to discard. *)
Definition done_and_passed (p : ThreadPlan.t) : Prop :=
  ThreadPlan.MischiefManaged p = true
  /\ ThreadPlan.IsBasePlan p = false
  /\ ThreadPlan.ShouldStop p && ThreadPlan.IsMasterPlan p
     && negb (ThreadPlan.OkayToDiscard p) = false.

Lemma top_plan_loop_all_done (fuel : nat) (should_stop : bool)
    pr si id base first above top c d rs ts gp cl :
  distinct (base :: first :: above) ->
  Forall done_and_passed (first :: above) ->
  last (first :: above) = Some top ->
  length (first :: above) < fuel ->
  top_plan_loop fuel
    (Thread.mk pr si id (base :: first :: above) c d rs ts gp cl)
    top should_stop
  = Ret (Thread.mk pr si id [base] (c ++ rev (first :: above)) d rs ts gp
           (cl ++ verdict_pop_calls (first :: above)),
         base, ThreadPlan.ShouldStop first).
Proof.
  revert fuel should_stop top c cl.
  induction above as [|x above IH] using rev_ind;
    intros fuel should_stop top c cl Hd Hall Htop Hfuel;
    (destruct fuel as [|fuel]; [lia|]); cbn [top_plan_loop].
  - injection Htop as <-. apply Forall_inv in Hall as (Hdone & Hflag & Hpass).
    rewrite (PlanIsBasePlan_above pr si id base [] first []) by assumption.
    rewrite Hdone, Hpass.
    assert (Hpop : forall cl',
      PopPlan (Thread.mk pr si id [base; first] c d rs ts gp cl')
      = Thread.mk pr si id [base] (c ++ [first]) d rs ts gp
          (cl' ++ [CallWillPop (ThreadPlan.addr first)]))
      by (intros cl'; now apply (PopPlan_snoc pr si id [base] first)).
    destruct fuel as [|fuel]; [simpl in Hfuel; lia|].
    unfold verdict_pop_calls. cbn [rev app flat_map].
    destruct (ThreadPlan.ShouldStop first); thread_fields; rewrite Hpop;
      unfold GetCurrentPlan; cbn [m_plan_stack last bind top_plan_loop];
      unfold PlanIsBasePlan; cbn; rewrite same_refl;
      rewrite ?app_nil_r, <- ?app_assoc;
      now destruct (ThreadPlan.IsBasePlan base).
  - rewrite app_comm_cons, last_snoc' in Htop. injection Htop as <-.
    rewrite app_comm_cons in Hall. apply Forall_app in Hall as [Hall Hx].
    apply Forall_inv in Hx as (Hdone & Hflag & Hpass).
    rewrite (PlanIsBasePlan_above pr si id base (first :: above) x [])
      by assumption.
    rewrite Hdone, Hpass.
    assert (Hpop : forall cl',
      PopPlan (Thread.mk pr si id (base :: first :: above ++ [x]) c d rs ts
                 gp cl')
      = Thread.mk pr si id (base :: first :: above) (c ++ [x]) d rs ts gp
          (cl' ++ [CallWillPop (ThreadPlan.addr x)]))
      by (intros cl';
          now apply (PopPlan_snoc pr si id (base :: first :: above) x)).
    assert (Hd' : distinct (base :: first :: above))
      by (apply (distinct_app_l _ [x]); exact Hd).
    assert (Hlast : exists top', last (first :: above) = Some top').
    { destruct (snoc_cases above) as [->|(a & y & ->)]; [now eexists|].
      exists y. now rewrite app_comm_cons, last_snoc'. }
    destruct Hlast as [top' Hlast].
    rewrite app_comm_cons, length_snoc in Hfuel.
    destruct (ThreadPlan.ShouldStop x) eqn:Hstop; thread_fields; rewrite Hpop;
      unfold GetCurrentPlan; cbn [m_plan_stack];
      (replace (last (base :: first :: above)) with (Some top')
         by (symmetry; destruct above; [exact Hlast|exact Hlast]));
      cbn [bind];
      (rewrite (IH fuel _ top') by (assumption || lia));
      unfold verdict_pop_calls; rewrite !app_comm_cons, !rev_unit;
      cbn [flat_map]; rewrite Hstop; cbn [app];
      now rewrite <- ?app_assoc.
Qed.

(** X15.  On a thread that is not suspended and has a stop reason that lets
    it stop, whose plan stack [base :: first :: above] holds no plan twice,
    when the plan on top explains the stop and every plan above the bottom
    plan is done (and none is flagged as a base plan, or is a master plan
    that wants to stop and is not okay to discard), [ShouldStop] pops them
    all into the completed history, from the top down.  The verdict is the
    one of [first], the plan directly above the bottom plan, unless the plan
    that was on top auto-continues; the bottom plan is not asked. *)
Theorem done_plans_are_completed (fuel : nat) (th : Thread.t)
    (base first top : ThreadPlan.t) (above : list ThreadPlan.t)
    (stop_info : StopInfo) :
  m_plan_stack th = base :: first :: above ->
  last (first :: above) = Some top ->
  distinct (m_plan_stack th) ->
  Forall done_and_passed (first :: above) ->
  GetResumeState th <> eStateSuspended ->
  GetTemporaryResumeState th <> eStateSuspended ->
  GetPrivateStopReason th = Some stop_info ->
  ShouldStopSynchronous stop_info = true ->
  ThreadPlan.PlanExplainsStop top = true ->
  length (first :: above) < fuel ->
  exists th',
    ShouldStop fuel th
    = Ret (th', if ThreadPlan.ShouldAutoContinue top then false
                else ThreadPlan.ShouldStop first)
    /\ m_plan_stack th' = [base]
    /\ m_completed_plan_stack th'
       = m_completed_plan_stack th ++ rev (first :: above)
    /\ m_discarded_plan_stack th' = m_discarded_plan_stack th
    /\ calls th'
       = calls th ++ CallDoTraceLog (ThreadPlan.addr top)
         :: verdict_pop_calls (first :: above).
Proof.
  intros Hstack Htop Hd Hall Hrs Hts Hreason Hsync Hexplains Hfuel.
  destruct (proj1 (last_Some _ _) Htop) as [l Hl].
  rewrite (ShouldStop_asks_the_plans fuel th (base :: l) top stop_info);
    try assumption; [|now rewrite Hstack, Hl].
  unfold explain_stop. rewrite Hexplains. cbn [negb bind].
  unfold process_current_plan.
  destruct th as [pr si id v c d rs ts gp cl].
  cbn [m_plan_stack] in Hstack, Hd. subst v. thread_fields.
  assert (Hnotbase :
    PlanIsBasePlan
      (Thread.mk pr si id (base :: first :: above) c d rs ts gp
         (cl ++ [CallDoTraceLog (ThreadPlan.addr top)])) top = false).
  { rewrite Hl in Hd |- *.
    apply (PlanIsBasePlan_above pr si id base l top []); [exact Hd|].
    rewrite Hl in Hall. apply Forall_app in Hall as [_ Hx].
    now apply Forall_inv in Hx as (_ & Hflag & _). }
  rewrite Hnotbase, top_plan_loop_all_done by assumption. cbn [bind].
  destruct (if ThreadPlan.ShouldAutoContinue top then false
            else ThreadPlan.ShouldStop first) eqn:Hverdict.
  - unfold GetCurrentPlan. cbn [m_plan_stack last bind].
    destruct fuel as [|fuel]; [lia|]. cbn [stale_sweep].
    unfold PlanIsBasePlan. cbn. rewrite same_refl.
    replace (if ThreadPlan.IsBasePlan base then true else true) with true
      by now destruct (ThreadPlan.IsBasePlan base).
    cbn [bind]. eexists. split; [reflexivity|]. thread_fields.
    split_and!; try reflexivity. now rewrite <- app_assoc.
  - eexists. split; [reflexivity|]. thread_fields.
    split_and!; try reflexivity. now rewrite <- app_assoc.
Qed.

Lemma done_plans_are_completed_witness :
  let quiet_step := Sample.plan 113 false false true false true false true None
  in
  let th :=
    Sample.thread [Sample.base; quiet_step; Sample.step_done] [] [] in
  exists th',
    ShouldStop 3 th = Ret (th', false)
    /\ ThreadPlan.ShouldStop Sample.step_done = true
    /\ ThreadPlan.ShouldStop Sample.base = true
    /\ m_completed_plan_stack th' = [Sample.step_done; quiet_step].
Proof.
  intros quiet_step th.
  destruct (done_plans_are_completed 3 th Sample.base quiet_step
              Sample.step_done [Sample.step_done] Sample.breakpoint_hit)
    as (th' & Hret & _ & Hcompleted & _); try reflexivity;
    try discriminate.
  - apply (bool_decide_unpack _). vm_compute. exact I.
  - now repeat constructor.
  - simpl. lia.
  - exists th'. now split_and!.
Defined.

(** ** ShouldStop: the base plan alone *)

(** X16.  With the base plan alone on the stack and not in the completed
    history, on a thread that is not suspended and has a stop reason that
    lets it stop, [ShouldStop] changes nothing but the call log.  If the plan does not explain the stop and
    its tracer does, the verdict is not to stop; otherwise the verdict is
    the one of the base plan unless the plan auto-continues. *)
Theorem base_plan_alone_decides (fuel : nat) (th : Thread.t)
    (base : ThreadPlan.t) (stop_info : StopInfo) :
  m_plan_stack th = [base] ->
  ~ on_stack base (m_completed_plan_stack th) ->
  GetResumeState th <> eStateSuspended ->
  GetTemporaryResumeState th <> eStateSuspended ->
  GetPrivateStopReason th = Some stop_info ->
  ShouldStopSynchronous stop_info = true ->
  0 < fuel ->
  ShouldStop fuel th
  = Ret (call (CallDoTraceLog (ThreadPlan.addr base)) th,
         if negb (ThreadPlan.PlanExplainsStop base)
            && ThreadPlan.TracerExplainsStop base
         then false
         else if ThreadPlan.ShouldAutoContinue base then false
              else ThreadPlan.ShouldStop base).
Proof.
  intros Hstack Hfresh Hrs Hts Hreason Hsync Hfuel.
  rewrite (ShouldStop_asks_the_plans fuel th [] base stop_info)
    by assumption.
  destruct fuel as [|fuel]; [lia|].
  set (th0 := call (CallDoTraceLog (ThreadPlan.addr base)) th).
  assert (Hbase : PlanIsBasePlan th0 base = true).
  { unfold PlanIsBasePlan. subst th0. cbn. rewrite Hstack. cbn.
    rewrite same_refl. now destruct (ThreadPlan.IsBasePlan base). }
  assert (Hprocess :
    process_current_plan (S fuel) th0 base true
    = Ret (th0, if ThreadPlan.ShouldAutoContinue base then false
                else ThreadPlan.ShouldStop base)).
  { unfold process_current_plan. rewrite Hbase. cbn [bind].
    destruct (if ThreadPlan.ShouldAutoContinue base then false
              else ThreadPlan.ShouldStop base); [|reflexivity].
    unfold GetCurrentPlan. subst th0. cbn [call m_plan_stack].
    rewrite Hstack. cbn [last bind stale_sweep].
    fold (call (CallDoTraceLog (ThreadPlan.addr base)) th).
    now rewrite Hbase. }
  unfold explain_stop.
  destruct (ThreadPlan.PlanExplainsStop base); cbn [negb andb bind].
  - exact Hprocess.
  - destruct (ThreadPlan.TracerExplainsStop base); cbn [bind negb];
      [reflexivity|].
    cbn [scan_previous].
    rewrite (GetPreviousPlan_at th0 base 0).
    + cbn [bind negb]. exact Hprocess.
    + subst th0. cbn. rewrite Hstack.
      apply (bool_decide_unpack _). vm_compute. exact I.
    + exact Hfresh.
    + subst th0. cbn. now rewrite Hstack.
Qed.

Lemma base_plan_alone_decides_witness :
  let th := Sample.thread [Sample.quiet_base] [] [] in
  ShouldStop 1 th = Ret (call (CallDoTraceLog 100) th, false).
Proof.
  intros th.
  apply (base_plan_alone_decides 1 th Sample.quiet_base
           Sample.breakpoint_hit); try reflexivity; try discriminate.
  - intros [].
  - lia.
Defined.

(** ** Completed plans and the stop info *)

Lemma GetCompletedPlan_from_snoc (v : list ThreadPlan.t) (x : ThreadPlan.t) :
  GetCompletedPlan_from (v ++ [x]) (length (v ++ [x]))
  = if ThreadPlan.GetPrivate x then GetCompletedPlan_from v (length v)
    else Some x.
Proof.
  rewrite length_snoc. cbn [GetCompletedPlan_from].
  rewrite lookup_snoc, GetCompletedPlan_from_app_l by lia.
  now destruct (ThreadPlan.GetPrivate x).
Qed.

Lemma GetReturnValueObject_from_snoc (v : list ThreadPlan.t)
    (x : ThreadPlan.t) :
  GetReturnValueObject_from (v ++ [x]) (length (v ++ [x]))
  = match ThreadPlan.GetReturnValueObject x with
    | Some r => Some r
    | None => GetReturnValueObject_from v (length v)
    end.
Proof.
  rewrite length_snoc. cbn [GetReturnValueObject_from].
  now rewrite lookup_snoc, GetReturnValueObject_from_app_l by lia.
Qed.

(** X17.  On a stack with a plan [top] above at least one other plan: after
    [PopPlan], the completed plan of the thread is [top] if [top] is not
    private, and is what it was if [top] is private; if [top] is not private
    and succeeded, [GetStopInfo] is the plan-complete stop info of [top],
    with the return value object of [top] or, if it has none, the one that
    the thread had.  [DiscardPlan] changes neither the completed plan nor
    the stop info. *)
Theorem completion_is_seen_unless_private (th : Thread.t)
    (lower : list ThreadPlan.t) (top : ThreadPlan.t) :
  m_plan_stack th = lower ++ [top] ->
  lower <> [] ->
  (ThreadPlan.GetPrivate top = false ->
   GetCompletedPlan (PopPlan th) = Some top)
  /\ (ThreadPlan.GetPrivate top = true ->
      GetCompletedPlan (PopPlan th) = GetCompletedPlan th)
  /\ (ThreadPlan.GetPrivate top = false ->
      ThreadPlan.PlanSucceeded top = true ->
      GetStopInfo (PopPlan th)
      = Some (CreateStopReasonWithPlan top
                match ThreadPlan.GetReturnValueObject top with
                | Some r => Some r
                | None => GetReturnValueObject th
                end))
  /\ GetCompletedPlan (DiscardPlan th) = GetCompletedPlan th
  /\ GetStopInfo (DiscardPlan th) = GetStopInfo th.
Proof.
  intros Hstack Hlower.
  destruct th as [pr si id v c d rs ts gp cl]. cbn [m_plan_stack] in Hstack.
  subst v. rewrite PopPlan_snoc, DiscardPlan_snoc by exact Hlower.
  unfold GetStopInfo, GetCompletedPlan, GetReturnValueObject. thread_fields.
  rewrite GetCompletedPlan_from_snoc, GetReturnValueObject_from_snoc.
  split_and!; try reflexivity.
  - now intros ->.
  - now intros ->.
  - now intros -> ->.
Qed.

Lemma completion_is_seen_unless_private_witness :
  let th :=
    Sample.thread [Sample.base; Sample.private_done] [Sample.step_done] [] in
  GetCompletedPlan (PopPlan th) = Some Sample.step_done.
Proof.
  intros th.
  destruct (completion_is_seen_unless_private th [Sample.base]
              Sample.private_done) as (_ & Hprivate & _);
    [reflexivity|discriminate|].
  rewrite Hprivate; reflexivity.
Defined.

(** X18.  [SetStopInfo] followed by [GetStopInfo], when no completed plan
    vouches for the stop: with a process, the stop info that was set is
    returned, made valid, and setting NULL leaves the answer of
    [GetPrivateStopReason]; without a process the recorded stop id is
    [UINT32_MAX] and [GetStopInfo] is the answer of [GetPrivateStopReason]
    whatever was set.  [SetStopInfo] touches no plan vector, and when a
    completed plan that is not private succeeded, [GetStopInfo] is the same
    before and after. *)
Theorem SetStopInfo_then_GetStopInfo (th : Thread.t)
    (stop_info_sp : option StopInfo) :
  let th' := SetStopInfo th stop_info_sp in
  m_plan_stack th' = m_plan_stack th
  /\ m_completed_plan_stack th' = m_completed_plan_stack th
  /\ m_discarded_plan_stack th' = m_discarded_plan_stack th
  /\ (no_plan_succeeded th ->
      GetStopInfo th'
      = match GetProcess th, stop_info_sp with
        | Some _, Some si => Some (MakeStopInfoValid si)
        | _, _ => GetPrivateStopReason th
        end)
  /\ (GetProcess th = None -> m_thread_stop_reason_stop_id th' = UINT32_MAX)
  /\ (forall p,
        GetCompletedPlan th = Some p ->
        ThreadPlan.PlanSucceeded p = true ->
        GetStopInfo th' = GetStopInfo th).
Proof.
  intros th'. subst th'. unfold SetStopInfo, GetProcess.
  destruct th as [pr si id v c d rs ts gp cl]. thread_fields.
  assert (Helse : forall pr' si' id',
    no_plan_succeeded (Thread.mk pr si id v c d rs ts gp cl) ->
    GetStopInfo (Thread.mk pr' si' id' v c d rs ts gp cl)
    = actual_or_private_stop_info (Thread.mk pr' si' id' v c d rs ts gp cl)).
  { intros pr' si' id' Hno. now apply no_plan_succeeded_else. }
  assert (Hplan : forall pr' si' id' p,
    GetCompletedPlan (Thread.mk pr si id v c d rs ts gp cl) = Some p ->
    ThreadPlan.PlanSucceeded p = true ->
    GetStopInfo (Thread.mk pr' si' id' v c d rs ts gp cl)
    = GetStopInfo (Thread.mk pr si id v c d rs ts gp cl)).
  { intros pr' si' id' p Hp Hok. unfold GetStopInfo, GetCompletedPlan in *.
    cbn in *. now rewrite Hp, Hok. }
  destruct pr as [process|]; unfold set_thread_stop_reason_stop_id;
    cbn [Thread.m_process_wp Thread.m_actual_stop_info_sp
    Thread.m_thread_stop_reason_stop_id Thread.m_plan_stack
    Thread.m_completed_plan_stack Thread.m_discarded_plan_stack
    Thread.m_resume_state Thread.m_temporary_resume_state
    Thread.GetPrivateStopReason Thread.calls];
    (split_and!; [reflexivity|reflexivity|reflexivity| |
                  |intros p; apply Hplan]).
  - intros Hno. rewrite Helse by exact Hno.
    unfold actual_or_private_stop_info. cbn.
    destruct stop_info_sp as [x|]; cbn; [|reflexivity].
    now rewrite N.eqb_refl.
  - discriminate.
  - intros Hno. rewrite Helse by exact Hno.
    unfold actual_or_private_stop_info. cbn. now destruct stop_info_sp.
  - reflexivity.
Qed.

Lemma SetStopInfo_then_GetStopInfo_witness :
  let stale_info := mkStopInfo (StopReasonOther 2) false true in
  let th := Sample.thread [Sample.base] [Sample.private_done] [] in
  GetStopInfo (SetStopInfo th (Some stale_info))
  = Some (mkStopInfo (StopReasonOther 2) true true).
Proof.
  intros stale_info th.
  destruct (SetStopInfo_then_GetStopInfo th (Some stale_info))
    as (_ & _ & _ & Hget & _).
  rewrite Hget; [reflexivity|].
  left. now repeat constructor.
Defined.

(** ** SetTracer *)

Lemma SetTracer_loop_spec (remaining i : nat) (tracer_sp : option nat)
    (v : list ThreadPlan.t) :
  i + remaining = length v ->
  SetTracer_loop remaining i tracer_sp v
  = take i v
    ++ map (fun p => ThreadPlan.SetThreadPlanTracer p tracer_sp) (drop i v).
Proof.
  revert i v. induction remaining as [|r IH]; intros i v Hlen.
  - cbn. rewrite drop_ge, take_ge by lia. cbn. now rewrite app_nil_r.
  - cbn [SetTracer_loop].
    assert (Hp : is_Some (v !! i)) by (apply lookup_lt_is_Some; lia).
    destruct Hp as [p Hp]. rewrite Hp.
    rewrite IH by (rewrite length_insert; lia).
    rewrite (drop_S v p i Hp), drop_insert_lt by lia. cbn [map].
    erewrite take_S_r by (apply list_lookup_insert_eq; lia).
    rewrite take_insert_ge by lia.
    now rewrite <- app_assoc.
Qed.

(** X19.  [SetTracer] gives every plan of the plan stack the tracer it is
    passed, NULL included, and changes nothing else: the stack has the same
    plans at the same places, the histories are untouched.  A plan without
    tracer that is pushed afterwards on a stack that is not empty inherits
    that tracer. *)
Theorem SetTracer_reaches_every_plan (th : Thread.t)
    (tracer_sp : option nat) :
  m_plan_stack (SetTracer th tracer_sp)
  = map (fun p => ThreadPlan.SetThreadPlanTracer p tracer_sp)
        (m_plan_stack th)
  /\ (forall i p,
        m_plan_stack (SetTracer th tracer_sp) !! i = Some p ->
        ThreadPlan.GetThreadPlanTracer p = tracer_sp
        /\ exists q,
             m_plan_stack th !! i = Some q
             /\ ThreadPlan.addr p = ThreadPlan.addr q)
  /\ m_completed_plan_stack (SetTracer th tracer_sp)
     = m_completed_plan_stack th
  /\ m_discarded_plan_stack (SetTracer th tracer_sp)
     = m_discarded_plan_stack th
  /\ (forall new_plan,
        m_plan_stack th <> [] ->
        ThreadPlan.GetThreadPlanTracer new_plan = None ->
        exists th',
          PushPlan (SetTracer th tracer_sp) (Some new_plan) = Ret th'
          /\ GetCurrentPlan th'
             = Ret (ThreadPlan.SetThreadPlanTracer new_plan tracer_sp)).
Proof.
  assert (Hstack :
    m_plan_stack (SetTracer th tracer_sp)
    = map (fun p => ThreadPlan.SetThreadPlanTracer p tracer_sp)
          (m_plan_stack th)).
  { unfold SetTracer. cbn [set_plan_stack m_plan_stack].
    now rewrite SetTracer_loop_spec by lia. }
  split_and!; try reflexivity.
  - exact Hstack.
  - intros i p. rewrite Hstack.
    change (map ?f ?l) with (f <$> l). rewrite list_lookup_fmap.
    destruct (m_plan_stack th !! i) as [q|]; [|discriminate].
    intros [= <-]. split; [reflexivity|]. now exists q.
  - intros new_plan Hne Hnone.
    destruct (snoc_cases (m_plan_stack th)) as [H|(lower & top & Hl)];
      [congruence|].
    rewrite Hl, map_app in Hstack. cbn [map] in Hstack.
    destruct (SetTracer th tracer_sp) as [pr si id v c d rs ts gp cl].
    cbn [m_plan_stack] in Hstack. subst v.
    rewrite PushPlan_snoc. eexists. split; [reflexivity|].
    unfold GetCurrentPlan. thread_fields. rewrite last_snoc'.
    unfold with_parent_tracer. now rewrite Hnone.
Qed.

Lemma SetTracer_reaches_every_plan_witness :
  let th := Sample.thread [Sample.base; Sample.step_a] [] [] in
  exists th',
    PushPlan (SetTracer th (Some 5)) (Some Sample.invalid) = Ret th'
    /\ GetCurrentPlan th'
       = Ret (ThreadPlan.SetThreadPlanTracer Sample.invalid (Some 5)).
Proof.
  intros th.
  apply (proj2 (proj2 (proj2 (proj2
           (SetTracer_reaches_every_plan th (Some 5)))))).
  - discriminate.
  - reflexivity.
Defined.

(** ** The cache of stack frame lists *)

(** X20.  [GetStackFrameList] builds a list only when the thread holds none
    and then keeps it: a second call returns the same list and changes
    nothing.  [ClearStackFrames] drops the current list; it remembers it as
    the previous list if all its frames had been fetched, and otherwise
    keeps the previous list it had; clearing twice is clearing once.  The
    list built after a clear is built from the remembered list. *)
Theorem frame_list_is_cached
    (construct : option Frames.StackFrameList -> Frames.StackFrameList)
    (fr : Frames.t) :
  (forall fr1 list1,
     Frames.GetStackFrameList construct fr = (fr1, list1) ->
     Frames.GetStackFrameList construct fr1 = (fr1, list1)
     /\ Frames.m_curr_frames_sp fr1 = Some list1
     /\ Frames.m_prev_frames_sp fr1 = Frames.m_prev_frames_sp fr)
  /\ Frames.m_curr_frames_sp (Frames.ClearStackFrames fr) = None
  /\ Frames.m_prev_frames_sp (Frames.ClearStackFrames fr)
     = match Frames.m_curr_frames_sp fr with
       | Some curr =>
           if Frames.GetAllFramesFetched curr then Some curr
           else Frames.m_prev_frames_sp fr
       | None => Frames.m_prev_frames_sp fr
       end
  /\ Frames.ClearStackFrames (Frames.ClearStackFrames fr)
     = Frames.ClearStackFrames fr
  /\ snd (Frames.GetStackFrameList construct (Frames.ClearStackFrames fr))
     = construct (Frames.m_prev_frames_sp (Frames.ClearStackFrames fr)).
Proof.
  destruct fr as [[curr|] prev]; split_and!;
    try (intros fr1 list1 [= <- <-]; now split_and!);
    cbn; try destruct (Frames.GetAllFramesFetched curr); reflexivity.
Qed.

Lemma frame_list_is_cached_witness :
  let construct := fun prev : option Frames.StackFrameList =>
    Frames.mkStackFrameList
      (match prev with Some l => S (Frames.list_addr l) | None => 0 end)
      false in
  let fr := Frames.ClearStackFrames
              (Frames.mk (Some (Frames.mkStackFrameList 7 true)) None) in
  let fr1 := Frames.mk (Some (Frames.mkStackFrameList 8 false))
               (Some (Frames.mkStackFrameList 7 true)) in
  Frames.GetStackFrameList construct fr1
  = (fr1, Frames.mkStackFrameList 8 false).
Proof.
  intros construct fr fr1.
  apply (proj1 (frame_list_is_cached construct fr) fr1
           (Frames.mkStackFrameList 8 false)).
  reflexivity.
Defined.
